(** * Flashcard trainer: card selection, grading and progress recording

    A shallow embedding of [src/db.py] ([Database.get_random_card],
    [Database.add_user_word], [Database.record_answer]) and of the grading
    expression of [src/bot.py] ([handle_non_command_text]).

    Conventions of the embedding:
    - Python [int] is [Z]; a Python [str] is a list of Unicode code points
      ([text]); [None] is [option]'s [None].
    - The PostgreSQL tables are lists of rows; the constraints of the DDL in
      [Database.init_tables] are checked by the statements that write.
    - [random] is driven by an explicit tape of raw draws; logging appends
      to a log carried next to the tape.
    - A Python exception is the [Raise] result of the [Py] monad. *)

From stdpp Require Import base list strings.
From Stdlib Require Import ZArith QArith Lia.
From Equations Require Import Equations.

Local Open Scope Z_scope.

(** ** Text: Python [str] as code points *)

Module Text.

Definition text := list N.

Definition of_string (s : string) : text :=
  Ascii.N_of_ascii <$> String.list_ascii_of_string s.

(** [str.isspace] on one code point: the characters whose bidirectional
    class is WS, B or S, or whose category is Zs. *)
Definition isspace (c : N) : bool :=
  ((9 <=? c) && (c <=? 13) || (28 <=? c) && (c <=? 32) || (c =? 133)
   || (c =? 160) || (c =? 5760) || (8192 <=? c) && (c <=? 8202)
   || (c =? 8232) || (c =? 8233) || (c =? 8239) || (c =? 8287)
   || (c =? 12288))%N.

(** *** [str.lower]

    After [do_lower] in CPython's [Objects/unicodeobject.c], with the
    Unicode 14.0 character database that CPython 3.11 carries. A run
    [(first, count, stride, target)] of a table stands for the [count]
    code points [first], [first + stride], ... mapped to [target],
    [target + stride], ... *)

Fixpoint assoc {B} (c : N) (table : list (N * B)) : option B :=
  match table with
  | [] => None
  | (k, v) :: table' => if (k =? c)%N then Some v else assoc c table'
  end.

Definition expand (run : N * N * N * N) : list (N * N) :=
  let '(first, count, stride, target) := run in
  (λ i, (first + stride * N.of_nat i, target + stride * N.of_nat i)%N)
    <$> seq 0 (N.to_nat count).

(** The code points with a lower-case mapping of one code point. *)
Definition lower_runs : list (N * N * N * N) :=
  [(65, 26, 1, 97); (192, 23, 1, 224); (216, 7, 1, 248); (256, 24, 2, 257);
   (306, 3, 2, 307); (313, 8, 2, 314); (330, 23, 2, 331); (376, 1, 1, 255);
   (377, 3, 2, 378); (385, 1, 1, 595); (386, 2, 2, 387); (390, 1, 1, 596);
   (391, 1, 1, 392); (393, 2, 1, 598); (395, 1, 1, 396); (398, 1, 1, 477);
   (399, 1, 1, 601); (400, 1, 1, 603); (401, 1, 1, 402); (403, 1, 1, 608);
   (404, 1, 1, 611); (406, 1, 1, 617); (407, 1, 1, 616); (408, 1, 1, 409);
   (412, 1, 1, 623); (413, 1, 1, 626); (415, 1, 1, 629); (416, 3, 2, 417);
   (422, 1, 1, 640); (423, 1, 1, 424); (425, 1, 1, 643); (428, 1, 1, 429);
   (430, 1, 1, 648); (431, 1, 1, 432); (433, 2, 1, 650); (435, 2, 2, 436);
   (439, 1, 1, 658); (440, 1, 1, 441); (444, 1, 1, 445); (452, 1, 1, 454);
   (453, 1, 1, 454); (455, 1, 1, 457); (456, 1, 1, 457); (458, 1, 1, 460);
   (459, 9, 2, 460); (478, 9, 2, 479); (497, 1, 1, 499); (498, 2, 2, 499);
   (502, 1, 1, 405); (503, 1, 1, 447); (504, 20, 2, 505); (544, 1, 1, 414);
   (546, 9, 2, 547); (570, 1, 1, 11365); (571, 1, 1, 572); (573, 1, 1, 410);
   (574, 1, 1, 11366); (577, 1, 1, 578); (579, 1, 1, 384); (580, 1, 1, 649);
   (581, 1, 1, 652); (582, 5, 2, 583); (880, 2, 2, 881); (886, 1, 1, 887);
   (895, 1, 1, 1011); (902, 1, 1, 940); (904, 3, 1, 941); (908, 1, 1, 972);
   (910, 2, 1, 973); (913, 17, 1, 945); (931, 9, 1, 963); (975, 1, 1, 983);
   (984, 12, 2, 985); (1012, 1, 1, 952); (1015, 1, 1, 1016);
   (1017, 1, 1, 1010); (1018, 1, 1, 1019); (1021, 3, 1, 891);
   (1024, 16, 1, 1104); (1040, 32, 1, 1072); (1120, 17, 2, 1121);
   (1162, 27, 2, 1163); (1216, 1, 1, 1231); (1217, 7, 2, 1218);
   (1232, 48, 2, 1233); (1329, 38, 1, 1377); (4256, 38, 1, 11520);
   (4295, 1, 1, 11559); (4301, 1, 1, 11565); (5024, 80, 1, 43888);
   (5104, 6, 1, 5112); (7312, 43, 1, 4304); (7357, 3, 1, 4349);
   (7680, 75, 2, 7681); (7838, 1, 1, 223); (7840, 48, 2, 7841);
   (7944, 8, 1, 7936); (7960, 6, 1, 7952); (7976, 8, 1, 7968);
   (7992, 8, 1, 7984); (8008, 6, 1, 8000); (8025, 4, 2, 8017);
   (8040, 8, 1, 8032); (8072, 8, 1, 8064); (8088, 8, 1, 8080);
   (8104, 8, 1, 8096); (8120, 2, 1, 8112); (8122, 2, 1, 8048);
   (8124, 1, 1, 8115); (8136, 4, 1, 8050); (8140, 1, 1, 8131);
   (8152, 2, 1, 8144); (8154, 2, 1, 8054); (8168, 2, 1, 8160);
   (8170, 2, 1, 8058); (8172, 1, 1, 8165); (8184, 2, 1, 8056);
   (8186, 2, 1, 8060); (8188, 1, 1, 8179); (8486, 1, 1, 969);
   (8490, 1, 1, 107); (8491, 1, 1, 229); (8498, 1, 1, 8526);
   (8544, 16, 1, 8560); (8579, 1, 1, 8580); (9398, 26, 1, 9424);
   (11264, 48, 1, 11312); (11360, 1, 1, 11361); (11362, 1, 1, 619);
   (11363, 1, 1, 7549); (11364, 1, 1, 637); (11367, 3, 2, 11368);
   (11373, 1, 1, 593); (11374, 1, 1, 625); (11375, 1, 1, 592);
   (11376, 1, 1, 594); (11378, 1, 1, 11379); (11381, 1, 1, 11382);
   (11390, 2, 1, 575); (11392, 50, 2, 11393); (11499, 2, 2, 11500);
   (11506, 1, 1, 11507); (42560, 23, 2, 42561); (42624, 14, 2, 42625);
   (42786, 7, 2, 42787); (42802, 31, 2, 42803); (42873, 2, 2, 42874);
   (42877, 1, 1, 7545); (42878, 5, 2, 42879); (42891, 1, 1, 42892);
   (42893, 1, 1, 613); (42896, 2, 2, 42897); (42902, 10, 2, 42903);
   (42922, 1, 1, 614); (42923, 1, 1, 604); (42924, 1, 1, 609);
   (42925, 1, 1, 620); (42926, 1, 1, 618); (42928, 1, 1, 670);
   (42929, 1, 1, 647); (42930, 1, 1, 669); (42931, 1, 1, 43859);
   (42932, 8, 2, 42933); (42948, 1, 1, 42900); (42949, 1, 1, 642);
   (42950, 1, 1, 7566); (42951, 2, 2, 42952); (42960, 1, 1, 42961);
   (42966, 2, 2, 42967); (42997, 1, 1, 42998); (65313, 26, 1, 65345);
   (66560, 40, 1, 66600); (66736, 36, 1, 66776); (66928, 11, 1, 66967);
   (66940, 15, 1, 66979); (66956, 7, 1, 66995); (66964, 2, 1, 67003);
   (68736, 51, 1, 68800); (71840, 32, 1, 71872); (93760, 32, 1, 93792);
   (125184, 34, 1, 125218)]%N.

Definition to_lower : list (N * N) := lower_runs ≫= expand.

(** [_PyUnicode_ToLowerFull]: U+0130 is the one code point whose
    lower-case form has two code points. *)
Definition lower_full (c : N) : list N :=
  if (c =? 304)%N then [105; 775]%N
  else match assoc c to_lower with
       | Some d => [d]
       | None => [c]
       end.

Definition in_ranges (c : N) (ranges : list (N * N)) : bool :=
  existsb (λ r, (r.1 <=? c) && (c <=? r.2))%N ranges.

(** The code points with the property Cased. *)
Definition cased_ranges : list (N * N) :=
  [(65, 90); (97, 122); (170, 170); (181, 181); (186, 186); (192, 214);
   (216, 246); (248, 442); (444, 447); (452, 659); (661, 696); (704, 705);
   (736, 740); (837, 837); (880, 883); (886, 887); (890, 893); (895, 895);
   (902, 902); (904, 906); (908, 908); (910, 929); (931, 1013); (1015, 1153);
   (1162, 1327); (1329, 1366); (1376, 1416); (4256, 4293); (4295, 4295);
   (4301, 4301); (4304, 4346); (4349, 4351); (5024, 5109); (5112, 5117);
   (7296, 7304); (7312, 7354); (7357, 7359); (7424, 7615); (7680, 7957);
   (7960, 7965); (7968, 8005); (8008, 8013); (8016, 8023); (8025, 8025);
   (8027, 8027); (8029, 8029); (8031, 8061); (8064, 8116); (8118, 8124);
   (8126, 8126); (8130, 8132); (8134, 8140); (8144, 8147); (8150, 8155);
   (8160, 8172); (8178, 8180); (8182, 8188); (8305, 8305); (8319, 8319);
   (8336, 8348); (8450, 8450); (8455, 8455); (8458, 8467); (8469, 8469);
   (8473, 8477); (8484, 8484); (8486, 8486); (8488, 8488); (8490, 8493);
   (8495, 8500); (8505, 8505); (8508, 8511); (8517, 8521); (8526, 8526);
   (8544, 8575); (8579, 8580); (9398, 9449); (11264, 11492); (11499, 11502);
   (11506, 11507); (11520, 11557); (11559, 11559); (11565, 11565);
   (42560, 42605); (42624, 42653); (42786, 42887); (42891, 42894);
   (42896, 42954); (42960, 42961); (42963, 42963); (42965, 42969);
   (42997, 42998); (43000, 43002); (43824, 43866); (43868, 43880);
   (43888, 43967); (64256, 64262); (64275, 64279); (65313, 65338);
   (65345, 65370); (66560, 66639); (66736, 66771); (66776, 66811);
   (66928, 66938); (66940, 66954); (66956, 66962); (66964, 66965);
   (66967, 66977); (66979, 66993); (66995, 67001); (67003, 67004);
   (67456, 67456); (67459, 67461); (67463, 67504); (67506, 67514);
   (68736, 68786); (68800, 68850); (71840, 71903); (93760, 93823);
   (119808, 119892); (119894, 119964); (119966, 119967); (119970, 119970);
   (119973, 119974); (119977, 119980); (119982, 119993); (119995, 119995);
   (119997, 120003); (120005, 120069); (120071, 120074); (120077, 120084);
   (120086, 120092); (120094, 120121); (120123, 120126); (120128, 120132);
   (120134, 120134); (120138, 120144); (120146, 120485); (120488, 120512);
   (120514, 120538); (120540, 120570); (120572, 120596); (120598, 120628);
   (120630, 120654); (120656, 120686); (120688, 120712); (120714, 120744);
   (120746, 120770); (120772, 120779); (122624, 122633); (122635, 122654);
   (125184, 125251); (127280, 127305); (127312, 127337); (127344, 127369)]%N.

(** The code points with the property Case_Ignorable. *)
Definition case_ignorable_ranges : list (N * N) :=
  [(39, 39); (46, 46); (58, 58); (94, 94); (96, 96); (168, 168); (173, 173);
   (175, 175); (180, 180); (183, 184); (688, 879); (884, 885); (890, 890);
   (900, 901); (903, 903); (1155, 1161); (1369, 1369); (1375, 1375);
   (1425, 1469); (1471, 1471); (1473, 1474); (1476, 1477); (1479, 1479);
   (1524, 1524); (1536, 1541); (1552, 1562); (1564, 1564); (1600, 1600);
   (1611, 1631); (1648, 1648); (1750, 1757); (1759, 1768); (1770, 1773);
   (1807, 1807); (1809, 1809); (1840, 1866); (1958, 1968); (2027, 2037);
   (2042, 2042); (2045, 2045); (2070, 2093); (2137, 2139); (2184, 2184);
   (2192, 2193); (2200, 2207); (2249, 2306); (2362, 2362); (2364, 2364);
   (2369, 2376); (2381, 2381); (2385, 2391); (2402, 2403); (2417, 2417);
   (2433, 2433); (2492, 2492); (2497, 2500); (2509, 2509); (2530, 2531);
   (2558, 2558); (2561, 2562); (2620, 2620); (2625, 2626); (2631, 2632);
   (2635, 2637); (2641, 2641); (2672, 2673); (2677, 2677); (2689, 2690);
   (2748, 2748); (2753, 2757); (2759, 2760); (2765, 2765); (2786, 2787);
   (2810, 2815); (2817, 2817); (2876, 2876); (2879, 2879); (2881, 2884);
   (2893, 2893); (2901, 2902); (2914, 2915); (2946, 2946); (3008, 3008);
   (3021, 3021); (3072, 3072); (3076, 3076); (3132, 3132); (3134, 3136);
   (3142, 3144); (3146, 3149); (3157, 3158); (3170, 3171); (3201, 3201);
   (3260, 3260); (3263, 3263); (3270, 3270); (3276, 3277); (3298, 3299);
   (3328, 3329); (3387, 3388); (3393, 3396); (3405, 3405); (3426, 3427);
   (3457, 3457); (3530, 3530); (3538, 3540); (3542, 3542); (3633, 3633);
   (3636, 3642); (3654, 3662); (3761, 3761); (3764, 3772); (3782, 3782);
   (3784, 3789); (3864, 3865); (3893, 3893); (3895, 3895); (3897, 3897);
   (3953, 3966); (3968, 3972); (3974, 3975); (3981, 3991); (3993, 4028);
   (4038, 4038); (4141, 4144); (4146, 4151); (4153, 4154); (4157, 4158);
   (4184, 4185); (4190, 4192); (4209, 4212); (4226, 4226); (4229, 4230);
   (4237, 4237); (4253, 4253); (4348, 4348); (4957, 4959); (5906, 5908);
   (5938, 5939); (5970, 5971); (6002, 6003); (6068, 6069); (6071, 6077);
   (6086, 6086); (6089, 6099); (6103, 6103); (6109, 6109); (6155, 6159);
   (6211, 6211); (6277, 6278); (6313, 6313); (6432, 6434); (6439, 6440);
   (6450, 6450); (6457, 6459); (6679, 6680); (6683, 6683); (6742, 6742);
   (6744, 6750); (6752, 6752); (6754, 6754); (6757, 6764); (6771, 6780);
   (6783, 6783); (6823, 6823); (6832, 6862); (6912, 6915); (6964, 6964);
   (6966, 6970); (6972, 6972); (6978, 6978); (7019, 7027); (7040, 7041);
   (7074, 7077); (7080, 7081); (7083, 7085); (7142, 7142); (7144, 7145);
   (7149, 7149); (7151, 7153); (7212, 7219); (7222, 7223); (7288, 7293);
   (7376, 7378); (7380, 7392); (7394, 7400); (7405, 7405); (7412, 7412);
   (7416, 7417); (7468, 7530); (7544, 7544); (7579, 7679); (8125, 8125);
   (8127, 8129); (8141, 8143); (8157, 8159); (8173, 8175); (8189, 8190);
   (8203, 8207); (8216, 8217); (8228, 8228); (8231, 8231); (8234, 8238);
   (8288, 8292); (8294, 8303); (8305, 8305); (8319, 8319); (8336, 8348);
   (8400, 8432); (11388, 11389); (11503, 11505); (11631, 11631);
   (11647, 11647); (11744, 11775); (11823, 11823); (12293, 12293);
   (12330, 12333); (12337, 12341); (12347, 12347); (12441, 12446);
   (12540, 12542); (40981, 40981); (42232, 42237); (42508, 42508);
   (42607, 42610); (42612, 42621); (42623, 42623); (42652, 42655);
   (42736, 42737); (42752, 42785); (42864, 42864); (42888, 42890);
   (42994, 42996); (43000, 43001); (43010, 43010); (43014, 43014);
   (43019, 43019); (43045, 43046); (43052, 43052); (43204, 43205);
   (43232, 43249); (43263, 43263); (43302, 43309); (43335, 43345);
   (43392, 43394); (43443, 43443); (43446, 43449); (43452, 43453);
   (43471, 43471); (43493, 43494); (43561, 43566); (43569, 43570);
   (43573, 43574); (43587, 43587); (43596, 43596); (43632, 43632);
   (43644, 43644); (43696, 43696); (43698, 43700); (43703, 43704);
   (43710, 43711); (43713, 43713); (43741, 43741); (43756, 43757);
   (43763, 43764); (43766, 43766); (43867, 43871); (43881, 43883);
   (44005, 44005); (44008, 44008); (44013, 44013); (64286, 64286);
   (64434, 64450); (65024, 65039); (65043, 65043); (65056, 65071);
   (65106, 65106); (65109, 65109); (65279, 65279); (65287, 65287);
   (65294, 65294); (65306, 65306); (65342, 65342); (65344, 65344);
   (65392, 65392); (65438, 65439); (65507, 65507); (65529, 65531);
   (66045, 66045); (66272, 66272); (66422, 66426); (67456, 67461);
   (67463, 67504); (67506, 67514); (68097, 68099); (68101, 68102);
   (68108, 68111); (68152, 68154); (68159, 68159); (68325, 68326);
   (68900, 68903); (69291, 69292); (69446, 69456); (69506, 69509);
   (69633, 69633); (69688, 69702); (69744, 69744); (69747, 69748);
   (69759, 69761); (69811, 69814); (69817, 69818); (69821, 69821);
   (69826, 69826); (69837, 69837); (69888, 69890); (69927, 69931);
   (69933, 69940); (70003, 70003); (70016, 70017); (70070, 70078);
   (70089, 70092); (70095, 70095); (70191, 70193); (70196, 70196);
   (70198, 70199); (70206, 70206); (70367, 70367); (70371, 70378);
   (70400, 70401); (70459, 70460); (70464, 70464); (70502, 70508);
   (70512, 70516); (70712, 70719); (70722, 70724); (70726, 70726);
   (70750, 70750); (70835, 70840); (70842, 70842); (70847, 70848);
   (70850, 70851); (71090, 71093); (71100, 71101); (71103, 71104);
   (71132, 71133); (71219, 71226); (71229, 71229); (71231, 71232);
   (71339, 71339); (71341, 71341); (71344, 71349); (71351, 71351);
   (71453, 71455); (71458, 71461); (71463, 71467); (71727, 71735);
   (71737, 71738); (71995, 71996); (71998, 71998); (72003, 72003);
   (72148, 72151); (72154, 72155); (72160, 72160); (72193, 72202);
   (72243, 72248); (72251, 72254); (72263, 72263); (72273, 72278);
   (72281, 72283); (72330, 72342); (72344, 72345); (72752, 72758);
   (72760, 72765); (72767, 72767); (72850, 72871); (72874, 72880);
   (72882, 72883); (72885, 72886); (73009, 73014); (73018, 73018);
   (73020, 73021); (73023, 73029); (73031, 73031); (73104, 73105);
   (73109, 73109); (73111, 73111); (73459, 73460); (78896, 78904);
   (92912, 92916); (92976, 92982); (92992, 92995); (94031, 94031);
   (94095, 94111); (94176, 94177); (94179, 94180); (110576, 110579);
   (110581, 110587); (110589, 110590); (113821, 113822); (113824, 113827);
   (118528, 118573); (118576, 118598); (119143, 119145); (119155, 119170);
   (119173, 119179); (119210, 119213); (119362, 119364); (121344, 121398);
   (121403, 121452); (121461, 121461); (121476, 121476); (121499, 121503);
   (121505, 121519); (122880, 122886); (122888, 122904); (122907, 122913);
   (122915, 122916); (122918, 122922); (123184, 123197); (123566, 123566);
   (123628, 123631); (125136, 125142); (125252, 125259); (127995, 127999);
   (917505, 917505); (917536, 917631); (917760, 917999)]%N.

(** [_PyUnicode_IsCased] and [_PyUnicode_IsCaseIgnorable]. *)
Definition cased (c : N) : bool := in_ranges c cased_ranges.
Definition case_ignorable (c : N) : bool := in_ranges c case_ignorable_ranges.

Fixpoint first_not_ignorable (s : text) : option N :=
  match s with
  | [] => None
  | c :: s' => if case_ignorable c then first_not_ignorable s' else Some c
  end.

(** [handle_capital_sigma]: U+03A3 becomes the final sigma U+03C2 after a
    cased letter and before no cased letter, case-ignorable code points
    skipped on both sides; U+03C3 otherwise. [before] is the text before
    the sigma, read backwards. *)
Definition handle_capital_sigma (before after : text) : N :=
  let final_sigma :=
    match first_not_ignorable before with
    | None => false
    | Some c =>
        cased c
        && match first_not_ignorable after with
           | None => true
           | Some d => negb (cased d)
           end
    end in
  (if final_sigma then 962 else 963)%N.

Definition lower_ucs4 (before after : text) (c : N) : list N :=
  if (c =? 931)%N then [handle_capital_sigma before after] else lower_full c.

Fixpoint do_lower (before s : text) : text :=
  match s with
  | [] => []
  | c :: after => lower_ucs4 before after c ++ do_lower (c :: before) after
  end.

Definition lower (s : text) : text := do_lower [] s.

#[global] Arguments lower_full : simpl never.
#[global] Arguments handle_capital_sigma : simpl never.
#[global] Arguments lower : simpl never.

Fixpoint lstrip (s : text) : text :=
  match s with
  | c :: s' => if isspace c then lstrip s' else s
  | [] => []
  end.

Definition rstrip (s : text) : text := reverse (lstrip (reverse s)).

(** [str.strip()]: both ends. *)
Definition strip (s : text) : text := rstrip (lstrip s).

Definition eqb (a b : text) : bool := bool_decide (a = b).

Definition all_space (s : text) : Prop := Forall (λ c, isspace c = true) s.

End Text.

Import Text.

(** ** Grading ([bot.py], [handle_non_command_text])

    [user_text = message.text.strip()] and
    [is_correct = user_text.lower() == correct_answer.lower()]. *)

Definition grade (correct_answer : text) (message_text : text) : bool :=
  let user_text := strip message_text in
  Text.eqb (lower user_text) (lower correct_answer).

(** The words of the specification, for comparison with [grade]. *)
Module GradeSpec.

(** [t] is [s] with the surrounding whitespace removed. *)
Definition trimmed (s t : text) : Prop :=
  ∃ pre post,
    s = pre ++ t ++ post
    ∧ all_space pre
    ∧ all_space post
    ∧ (∀ c, head t = Some c → isspace c = false)
    ∧ (∀ c, last t = Some c → isspace c = false).

(** Case folding of the Unicode standard ([CaseFolding.txt], statuses C
    and F): the code points folded to one code point, in runs, and those
    folded to several. *)
Definition fold_runs : list (N * N * N * N) :=
  [(65, 26, 1, 97); (181, 1, 1, 956); (192, 23, 1, 224); (216, 7, 1, 248);
   (256, 24, 2, 257); (306, 3, 2, 307); (313, 8, 2, 314); (330, 23, 2, 331);
   (376, 1, 1, 255); (377, 3, 2, 378); (383, 1, 1, 115); (385, 1, 1, 595);
   (386, 2, 2, 387); (390, 1, 1, 596); (391, 1, 1, 392); (393, 2, 1, 598);
   (395, 1, 1, 396); (398, 1, 1, 477); (399, 1, 1, 601); (400, 1, 1, 603);
   (401, 1, 1, 402); (403, 1, 1, 608); (404, 1, 1, 611); (406, 1, 1, 617);
   (407, 1, 1, 616); (408, 1, 1, 409); (412, 1, 1, 623); (413, 1, 1, 626);
   (415, 1, 1, 629); (416, 3, 2, 417); (422, 1, 1, 640); (423, 1, 1, 424);
   (425, 1, 1, 643); (428, 1, 1, 429); (430, 1, 1, 648); (431, 1, 1, 432);
   (433, 2, 1, 650); (435, 2, 2, 436); (439, 1, 1, 658); (440, 1, 1, 441);
   (444, 1, 1, 445); (452, 1, 1, 454); (453, 1, 1, 454); (455, 1, 1, 457);
   (456, 1, 1, 457); (458, 1, 1, 460); (459, 9, 2, 460); (478, 9, 2, 479);
   (497, 1, 1, 499); (498, 2, 2, 499); (502, 1, 1, 405); (503, 1, 1, 447);
   (504, 20, 2, 505); (544, 1, 1, 414); (546, 9, 2, 547); (570, 1, 1, 11365);
   (571, 1, 1, 572); (573, 1, 1, 410); (574, 1, 1, 11366); (577, 1, 1, 578);
   (579, 1, 1, 384); (580, 1, 1, 649); (581, 1, 1, 652); (582, 5, 2, 583);
   (837, 1, 1, 953); (880, 2, 2, 881); (886, 1, 1, 887); (895, 1, 1, 1011);
   (902, 1, 1, 940); (904, 3, 1, 941); (908, 1, 1, 972); (910, 2, 1, 973);
   (913, 17, 1, 945); (931, 9, 1, 963); (962, 1, 1, 963); (975, 1, 1, 983);
   (976, 1, 1, 946); (977, 1, 1, 952); (981, 1, 1, 966); (982, 1, 1, 960);
   (984, 12, 2, 985); (1008, 1, 1, 954); (1009, 1, 1, 961);
   (1012, 1, 1, 952); (1013, 1, 1, 949); (1015, 1, 1, 1016);
   (1017, 1, 1, 1010); (1018, 1, 1, 1019); (1021, 3, 1, 891);
   (1024, 16, 1, 1104); (1040, 32, 1, 1072); (1120, 17, 2, 1121);
   (1162, 27, 2, 1163); (1216, 1, 1, 1231); (1217, 7, 2, 1218);
   (1232, 48, 2, 1233); (1329, 38, 1, 1377); (4256, 38, 1, 11520);
   (4295, 1, 1, 11559); (4301, 1, 1, 11565); (5112, 6, 1, 5104);
   (7296, 1, 1, 1074); (7297, 1, 1, 1076); (7298, 1, 1, 1086);
   (7299, 2, 1, 1089); (7301, 1, 1, 1090); (7302, 1, 1, 1098);
   (7303, 1, 1, 1123); (7304, 1, 1, 42571); (7312, 43, 1, 4304);
   (7357, 3, 1, 4349); (7680, 75, 2, 7681); (7835, 1, 1, 7777);
   (7840, 48, 2, 7841); (7944, 8, 1, 7936); (7960, 6, 1, 7952);
   (7976, 8, 1, 7968); (7992, 8, 1, 7984); (8008, 6, 1, 8000);
   (8025, 4, 2, 8017); (8040, 8, 1, 8032); (8120, 2, 1, 8112);
   (8122, 2, 1, 8048); (8126, 1, 1, 953); (8136, 4, 1, 8050);
   (8152, 2, 1, 8144); (8154, 2, 1, 8054); (8168, 2, 1, 8160);
   (8170, 2, 1, 8058); (8172, 1, 1, 8165); (8184, 2, 1, 8056);
   (8186, 2, 1, 8060); (8486, 1, 1, 969); (8490, 1, 1, 107);
   (8491, 1, 1, 229); (8498, 1, 1, 8526); (8544, 16, 1, 8560);
   (8579, 1, 1, 8580); (9398, 26, 1, 9424); (11264, 48, 1, 11312);
   (11360, 1, 1, 11361); (11362, 1, 1, 619); (11363, 1, 1, 7549);
   (11364, 1, 1, 637); (11367, 3, 2, 11368); (11373, 1, 1, 593);
   (11374, 1, 1, 625); (11375, 1, 1, 592); (11376, 1, 1, 594);
   (11378, 1, 1, 11379); (11381, 1, 1, 11382); (11390, 2, 1, 575);
   (11392, 50, 2, 11393); (11499, 2, 2, 11500); (11506, 1, 1, 11507);
   (42560, 23, 2, 42561); (42624, 14, 2, 42625); (42786, 7, 2, 42787);
   (42802, 31, 2, 42803); (42873, 2, 2, 42874); (42877, 1, 1, 7545);
   (42878, 5, 2, 42879); (42891, 1, 1, 42892); (42893, 1, 1, 613);
   (42896, 2, 2, 42897); (42902, 10, 2, 42903); (42922, 1, 1, 614);
   (42923, 1, 1, 604); (42924, 1, 1, 609); (42925, 1, 1, 620);
   (42926, 1, 1, 618); (42928, 1, 1, 670); (42929, 1, 1, 647);
   (42930, 1, 1, 669); (42931, 1, 1, 43859); (42932, 8, 2, 42933);
   (42948, 1, 1, 42900); (42949, 1, 1, 642); (42950, 1, 1, 7566);
   (42951, 2, 2, 42952); (42960, 1, 1, 42961); (42966, 2, 2, 42967);
   (42997, 1, 1, 42998); (43888, 80, 1, 5024); (65313, 26, 1, 65345);
   (66560, 40, 1, 66600); (66736, 36, 1, 66776); (66928, 11, 1, 66967);
   (66940, 15, 1, 66979); (66956, 7, 1, 66995); (66964, 2, 1, 67003);
   (68736, 51, 1, 68800); (71840, 32, 1, 71872); (93760, 32, 1, 93792);
   (125184, 34, 1, 125218)]%N.

Definition fold_full : list (N * list N) :=
  [(223, [115; 115]); (304, [105; 775]); (329, [700; 110]);
   (496, [106; 780]); (912, [953; 776; 769]); (944, [965; 776; 769]);
   (1415, [1381; 1410]); (7830, [104; 817]); (7831, [116; 776]);
   (7832, [119; 778]); (7833, [121; 778]); (7834, [97; 702]);
   (7838, [115; 115]); (8016, [965; 787]); (8018, [965; 787; 768]);
   (8020, [965; 787; 769]); (8022, [965; 787; 834]); (8064, [7936; 953]);
   (8065, [7937; 953]); (8066, [7938; 953]); (8067, [7939; 953]);
   (8068, [7940; 953]); (8069, [7941; 953]); (8070, [7942; 953]);
   (8071, [7943; 953]); (8072, [7936; 953]); (8073, [7937; 953]);
   (8074, [7938; 953]); (8075, [7939; 953]); (8076, [7940; 953]);
   (8077, [7941; 953]); (8078, [7942; 953]); (8079, [7943; 953]);
   (8080, [7968; 953]); (8081, [7969; 953]); (8082, [7970; 953]);
   (8083, [7971; 953]); (8084, [7972; 953]); (8085, [7973; 953]);
   (8086, [7974; 953]); (8087, [7975; 953]); (8088, [7968; 953]);
   (8089, [7969; 953]); (8090, [7970; 953]); (8091, [7971; 953]);
   (8092, [7972; 953]); (8093, [7973; 953]); (8094, [7974; 953]);
   (8095, [7975; 953]); (8096, [8032; 953]); (8097, [8033; 953]);
   (8098, [8034; 953]); (8099, [8035; 953]); (8100, [8036; 953]);
   (8101, [8037; 953]); (8102, [8038; 953]); (8103, [8039; 953]);
   (8104, [8032; 953]); (8105, [8033; 953]); (8106, [8034; 953]);
   (8107, [8035; 953]); (8108, [8036; 953]); (8109, [8037; 953]);
   (8110, [8038; 953]); (8111, [8039; 953]); (8114, [8048; 953]);
   (8115, [945; 953]); (8116, [940; 953]); (8118, [945; 834]);
   (8119, [945; 834; 953]); (8124, [945; 953]); (8130, [8052; 953]);
   (8131, [951; 953]); (8132, [942; 953]); (8134, [951; 834]);
   (8135, [951; 834; 953]); (8140, [951; 953]); (8146, [953; 776; 768]);
   (8147, [953; 776; 769]); (8150, [953; 834]); (8151, [953; 776; 834]);
   (8162, [965; 776; 768]); (8163, [965; 776; 769]); (8164, [961; 787]);
   (8166, [965; 834]); (8167, [965; 776; 834]); (8178, [8060; 953]);
   (8179, [969; 953]); (8180, [974; 953]); (8182, [969; 834]);
   (8183, [969; 834; 953]); (8188, [969; 953]); (64256, [102; 102]);
   (64257, [102; 105]); (64258, [102; 108]); (64259, [102; 102; 105]);
   (64260, [102; 102; 108]); (64261, [115; 116]); (64262, [115; 116]);
   (64275, [1396; 1398]); (64276, [1396; 1381]); (64277, [1396; 1387]);
   (64278, [1406; 1398]); (64279, [1396; 1389])]%N.

Definition to_casefold : list (N * list N) :=
  ((λ p, (p.1, [p.2])) <$> (fold_runs ≫= expand)) ++ fold_full.

Definition casefold_full (c : N) : list N := default [c] (assoc c to_casefold).

#[global] Arguments casefold_full : simpl never.

Definition casefold (s : text) : text := s ≫= casefold_full.

(** A case-insensitive match: the two texts have the same case folding
    (default caseless matching of the Unicode standard). *)
Definition caseless_match (a b : text) : Prop := casefold a = casefold b.

End GradeSpec.

(** ** Selection weight ([db.py], [get_random_card], step 2) *)

Definition compute_weight (correct_c incorrect_c : option Z) : Z :=
  let correct_count := match correct_c with Some c => c | None => 0 end in
  let incorrect_count := match incorrect_c with Some i => i | None => 0 end in
  let weight :=
    if (correct_count =? 0) && (incorrect_count =? 0) then 10
    else if 0 <? incorrect_count then 5 + incorrect_count * 2 - correct_count
    else if 0 <? correct_count then Z.max 1 (5 - correct_count)
    else 1 in
  Z.max 1 weight.

(** ** Store: tables of [Database.init_tables] *)

Inductive WordType := common | user.

#[global] Instance WordType_eq_dec : EqDecision WordType.
Proof. solve_decision. Defined.

Record CommonWord := { cw_id : Z; cw_en : text; cw_ru : text }.

Record UserWord := { uw_id : Z; uw_user : Z; uw_en : text; uw_ru : text }.

Record Progress := {
  p_user : Z; p_type : WordType; p_ref : Z;
  p_correct : Z; p_incorrect : Z; p_last : option Z }.

(** The transactional state: what [commit] publishes and [rollback]
    restores. *)
Record Tables := {
  common_words : list CommonWord;
  user_words : list UserWord;
  user_word_progress : list Progress }.

Inductive DbError :=
| OperationalError | InterfaceError | StringDataRightTruncation
| NumericValueOutOfRange | UniqueViolation.

(** A psycopg2 connection. [broken = Some e]: every operation on the
    connection raises [e] (server gone, connection closed).
    [user_words_id_seq] is the SERIAL sequence of [user_words.id]; a
    sequence is not transactional. *)
Record Connection := {
  tables : Tables;
  user_words_id_seq : Z;
  broken : option DbError }.

(** [self] of [Database]: [self.conn] is [None] when [connect] failed. *)
Record Database := { conn : option Connection }.

Definition INT_MAX : Z := 2147483647.
Definition in_bigint (z : Z) : bool :=
  (-9223372036854775808 <=? z) && (z <=? 9223372036854775807).
Definition VARCHAR_LEN : nat := 100.

(** The constraints the DDL declares (PRIMARY KEY, UNIQUE, CHECK). *)
Record schema_ok (t : Tables) : Prop := {
  common_pk : NoDup (cw_id <$> common_words t);
  common_en_unique : NoDup (cw_en <$> common_words t);
  user_pk : NoDup (uw_id <$> user_words t);
  uq_user_word : NoDup ((λ u, (uw_user u, uw_en u)) <$> user_words t);
  progress_unique :
    NoDup ((λ p, (p_user p, p_type p, p_ref p)) <$> user_word_progress t);
  progress_check :
    Forall (λ p, 0 ≤ p_correct p ∧ 0 ≤ p_incorrect p) (user_word_progress t) }.

(** ** Exceptions, log, world *)

Inductive Exn :=
| ValueError | IndexError | AttributeError
| Psycopg2Error (e : DbError).

Inductive Level := DEBUG | INFO | WARNING | ERROR.

Inductive LogMsg :=
| CannotGetCardNoConnection
| NoWordsFound (user_id : Z)
| PopulationEmpty (user_id : Z)
| MismatchFallback (user_id : Z)
| WeightsFor (user_id : Z) (ws : list (text * Z))
| WeightedChoiceError (user_id : Z) (ve : Exn)
| DatabaseErrorGettingCard (user_id : Z) (db_err : DbError)
| RollbackError (rb_err : Exn)
| UnexpectedErrorGettingCard (user_id : Z) (e : Exn)
| AddWord (en_word : text) (user_id : Z) (inserted : bool)
| ErrorAddingWord (en_word : text) (user_id : Z) (e : Exn)
| RecordedAnswer (user_id : Z) (word_type : WordType) (word_ref_id : Z)
    (is_correct : bool)
| ErrorRecordingAnswer (user_id : Z) (word_type : WordType) (word_ref_id : Z)
    (e : Exn).

(** Everything a call reads or changes besides its arguments: the global
    [db] object, the tape of raw random draws with the position of the next
    one, the wall clock, and the log written so far (oldest first). *)
Record World := {
  self : Database;
  tape : nat → N;
  pos : nat;
  clock : Z;
  log : list (Level * LogMsg) }.

Inductive Result (A : Type) :=
| Ok (a : A)
| Raise (e : Exn).
Arguments Ok {A} a.
Arguments Raise {A} e.

Definition Py (A : Type) : Type := World → Result A * World.

#[global] Instance Py_ret : MRet Py := λ A a w, (Ok a, w).
#[global] Instance Py_bind : MBind Py := λ A B f m w,
  match m w with
  | (Ok a, w') => f a w'
  | (Raise e, w') => (Raise e, w')
  end.

Definition raise {A} (e : Exn) : Py A := λ w, (Raise e, w).

(** [try: m  except <exceptions h accepts>: h e]; [h e = None] lets [e]
    propagate. *)
Definition try_except {A} (m : Py A) (h : Exn → option (Py A)) : Py A := λ w,
  match m w with
  | (Ok a, w') => (Ok a, w')
  | (Raise e, w') =>
      match h e with
      | Some k => k w'
      | None => (Raise e, w')
      end
  end.

Definition add_log (w : World) (records : list (Level * LogMsg)) : World :=
  {| self := self w; tape := tape w; pos := pos w; clock := clock w;
     log := log w ++ records |}.

(** [logger.debug], [logger.info], [logger.error]. *)
Definition logger (lvl : Level) (msg : LogMsg) : Py unit := λ w,
  (Ok (), add_log w [(lvl, msg)]).

Definition get_self : Py Database := λ w, (Ok (self w), w).

Definition set_self (d : Database) : Py unit := λ w,
  (Ok (), {| self := d; tape := tape w; pos := pos w; clock := clock w;
             log := log w |}).

Definition datetime_now : Py Z := λ w, (Ok (clock w), w).

(** One raw draw from the tape. *)
Definition draw : Py N := λ w,
  (Ok (tape w (pos w)),
   {| self := self w; tape := tape w; pos := S (pos w); clock := clock w;
      log := log w |}).

(** ** Standard library: [bisect] and [random], on the tape

    The functions [get_random_card] calls, after CPython's [Lib/bisect.py]
    and [Lib/random.py]. *)

(** ** Floats

    A Python [float] is a binary64 double and is taken as the rational it
    holds. The doubles of [random.choices] are dyadic rationals [n / 2^j]:
    the 53-bit fraction of [random()], the total of the weights, their
    product. An operation returns the double nearest to the exact result,
    ties going to the even significand. *)

Module float.

(** The integer of at most 53 significant bits nearest to [p >= 0]. *)
Definition round53 (p : Z) : Z :=
  let s := Z.max 0 (Z.log2 p + 1 - 53) in
  let q := p / 2 ^ s in
  let r := p mod 2 ^ s in
  if (2 ^ s <? 2 * r) || ((2 ^ s =? 2 * r) && Z.odd q)
  then (q + 1) * 2 ^ s else q * 2 ^ s.

(** The double nearest to the dyadic rational [x], written with a power
    of two as its denominator. The exponent of the result is not bounded:
    the doubles of [random.choices] lie between 2^-53 and the total of the
    weights, and an integer of 1024 bits or more, for which CPython raises
    [OverflowError] instead of converting it, is rounded like any other;
    no total of weights computed from INT counters reaches that size. *)
Definition round (x : Q) : Q :=
  (Z.sgn (Qnum x) * round53 (Z.abs (Qnum x))) # Qden x.

(** [float(z)], as in [z + 0.0]. *)
Definition of_int (z : Z) : Q := round (inject_Z z).

(** [x * y]. *)
Definition mul (x y : Q) : Q := round (x * y).

End float.

(** [x < y] for a float [x] and an [int] [y]: Python compares the two
    values exactly. *)
Definition float_lt (x y : Q) : bool := negb (Qle_bool y x).

Module bisect.

(** [bisect.bisect_right(a, x, lo, hi)]:
    [while lo < hi: mid = (lo + hi) // 2;
       if x < a[mid]: hi = mid  else: lo = mid + 1]. *)
Equations? bisect_right (a : list Z) (x : Q) (lo hi : nat) : Result nat
  by wf (hi - lo)%nat lt :=
  bisect_right a x lo hi with decide (lo < hi)%nat => {
    | right _ => Ok lo
    | left _ with a !! ((lo + hi) / 2)%nat => {
        | None => Raise IndexError
        | Some am with float_lt x (inject_Z am) => {
            | true => bisect_right a x lo ((lo + hi) / 2)%nat
            | false => bisect_right a x ((lo + hi) / 2 + 1)%nat hi } } }.
Proof.
  all: change (Nat.divmod (lo + hi) 1 0 1).1 with ((lo + hi) / 2)%nat;
    pose proof (Nat.div_mod_eq (lo + hi) 2);
    pose proof (Nat.mod_upper_bound (lo + hi) 2); lia.
Defined.

End bisect.

Module random.

Import bisect.

(** [_randbelow(n)] for [n > 0]: a position below [n]. CPython draws
    [getrandbits] until the value is below [n]; here the raw draw is
    reduced modulo [n]. *)
Definition randbelow (n : nat) : Py nat :=
  r ← draw; mret (N.to_nat (r `mod` N.of_nat n)%N).

(** [random()]: a 53-bit fraction in [0, 1), which a double holds
    exactly. *)
Definition random : Py Q :=
  r ← draw; mret (Z.of_N (r `mod` 9007199254740992)%N # 9007199254740992)%Q.

Definition choice {A} (seq : list A) : Py A :=
  match seq with
  | [] => raise IndexError
  | _ =>
      j ← randbelow (length seq);
      match seq !! j with
      | Some x => mret x
      | None => raise IndexError
      end
  end.

Fixpoint accumulate_from (acc : Z) (ws : list Z) : list Z :=
  match ws with
  | [] => []
  | w :: ws' => (acc + w) :: accumulate_from (acc + w) ws'
  end.

Definition accumulate (ws : list Z) : list Z := accumulate_from 0 ws.

(** One draw of [random.choices(population, weights, k)]:
    [population[bisect(cum_weights, random() * total, 0, hi)]]. *)
Definition choices_draw {A} (population : list A) (cum_weights : list Z)
    (total : Q) (hi : nat) : Py A :=
  u ← random;
  match bisect_right cum_weights (float.mul u total) 0 hi with
  | Raise e => raise e
  | Ok i =>
      match population !! i with
      | Some x => mret x
      | None => raise IndexError
      end
  end.

Fixpoint repeat_draws {A} (k : nat) (m : Py A) : Py (list A) :=
  match k with
  | O => mret []
  | S k' => x ← m; xs ← repeat_draws k' m; mret (x :: xs)
  end.

Definition choices {A} (population : list A) (weights : list Z) (k : nat)
    : Py (list A) :=
  let n := length population in
  let cum_weights := accumulate weights in
  if decide (length cum_weights ≠ n) then raise ValueError
  else
    match last cum_weights with
    | None => raise IndexError
    | Some t =>
        let total := float.of_int t in
        if Qle_bool total 0 then raise ValueError
        else repeat_draws k (choices_draw population cum_weights total (n - 1))
    end.

(** [random.sample(population, k)], the pool algorithm:
    [j = randbelow(n - i); result[i] = pool[j]; pool[j] = pool[n - i - 1]].
    CPython runs it for populations of at most 21 elements when [k <= 5];
    for longer ones it redraws a position until it is a new one, which
    picks [k] distinct positions as well. *)
Fixpoint sample_loop {A} (k n i : nat) (pool : list A) : Py (list A) :=
  match k with
  | O => mret []
  | S k' =>
      j ← randbelow (n - i);
      match pool !! j, pool !! (n - i - 1)%nat with
      | Some x, Some y =>
          rest ← sample_loop k' n (S i) (<[j := y]> pool);
          mret (x :: rest)
      | _, _ => raise IndexError
      end
  end.

Definition sample {A} (population : list A) (k : nat) : Py (list A) :=
  let n := length population in
  if decide (k ≤ n)%nat then sample_loop k n 0 population
  else raise ValueError.

(** [random.shuffle(x)]:
    [for i in reversed(range(1, len(x))): j = randbelow(i + 1);
       x[i], x[j] = x[j], x[i]]. The list is returned instead of updated in
    place. *)
Fixpoint shuffle_loop {A} (i : nat) (x : list A) : Py (list A) :=
  match i with
  | O => mret x
  | S i' =>
      j ← randbelow (i + 1);
      match x !! i, x !! j with
      | Some xi, Some xj => shuffle_loop i' (<[j := xi]> (<[i := xj]> x))
      | _, _ => raise IndexError
      end
  end.

Definition shuffle {A} (x : list A) : Py (list A) :=
  shuffle_loop (length x - 1) x.

End random.

(** ** SQL statements of [db.py] on the tables *)

Module sql.

(** A row of the subquery [w] of [get_random_card]. *)
Record WordRow := { w_en : text; w_ru : text; w_type : WordType; w_ref : Z }.

#[global] Instance WordRow_eq_dec : EqDecision WordRow.
Proof. solve_decision. Defined.

(** A row of [words_data_with_progress]:
    [(en_word, ru_word, word_type, word_ref_id, correct_c, incorrect_c)]. *)
Record Row := {
  row_word : WordRow;
  correct_c : option Z;
  incorrect_c : option Z }.

(** [SELECT ..., 'common', id FROM common_words UNION
     SELECT ..., 'user', id FROM user_words WHERE user_id = %(user_id)s]:
    [UNION] keeps one copy of each row. *)
Definition word_union (t : Tables) (user_id : Z) : list WordRow :=
  remove_dups
    (((λ c, {| w_en := cw_en c; w_ru := cw_ru c; w_type := common;
               w_ref := cw_id c |}) <$> common_words t)
     ++ ((λ u, {| w_en := uw_en u; w_ru := uw_ru u; w_type := user;
                  w_ref := uw_id u |})
           <$> filter (λ u, uw_user u = user_id) (user_words t))).

(** The [ON] condition of the join. *)
Definition joins (user_id : Z) (w : WordRow) (p : Progress) : Prop :=
  w_ref w = p_ref p ∧ w_type w = p_type p ∧ p_user p = user_id.

#[global] Instance joins_dec user_id w p : Decision (joins user_id w p).
Proof. unfold joins. apply _. Defined.

(** [w LEFT JOIN user_word_progress p ON ...]: one row per matching
    progress row, and one row with NULL counts when none matches. *)
Definition left_join (user_id : Z) (ps : list Progress) (w : WordRow)
    : list Row :=
  match filter (joins user_id w) ps with
  | [] => [ {| row_word := w; correct_c := None; incorrect_c := None |} ]
  | m => (λ p, {| row_word := w; correct_c := Some (p_correct p);
                  incorrect_c := Some (p_incorrect p) |}) <$> m
  end.

Definition select_candidates (t : Tables) (user_id : Z) : list Row :=
  w ← word_union t user_id; left_join user_id (user_word_progress t) w.

(** [INSERT INTO user_words (user_id, en_word, ru_word) VALUES (...)
     ON CONFLICT (user_id, en_word) DO NOTHING RETURNING id], with [id] the
    value drawn from the sequence. The result is the [RETURNING] row, if
    any, and the tables of the open transaction. *)
Definition insert_user_word (t : Tables) (id user_id : Z) (en ru : text)
    : DbError + (option Z * Tables) :=
  if bool_decide (Exists (λ u, uw_user u = user_id ∧ uw_en u = en)
                    (user_words t))
  then inr (None, t)
  else if bool_decide (Exists (λ u, uw_id u = id) (user_words t))
  then inl UniqueViolation
  else inr (Some id,
            {| common_words := common_words t;
               user_words := user_words t ++
                 [ {| uw_id := id; uw_user := user_id; uw_en := en;
                      uw_ru := ru |} ];
               user_word_progress := user_word_progress t |}).

(** psycopg2 turns a [str] parameter into a literal of the statement,
    encoded as UTF-8 (the client encoding taken here): a text with a
    surrogate code point raises [UnicodeEncodeError], one with a NUL
    raises [ValueError] (of which [UnicodeEncodeError] is a subclass),
    before anything is sent to the server. *)
Definition adaptable (s : text) : bool :=
  forallb (λ c, negb (c =? 0) && negb ((55296 <=? c) && (c <=? 57343)))%N s.

(** A text fits a column [VARCHAR(100)] when nothing but spaces stands
    after its first 100 characters; the server stores it without them. *)
Definition fits (s : text) : Prop := Forall (λ c, c = 32%N) (drop VARCHAR_LEN s).

Definition stored (s : text) : text := take VARCHAR_LEN s.

(** The values [(user_id, en_word, ru_word)] of the [INSERT], from the
    parameters to the row: refused by psycopg2, refused by the server for
    the column types [BIGINT] and [VARCHAR(100)], or stored. *)
Definition user_word_values (user_id : Z) (en ru : text)
    : Exn + (text * text) :=
  if negb (adaptable en && adaptable ru) then inl ValueError
  else if negb (in_bigint user_id)
  then inl (Psycopg2Error NumericValueOutOfRange)
  else if bool_decide (fits en ∧ fits ru) then inr (stored en, stored ru)
  else inl (Psycopg2Error StringDataRightTruncation).

Definition same_key (user_id : Z) (word_type : WordType) (word_ref_id : Z)
    (p : Progress) : Prop :=
  p_user p = user_id ∧ p_type p = word_type ∧ p_ref p = word_ref_id.

#[global] Instance same_key_dec u wt r p : Decision (same_key u wt r p).
Proof. unfold same_key. apply _. Defined.

(** [DO UPDATE SET correct_count = correct_count + 1, last_tested = ...]
    (or [incorrect_count]) on the conflicting row. *)
Definition bump (is_correct : bool) (now : Z) (p : Progress) : Progress :=
  {| p_user := p_user p; p_type := p_type p; p_ref := p_ref p;
     p_correct := if is_correct then p_correct p + 1 else p_correct p;
     p_incorrect := if is_correct then p_incorrect p else p_incorrect p + 1;
     p_last := Some now |}.

(** [INSERT INTO user_word_progress (...) VALUES (%s, %s, %s, 1, 0, %s)
     ON CONFLICT (user_id, word_type, word_ref_id) DO UPDATE SET ...]
    (or [0, 1]). A counter that leaves the range of INT is an error. *)
Definition upsert_progress (t : Tables) (user_id : Z) (word_type : WordType)
    (word_ref_id : Z) (is_correct : bool) (now : Z) : DbError + Tables :=
  let ps := user_word_progress t in
  let with_progress ps' :=
    {| common_words := common_words t; user_words := user_words t;
       user_word_progress := ps' |} in
  if negb (in_bigint user_id && in_bigint word_ref_id)
  then inl NumericValueOutOfRange
  else if bool_decide (Exists (same_key user_id word_type word_ref_id) ps)
  then
    if bool_decide
         (Exists (λ p, same_key user_id word_type word_ref_id p
                       ∧ INT_MAX < (if is_correct then p_correct p
                                    else p_incorrect p) + 1) ps)
    then inl NumericValueOutOfRange
    else inr (with_progress
                ((λ p, if decide (same_key user_id word_type word_ref_id p)
                       then bump is_correct now p else p) <$> ps))
  else inr (with_progress
              (ps ++ [ {| p_user := user_id; p_type := word_type;
                          p_ref := word_ref_id;
                          p_correct := if is_correct then 1 else 0;
                          p_incorrect := if is_correct then 0 else 1;
                          p_last := Some now |} ])).

End sql.

(** ** The connection: [cursor.execute], [commit], [rollback] *)

Module connection.

Definition check_alive (c : Connection) : Py unit :=
  match broken c with
  | Some e => raise (Psycopg2Error e)
  | None => mret ()
  end.

(** The result of a statement, or the error it raises. *)
Definition returning {A} (r : DbError + A) : Py A :=
  match r with
  | inl e => raise (Psycopg2Error e)
  | inr a => mret a
  end.

(** [nextval] of the sequence of [user_words.id]. *)
Definition nextval_user_words_id : Py Z :=
  db ← get_self;
  match conn db with
  | None => raise AttributeError
  | Some c =>
      _ ← set_self {| conn := Some {| tables := tables c;
                        user_words_id_seq := user_words_id_seq c + 1;
                        broken := broken c |} |};
      mret (user_words_id_seq c)
  end.

(** [self.conn.commit()]: the tables of the open transaction become the
    stored ones. *)
Definition commit (t : Tables) : Py unit :=
  db ← get_self;
  match conn db with
  | None => raise AttributeError
  | Some c =>
      _ ← check_alive c;
      set_self {| conn := Some {| tables := t;
                    user_words_id_seq := user_words_id_seq c;
                    broken := broken c |} |}
  end.

(** [self.conn.rollback()]: the stored tables stay as they are. *)
Definition rollback : Py unit :=
  db ← get_self;
  match conn db with
  | None => raise AttributeError
  | Some c => check_alive c
  end.

End connection.

(** ** [Database] methods of [db.py] *)

Import sql connection.

(** The dict [word_info]. *)
Record WordInfo := {
  en_word : text; ru_word : text; word_type : WordType; word_ref_id : Z }.

(** The dict [get_random_card] returns. *)
Record Card := {
  card_en_word : text;
  card_ru_word : text;
  card_options : list text;
  card_word_type : WordType;
  card_word_ref_id : Z }.

Definition word_info (row : Row) : WordInfo :=
  {| en_word := w_en (row_word row); ru_word := w_ru (row_word row);
     word_type := w_type (row_word row); word_ref_id := w_ref (row_word row) |}.

Definition row_weight (row : Row) : Z :=
  compute_weight (correct_c row) (incorrect_c row).

(** [get_random_card], steps 2 (end) and 3: the guards on [population]
    and [weights] and the weighted draw with its fallbacks. [None] stands
    for the early [return None]. *)
Definition select_word (user_id : Z) (population : list WordInfo)
    (weights : list Z) : Py (option WordInfo) :=
  match population with
  | [] => _ ← logger ERROR (PopulationEmpty user_id); mret None
  | _ =>
      if decide (length population ≠ length weights) then
        _ ← logger ERROR (MismatchFallback user_id);
        selected_word_info ← random.choice population;
        mret (Some selected_word_info)
      else
        selected_word_info ←
          try_except
            (_ ← logger DEBUG
                   (WeightsFor user_id (zip (en_word <$> population) weights));
             drawn ← random.choices population weights 1;
             match drawn !! 0%nat with
             | Some x => mret x
             | None => raise IndexError
             end)
            (λ e, match e with
                  | ValueError =>
                      Some (_ ← logger ERROR (WeightedChoiceError user_id e);
                            random.choice population)
                  | _ => None
                  end);
        mret (Some selected_word_info)
  end.

(** [get_random_card], steps 4 and 5. *)
Definition make_card (words_data_with_progress : list Row)
    (selected_word_info : WordInfo) : Py Card :=
  let target_en_word := en_word selected_word_info in
  let all_available_en_words :=
    (λ row, w_en (row_word row)) <$> words_data_with_progress in
  let other_en_words :=
    filter (λ w, w ≠ target_en_word) all_available_en_words in
  let num_options := (3 `min` length other_en_words)%nat in
  sampled ← random.sample other_en_words num_options;
  options ← random.shuffle (sampled ++ [target_en_word]);
  mret {| card_en_word := en_word selected_word_info;
          card_ru_word := ru_word selected_word_info;
          card_options := options;
          card_word_type := word_type selected_word_info;
          card_word_ref_id := word_ref_id selected_word_info |}.

(** [get_random_card] from the guards on [population] to the [return]:
    steps 3 to 5 on the lists built in step 2. *)
Definition draw_card (user_id : Z) (words_data_with_progress : list Row)
    (population : list WordInfo) (weights : list Z) : Py (option Card) :=
  selected ← select_word user_id population weights;
  match selected with
  | None => mret None
  | Some selected_word_info =>
      card ← make_card words_data_with_progress selected_word_info;
      mret (Some card)
  end.

Definition get_random_card (user_id : Z) : Py (option Card) :=
  db ← get_self;
  match conn db with
  | None => _ ← logger ERROR CannotGetCardNoConnection; mret None
  | Some c =>
      try_except
        (_ ← check_alive c;
         let words_data_with_progress := select_candidates (tables c) user_id in
         match words_data_with_progress with
         | [] => _ ← logger INFO (NoWordsFound user_id); mret None
         | _ =>
             let population := word_info <$> words_data_with_progress in
             let weights := row_weight <$> words_data_with_progress in
             draw_card user_id words_data_with_progress population weights
         end)
        (λ e, Some
           match e with
           | Psycopg2Error db_err =>
               _ ← logger ERROR (DatabaseErrorGettingCard user_id db_err);
               _ ← try_except rollback
                     (λ rb_err, Some (logger ERROR (RollbackError rb_err)));
               mret None
           | _ => _ ← logger ERROR (UnexpectedErrorGettingCard user_id e);
                  mret None
           end)
  end.

Definition add_user_word (user_id : Z) (en_word ru_word : text) : Py bool :=
  db ← get_self;
  match conn db with
  | None => mret false
  | Some c =>
      try_except
        (_ ← check_alive c;
         '(en_stored, ru_stored) ←
           match user_word_values user_id (lower en_word) (lower ru_word)
           with inl e => raise e | inr row => mret row end;
         id ← nextval_user_words_id;
         '(result, t') ← returning
            (insert_user_word (tables c) id user_id en_stored ru_stored);
         let inserted := bool_decide (is_Some result) in
         _ ← commit t';
         _ ← logger INFO (AddWord en_word user_id inserted);
         mret inserted)
        (λ e, Some (_ ← rollback;
                    _ ← logger ERROR (ErrorAddingWord en_word user_id e);
                    mret false))
  end.

Definition record_answer (user_id : Z) (word_type : WordType)
    (word_ref_id : Z) (is_correct : bool) : Py bool :=
  db ← get_self;
  match conn db with
  | None => mret false
  | Some c =>
      try_except
        (_ ← check_alive c;
         now_utc ← datetime_now;
         t' ← returning
            (upsert_progress (tables c) user_id word_type word_ref_id
               is_correct now_utc);
         _ ← commit t';
         _ ← logger DEBUG
               (RecordedAnswer user_id word_type word_ref_id is_correct);
         mret true)
        (λ e, Some (_ ← rollback;
                    _ ← logger ERROR
                          (ErrorRecordingAnswer user_id word_type word_ref_id e);
                    mret false))
  end.

(** ** Example stores *)

Module Examples.

Definition apple : text := of_string "apple".
Definition cat : text := of_string "cat".
Definition yabloko : text := [1103; 1073; 1083; 1086; 1082; 1086]%N.
Definition kot : text := [1082; 1086; 1090]%N.

Definition connection_of (t : Tables) : Connection :=
  {| tables := t; user_words_id_seq := 1; broken := None |}.

Definition live (t : Tables) : Database := {| conn := Some (connection_of t) |}.

(** [connect] failed. *)
Definition unavailable : Database := {| conn := None |}.

(** The server went away after [connect]. *)
Definition gone (t : Tables) : Database :=
  {| conn := Some {| tables := t; user_words_id_seq := 1;
                     broken := Some OperationalError |} |}.

Definition world_of (db : Database) (draws : nat → N) : World :=
  {| self := db; tape := draws; pos := 0; clock := 1700000000; log := [] |}.

Definition dog : text := of_string "Dog".
Definition sobaka : text := [1057; 1086; 1073; 1072; 1082; 1072]%N.


Definition no_words : Tables :=
  {| common_words := []; user_words := []; user_word_progress := [] |}.

(** The scenario of the specification: [apple] never attempted, [cat]
    answered correctly three times by user 7. *)
Definition apple_cat : Tables :=
  {| common_words := [ {| cw_id := 1; cw_en := apple; cw_ru := yabloko |};
                       {| cw_id := 2; cw_en := cat; cw_ru := kot |} ];
     user_words := [];
     user_word_progress :=
       [ {| p_user := 7; p_type := common; p_ref := 2; p_correct := 3;
            p_incorrect := 0; p_last := Some 1690000000 |} ] |}.

(** User 7 has added [apple], which is a common word as well. *)
Definition apple_twice : Tables :=
  {| common_words := common_words apple_cat;
     user_words := [ {| uw_id := 1; uw_user := 7; uw_en := apple;
                        uw_ru := yabloko |} ];
     user_word_progress := [] |}.

End Examples.

(** ** Vocabulary of the statements *)

(** [m] returns normally from [w], with a result and a world in [P]. *)
Definition returns {A} (m : Py A) (w : World) (P : A → World → Prop) : Prop :=
  ∃ a w', m w = (Ok a, w') ∧ P a w'.

(** Sum of a list of integers. *)
Definition Zsum (l : list Z) : Z := foldr Z.add 0 l.

(** The value the next call of [random()] returns in [w]. *)
Definition uniform (w : World) : Q :=
  (Z.of_N (tape w (pos w) `mod` 9007199254740992)%N # 9007199254740992)%Q.


(** The identity of a word: [(word_type, word_ref_id)]. *)
Definition identity (r : Row) : WordType * Z :=
  (w_type (row_word r), w_ref (row_word r)).

(** The English texts of the candidate rows. *)
Definition en_texts (rows : list Row) : list text :=
  (λ row, w_en (row_word row)) <$> rows.

(** [x] lies in the cumulative-weight interval of position [i]:
    [[w_0 + ... + w_(i-1), w_0 + ... + w_i)]. *)
Definition in_interval (weights : list Z) (x : Q) (i : nat) : Prop :=
  ∃ wi, weights !! i = Some wi
        ∧ (inject_Z (Zsum (take i weights)) <= x)%Q
        ∧ (x < inject_Z (Zsum (take i weights) + wi))%Q.

(** The stored tables, when there is a connection. *)
Definition db_tables (w : World) : option Tables := tables <$> conn (self w).

(** The progress row of a key, and what it holds. An absent row counts as
    no answers. *)
Definition lookup_progress (t : Tables) (user_id : Z) (word_type : WordType)
    (word_ref_id : Z) : option Progress :=
  head (filter (sql.same_key user_id word_type word_ref_id)
          (user_word_progress t)).

Definition correct_count (t : Tables) (user_id : Z) (word_type : WordType)
    (word_ref_id : Z) : Z :=
  default 0 (p_correct <$> lookup_progress t user_id word_type word_ref_id).

Definition incorrect_count (t : Tables) (user_id : Z) (word_type : WordType)
    (word_ref_id : Z) : Z :=
  default 0 (p_incorrect <$> lookup_progress t user_id word_type word_ref_id).

Definition last_tested (t : Tables) (user_id : Z) (word_type : WordType)
    (word_ref_id : Z) : option Z :=
  lookup_progress t user_id word_type word_ref_id ≫= p_last.

(** A user word with this owner and English text is stored. *)
Definition has_user_word (t : Tables) (user_id : Z) (en : text) : Prop :=
  Exists (λ u, uw_user u = user_id ∧ uw_en u = en) (user_words t).

(** [m] writes nothing to the database: the stored tables and the
    sequence of ids are afterwards as before, and the log records written
    before are kept. Raw draws may be used. *)
Definition writes_nothing {A} (m : Py A) : Prop :=
  ∀ w, self (m w).2 = self w ∧ log w `prefix_of` log (m w).2.

(** A code point that [str.lower] leaves as it is, wherever it stands. *)
Definition stable (d : N) : Prop := d ≠ 931%N ∧ lower_full d = [d].

#[global] Instance stable_dec d : Decision (stable d).
Proof. unfold stable. apply _. Defined.

(** A code point whose case folding is its lower-case form, wherever it
    stands. *)
Definition plain_case (c : N) : bool :=
  negb (c =? 931)%N && bool_decide (GradeSpec.casefold_full c = lower_full c).

(** The English text of every stored user word is in lower case, as
    [add_user_word] writes it. *)
Definition lowercase_stored (t : Tables) : Prop :=
  Forall (λ u, lower (uw_en u) = uw_en u) (user_words t).

(** ** The other methods of [Database]

    [delete_user_word], [get_user_stats], [count_total_words],
    [get_user_input_mode] and [set_user_input_mode]. They run in [Db]: a
    [World] together with the table [user_preferences] and the log
    records of these methods. *)

Record Preference := { pref_user : Z; input_mode : text }.

Inductive DbLogMsg :=
| WordNotFoundToDelete (en_word : text) (user_id : Z)
| DeletedWord (en_word : text) (word_id : Z) (progress_deleted_count : Z)
    (user_id : Z) (success : bool)
| ErrorDeletingWord (en_word : text) (user_id : Z) (e : Exn)
| ErrorGettingStats (user_id : Z) (e : Exn)
| TotalWordsCount (user_id : Z) (count : Z)
| ErrorCountingWords (user_id : Z) (e : Exn)
| CannotGetInputMode
| ErrorGettingInputMode (user_id : Z) (e : Exn)
| SetInputMode (mode : text) (user_id : Z)
| ErrorSettingInputMode (user_id : Z) (e : Exn).

Record Env := {
  world : World;
  user_preferences : list Preference;
  db_log : list (Level * DbLogMsg) }.

Definition Db (A : Type) : Type := Env → Result A * Env.

#[global] Instance Db_ret : MRet Db := λ A a s, (Ok a, s).
#[global] Instance Db_bind : MBind Db := λ A B f m s,
  match m s with
  | (Ok a, s') => f a s'
  | (Raise e, s') => (Raise e, s')
  end.

(** A [Py] computation, run on the [World] of the environment. *)
Definition lift {A} (m : Py A) : Db A := λ s,
  let '(r, w') := m (world s) in
  (r, {| world := w'; user_preferences := user_preferences s;
         db_log := db_log s |}).

Definition db_logger (lvl : Level) (msg : DbLogMsg) : Db unit := λ s,
  (Ok (), {| world := world s; user_preferences := user_preferences s;
             db_log := db_log s ++ [(lvl, msg)] |}).

(** [try: m  except Exception as e: h e]. *)
Definition db_try {A} (m : Db A) (h : Exn → Db A) : Db A := λ s,
  match m s with
  | (Ok a, s') => (Ok a, s')
  | (Raise e, s') => h e s'
  end.

Definition get_preferences : Db (list Preference) := λ s,
  (Ok (user_preferences s), s).

Definition set_preferences (prefs : list Preference) : Db unit := λ s,
  (Ok (), {| world := world s; user_preferences := prefs;
             db_log := db_log s |}).

(** [self.conn.commit()] of a transaction that wrote [user_preferences]. *)
Definition commit_preferences (prefs : list Preference) : Db unit :=
  db ← lift get_self;
  match conn db with
  | None => lift (raise AttributeError)
  | Some c =>
      _ ← lift (connection.check_alive c);
      set_preferences prefs
  end.

Module sql2.

(** [SELECT id FROM user_words WHERE user_id = %s AND en_word = %s],
    [fetchone]. *)
Definition select_user_word_id (t : Tables) (user_id : Z) (en : text)
    : option Z :=
  uw_id <$> head (filter (λ u, uw_user u = user_id ∧ uw_en u = en)
                    (user_words t)).

(** [DELETE FROM user_word_progress WHERE user_id = %s AND
     word_type = 'user' AND word_ref_id = %s], with its [rowcount]. *)
Definition delete_progress (t : Tables) (user_id word_id : Z) : Z * Tables :=
  (Z.of_nat (length (filter (sql.same_key user_id user word_id)
                       (user_word_progress t))),
   {| common_words := common_words t; user_words := user_words t;
      user_word_progress :=
        filter (λ p, ¬ sql.same_key user_id user word_id p)
          (user_word_progress t) |}).

(** [DELETE FROM user_words WHERE id = %s], with its [rowcount]. *)
Definition delete_user_word_row (t : Tables) (word_id : Z) : Z * Tables :=
  (Z.of_nat (length (filter (λ u, uw_id u = word_id) (user_words t))),
   {| common_words := common_words t;
      user_words := filter (λ u, uw_id u ≠ word_id) (user_words t);
      user_word_progress := user_word_progress t |}).

(** [SELECT COALESCE(SUM(correct_count), 0),
     COALESCE(SUM(incorrect_count), 0), COUNT( * )
     FROM user_word_progress WHERE user_id = %s]. *)
Definition select_stats (t : Tables) (user_id : Z) : Z * Z * Z :=
  let ps := filter (λ p, p_user p = user_id) (user_word_progress t) in
  (Zsum (p_correct <$> ps), Zsum (p_incorrect <$> ps),
   Z.of_nat (length ps)).

(** [SELECT COUNT(DISTINCT en_word) FROM (SELECT en_word FROM common_words
     UNION SELECT en_word FROM user_words WHERE user_id = %s)]. *)
Definition count_distinct_words (t : Tables) (user_id : Z) : Z :=
  Z.of_nat
    (length
       (remove_dups
          (remove_dups
             ((cw_en <$> common_words t)
              ++ (uw_en <$> filter (λ u, uw_user u = user_id)
                              (user_words t)))))).

(** [SELECT input_mode FROM user_preferences WHERE user_id = %s],
    [fetchone]. *)
Definition select_input_mode (prefs : list Preference) (user_id : Z)
    : option text :=
  input_mode <$> head (filter (λ r, pref_user r = user_id) prefs).

(** [INSERT INTO user_preferences (user_id, input_mode) VALUES (%s, %s)
     ON CONFLICT (user_id) DO UPDATE SET input_mode = EXCLUDED.input_mode],
    for a [mode] that passes the column's CHECK (the method lets no other
    through). *)
Definition upsert_input_mode (prefs : list Preference) (user_id : Z)
    (mode : text) : DbError + list Preference :=
  if negb (in_bigint user_id) then inl NumericValueOutOfRange
  else if bool_decide (Exists (λ r, pref_user r = user_id) prefs)
  then inr ((λ r, if decide (pref_user r = user_id)
                  then {| pref_user := pref_user r; input_mode := mode |}
                  else r) <$> prefs)
  else inr (prefs ++ [ {| pref_user := user_id; input_mode := mode |} ]).

End sql2.

Definition buttons : text := of_string "buttons".
Definition keyboard : text := of_string "keyboard".

Definition delete_user_word (user_id : Z) (en_word : text) : Db bool :=
  db ← lift get_self;
  match conn db with
  | None => mret false
  | Some c =>
      let en_word_lower := lower en_word in
      db_try
        (_ ← lift (connection.check_alive c);
         _ ← lift (if sql.adaptable en_word_lower then mret ()
                   else raise ValueError);
         match sql2.select_user_word_id (tables c) user_id en_word_lower with
         | None =>
             _ ← db_logger WARNING (WordNotFoundToDelete en_word user_id);
             mret false
         | Some word_id_to_delete =>
             let '(progress_deleted_count, t1) :=
               sql2.delete_progress (tables c) user_id word_id_to_delete in
             let '(deleted_count, t2) :=
               sql2.delete_user_word_row t1 word_id_to_delete in
             _ ← lift (connection.commit t2);
             _ ← db_logger INFO
                   (DeletedWord en_word word_id_to_delete
                      progress_deleted_count user_id
                      (bool_decide (0 < deleted_count)));
             mret (bool_decide (0 < deleted_count))
         end)
        (λ e, _ ← lift connection.rollback;
              _ ← db_logger ERROR (ErrorDeletingWord en_word user_id e);
              mret false)
  end.

(** The dict [get_user_stats] returns. *)
Record Stats := {
  total_correct : Z; total_incorrect : Z; words_practiced : Z }.

Definition no_stats : Stats :=
  {| total_correct := 0; total_incorrect := 0; words_practiced := 0 |}.

Definition get_user_stats (user_id : Z) : Db Stats :=
  db ← lift get_self;
  match conn db with
  | None => mret no_stats
  | Some c =>
      db_try
        (_ ← lift (connection.check_alive c);
         let '(s0, s1, s2) := sql2.select_stats (tables c) user_id in
         mret {| total_correct := s0; total_incorrect := s1;
                 words_practiced := s2 |})
        (λ e, _ ← db_logger ERROR (ErrorGettingStats user_id e);
              mret no_stats)
  end.

Definition count_total_words (user_id : Z) : Db Z :=
  db ← lift get_self;
  match conn db with
  | None => mret 0
  | Some c =>
      db_try
        (_ ← lift (connection.check_alive c);
         let count := sql2.count_distinct_words (tables c) user_id in
         _ ← db_logger DEBUG (TotalWordsCount user_id count);
         mret count)
        (λ e, _ ← db_logger ERROR (ErrorCountingWords user_id e);
              mret 0)
  end.

Definition get_user_input_mode (user_id : Z) : Db text :=
  db ← lift get_self;
  match conn db with
  | None => _ ← db_logger ERROR CannotGetInputMode; mret buttons
  | Some c =>
      db_try
        (_ ← lift (connection.check_alive c);
         prefs ← get_preferences;
         match sql2.select_input_mode prefs user_id with
         | Some mode => mret mode
         | None => mret buttons
         end)
        (λ e, _ ← db_logger ERROR (ErrorGettingInputMode user_id e);
              mret buttons)
  end.

Definition set_user_input_mode (user_id : Z) (mode : text) : Db bool :=
  db ← lift get_self;
  match conn db with
  | None => mret false
  | Some c =>
      if bool_decide (mode ≠ buttons ∧ mode ≠ keyboard) then mret false
      else
        db_try
          (_ ← lift (connection.check_alive c);
           prefs ← get_preferences;
           prefs' ← lift (connection.returning
                            (sql2.upsert_input_mode prefs user_id mode));
           _ ← commit_preferences prefs';
           _ ← db_logger INFO (SetInputMode mode user_id);
           mret true)
          (λ e, _ ← lift connection.rollback;
                _ ← db_logger ERROR (ErrorSettingInputMode user_id e);
                mret false)
  end.

(** An environment around a world, with no preferences stored. *)
Definition env_of (w : World) : Env :=
  {| world := w; user_preferences := []; db_log := [] |}.

Module MoreExamples.

(** [apple_cat] after user 7 added [dog] and answered it once. *)
Definition with_dog : Tables :=
  {| common_words := common_words Examples.apple_cat;
     user_words := [ {| uw_id := 1; uw_user := 7; uw_en := of_string "dog";
                        uw_ru := lower Examples.sobaka |} ];
     user_word_progress :=
       user_word_progress Examples.apple_cat
       ++ [ {| p_user := 7; p_type := user; p_ref := 1; p_correct := 0;
               p_incorrect := 1; p_last := Some 1695000000 |} ] |}.

Definition env (t : Tables) : Env :=
  env_of (Examples.world_of (Examples.live t) (λ _, 0%N)).

End MoreExamples.

(** ** [bot.py]: the add dialog and the option keyboard *)

(** [text.split('-', 1)] for a text with a hyphen: what stands before the
    first hyphen and what stands after it. [None]: ['-' not in text]. *)
Fixpoint split_hyphen (s : text) : option (text * text) :=
  match s with
  | [] => None
  | c :: s' =>
      if (c =? 45)%N then Some ([], s')
      else match split_hyphen s' with
           | Some (before, after) => Some (c :: before, after)
           | None => None
           end
  end.

(** The two [ValueError]s of [process_word_addition]. *)
Inductive FormatError := MissingSeparator | EmptyWord.

(** [process_word_addition], from [message.text] to the two words:
    [text = message.text.strip()], the test ['-' not in text],
    [parts = text.split('-', 1)], the two [strip]s and the test
    [not en_word or not ru_word]. *)
Definition parse_word_addition (message_text : text)
    : FormatError + (text * text) :=
  let text := strip message_text in
  match split_hyphen text with
  | None => inl MissingSeparator
  | Some (part0, part1) =>
      let en_word := strip part0 in
      let ru_word := strip part1 in
      if bool_decide (en_word = [] ∨ ru_word = []) then inl EmptyWord
      else inr (en_word, ru_word)
  end.

(** What [process_word_addition] does to the store:
    [added = db.add_user_word(user_id, en_word, ru_word)] on the words
    parsed. The replies sent to the chat are not part of the model. *)
Definition process_word_addition_store (user_id : Z) (message_text : text)
    : Py (FormatError + bool) :=
  match parse_word_addition message_text with
  | inl e => mret (inl e)
  | inr (en_word, ru_word) =>
      added ← add_user_word user_id en_word ru_word;
      mret (inr added)
  end.

(** [handle_cards]: the rows of option buttons,
    [[option_buttons[i:i + 2] for i in range(0, len(option_buttons), 2)]]. *)
Definition keyboard_rows {A} (option_buttons : list A) : list (list A) :=
  (λ i, take 2 (drop i option_buttons))
    <$> ((λ k, 2 * k)%nat <$> seq 0 ((length option_buttons + 1) / 2)).

(** * Properties *)

(** ** Weights *)


(** C1: for a candidate row whose counts (NULL read as 0) are not negative,
    the weight is 10 when both counts are 0, [max 1 (5 + 2*incorrect -
    correct)] when there is a mistake, and [max 1 (5 - correct)] when there
    are only correct answers. *)
Theorem row_weight_tiers (row : Row) :
  let correct := default 0 (correct_c row) in
  let incorrect := default 0 (incorrect_c row) in
  0 ≤ correct → 0 ≤ incorrect →
  (correct = 0 ∧ incorrect = 0 → row_weight row = 10)
  ∧ (0 < incorrect → row_weight row = Z.max 1 (5 + 2 * incorrect - correct))
  ∧ (0 < correct ∧ incorrect = 0 → row_weight row = Z.max 1 (5 - correct)).
Proof.
  unfold row_weight, compute_weight.
  destruct (correct_c row) as [c|], (incorrect_c row) as [i|]; simpl;
    intros Hc Hi; repeat split; intros;
    repeat match goal with
           | |- context [?a =? ?b] => destruct (Z.eqb_spec a b)
           | |- context [?a <? ?b] => destruct (Z.ltb_spec a b)
           end; simpl; lia.
Qed.

Lemma row_weight_tiers_witness :
  row_weight {| sql.row_word := {| sql.w_en := Examples.cat;
                                   sql.w_ru := Examples.kot;
                                   sql.w_type := common; sql.w_ref := 2 |};
                sql.correct_c := Some 1; sql.incorrect_c := Some 2 |}
  = Z.max 1 (5 + 2 * 2 - 1).
Proof.
  apply (row_weight_tiers
           {| sql.row_word := {| sql.w_en := Examples.cat;
                                 sql.w_ru := Examples.kot;
                                 sql.w_type := common; sql.w_ref := 2 |};
              sql.correct_c := Some 1; sql.incorrect_c := Some 2 |});
    simpl; lia.
Defined.

(** ** Grading *)

Section strip_facts.

Implicit Types s t pre post : text.

Lemma lstrip_all_space s : all_space s → lstrip s = [].
Proof. induction 1 as [|c s Hc _ IH]; simpl; [done|]. by rewrite Hc. Qed.

Lemma lstrip_app_space pre s : all_space pre → lstrip (pre ++ s) = lstrip s.
Proof. induction 1 as [|c pre Hc _ IH]; simpl; [done|]. by rewrite Hc. Qed.

Lemma lstrip_head_nonspace s c :
  head s = Some c → isspace c = false → lstrip s = s.
Proof. destruct s; simpl; [done|]. intros [= ->] ->. done. Qed.

Lemma lstrip_decompose s :
  ∃ pre, s = pre ++ lstrip s ∧ all_space pre
         ∧ ∀ c, head (lstrip s) = Some c → isspace c = false.
Proof.
  induction s as [|c s (pre & Heq & Hpre & Hhd)]; simpl.
  - exists []. repeat split; [constructor | done].
  - destruct (isspace c) eqn:Hc.
    + exists (c :: pre). simpl. rewrite <-Heq.
      repeat split; [by constructor | done].
    + exists []. repeat split; [constructor |].
      simpl. by intros ? [= <-].
Qed.

Lemma head_reverse s : head (reverse s) = last s.
Proof.
  induction s as [|c s IH] using rev_ind; [done|].
  by rewrite reverse_snoc, last_snoc.
Qed.

Lemma last_reverse s : last (reverse s) = head s.
Proof. by rewrite <-head_reverse, reverse_involutive. Qed.

Lemma rstrip_decompose s :
  ∃ post, s = rstrip s ++ post ∧ all_space post
          ∧ ∀ c, last (rstrip s) = Some c → isspace c = false.
Proof.
  unfold rstrip.
  destruct (lstrip_decompose (reverse s)) as (pre & Heq & Hpre & Hhd).
  exists (reverse pre). repeat split.
  - rewrite <-reverse_app, <-Heq. by rewrite reverse_involutive.
  - unfold all_space. by rewrite Forall_reverse.
  - intros c. rewrite last_reverse. apply Hhd.
Qed.

Lemma rstrip_head s c :
  head s = Some c → isspace c = false → head (rstrip s) = Some c.
Proof.
  intros Hhd Hc.
  destruct (rstrip_decompose s) as (post & Heq & Hpost & _).
  destruct (rstrip s) as [|d r] eqn:Hr.
  - simpl in Heq. subst post. destruct s as [|c' s]; [done|].
    simpl in Hhd. injection Hhd as ->.
    apply Forall_cons in Hpost as [Hsp _]. congruence.
  - rewrite Heq in Hhd. simpl in *. done.
Qed.

(** [strip] returns the trimmed text, and nothing else is one. *)
Lemma strip_trimmed s : GradeSpec.trimmed s (strip s).
Proof.
  unfold strip.
  destruct (lstrip_decompose s) as (pre & Heq & Hpre & Hhd).
  destruct (rstrip_decompose (lstrip s)) as (post & Heq' & Hpost & Hlast).
  exists pre, post. repeat split; [| done | done | | done].
  - by rewrite <-Heq', <-Heq.
  - intros c Hc. destruct (lstrip s) as [|d r] eqn:Hl.
    + by cbv in Hc.
    + destruct (isspace d) eqn:Hd.
      * rewrite (Hhd d eq_refl) in Hd. done.
      * rewrite (rstrip_head (d :: r) d eq_refl Hd) in Hc.
        by injection Hc as <-.
Qed.

Lemma trimmed_unique s t : GradeSpec.trimmed s t → strip s = t.
Proof.
  intros (pre & post & -> & Hpre & Hpost & Hhd & Hlast).
  unfold strip. rewrite lstrip_app_space by done.
  destruct t as [|c t'] eqn:Ht.
  - simpl. rewrite lstrip_all_space by done. done.
  - rewrite <-Ht in *.
    rewrite (lstrip_head_nonspace (t ++ post) c);
      [| by rewrite Ht | apply Hhd; by rewrite Ht].
    unfold rstrip. rewrite reverse_app.
    rewrite lstrip_app_space by (unfold all_space; by rewrite Forall_reverse).
    destruct (last t) as [d|] eqn:Hd.
    + rewrite (lstrip_head_nonspace (reverse t) d);
        [by rewrite reverse_involutive | by rewrite head_reverse | by apply Hlast].
    + apply last_None in Hd. congruence.
Qed.

End strip_facts.

(** ** Facts about [str.lower] and case folding *)

Lemma assoc_Some {B} (c : N) (table : list (N * B)) v :
  assoc c table = Some v → (c, v) ∈ table.
Proof.
  induction table as [|[k u] table IH]; simpl; [done|].
  destruct (N.eqb_spec k c) as [->|_].
  - intros [= ->]. by left.
  - intros H. right. by apply IH.
Qed.

(** What [lower_full] returns, read off the table. *)
Lemma lower_full_cases (c : N) :
  lower_full c = [c]
  ∨ (c = 304%N ∧ lower_full c = [105; 775]%N)
  ∨ ∃ d, (c, d) ∈ to_lower ∧ lower_full c = [d].
Proof.
  unfold lower_full. destruct (N.eqb_spec c 304) as [->|_]; [by right; left|].
  destruct (assoc c to_lower) as [d|] eqn:Hd; [|by left].
  right. right. exists d. split; [by apply assoc_Some | done].
Qed.

Lemma to_lower_targets_stable :
  Forall (λ p : N * N, stable p.2 ∧ isspace p.1 = false ∧ isspace p.2 = false
                       ∧ GradeSpec.casefold_full p.2 = GradeSpec.casefold_full p.1)
    to_lower.
Proof. compute_done. Qed.

Lemma dotted_i_facts :
  Forall stable [105; 775]%N ∧ isspace 304 = false
  ∧ Forall (λ d, isspace d = false) [105; 775]%N
  ∧ GradeSpec.casefold [105; 775]%N = GradeSpec.casefold_full 304.
Proof. repeat split; compute_done. Qed.

Lemma sigma_facts :
  stable 962 ∧ stable 963 ∧ isspace 931 = false ∧ isspace 962 = false
  ∧ isspace 963 = false
  ∧ GradeSpec.casefold_full 962 = GradeSpec.casefold_full 931
  ∧ GradeSpec.casefold_full 963 = GradeSpec.casefold_full 931.
Proof. repeat split; compute_done. Qed.

Lemma casefold_singleton (d : N) :
  GradeSpec.casefold [d] = GradeSpec.casefold_full d.
Proof. unfold GradeSpec.casefold. simpl. apply app_nil_r. Qed.


(** What [str.lower] puts in the place of one code point: code points
    that are stable, that are whitespace exactly when the original is,
    and that fold like the original. *)
Lemma lower_ucs4_facts (before after : text) (c : N) :
  lower_ucs4 before after c ≠ []
  ∧ Forall (λ d, stable d ∧ isspace d = isspace c) (lower_ucs4 before after c)
  ∧ GradeSpec.casefold (lower_ucs4 before after c) = GradeSpec.casefold_full c.
Proof.
  destruct sigma_facts as (Hs2 & Hs3 & Hw1 & Hw2 & Hw3 & Hf2 & Hf3).
  unfold lower_ucs4. destruct (N.eqb_spec c 931) as [->|Hc].
  { unfold handle_capital_sigma.
    destruct (match first_not_ignorable before with
              | Some c => _ | None => false end);
      (split; [discriminate|]); rewrite casefold_singleton, Forall_singleton.
    - split; [split; [exact Hs2 | by rewrite Hw1, Hw2] | exact Hf2].
    - split; [split; [exact Hs3 | by rewrite Hw1, Hw3] | exact Hf3]. }
  destruct (lower_full_cases c) as [Heq|[[-> Heq]|(d & Hd & Heq)]];
    rewrite Heq.
  - split; [discriminate|]. rewrite casefold_singleton, Forall_singleton.
    split; [|reflexivity]. split; [|reflexivity]. split; assumption.
  - destruct dotted_i_facts as (Hst & Hw & Hws & Hf).
    split; [discriminate|]. split; [|exact Hf].
    apply Forall_forall. intros d Hd. split.
    + eapply Forall_forall in Hst; [exact Hst | exact Hd].
    + eapply Forall_forall in Hws; [|exact Hd]. simpl in Hws.
      rewrite Hw. exact Hws.
  - pose proof to_lower_targets_stable as Ht.
    eapply Forall_forall in Ht; [|exact Hd]. cbn [fst snd] in Ht.
    destruct Ht as (Hst & Hw1' & Hw2' & Hf).
    split; [discriminate|]. rewrite casefold_singleton, Forall_singleton.
    split; [|exact Hf]. split; [exact Hst|]. by rewrite Hw1', Hw2'.
Qed.

Lemma do_lower_stable (before s : text) : Forall stable (do_lower before s).
Proof.
  revert before. induction s as [|c s IH]; intros before; simpl; [done|].
  apply Forall_app. split; [|apply IH].
  destruct (lower_ucs4_facts before s c) as (_ & Hall & _).
  eapply Forall_impl; [exact Hall|]. by intros d [? _].
Qed.

Lemma do_lower_of_stable (before s : text) :
  Forall stable s → do_lower before s = s.
Proof.
  intros Hs. revert before.
  induction Hs as [|c s [Hc Hfull] _ IH]; intros before; simpl; [done|].
  unfold lower_ucs4. destruct (N.eqb_spec c 931) as [->|_]; [done|].
  by rewrite Hfull, IH.
Qed.

Lemma lower_stable (s : text) : Forall stable (lower s).
Proof. apply do_lower_stable. Qed.

Lemma lower_of_stable (s : text) : Forall stable s → lower s = s.
Proof. apply do_lower_of_stable. Qed.

Lemma lower_idempotent (s : text) : lower (lower s) = lower s.
Proof. apply lower_of_stable, lower_stable. Qed.


(** Whether a text starts, and ends, with whitespace is not changed by
    lower-casing. *)
Lemma head_lower (s : text) : isspace <$> head (lower s) = isspace <$> head s.
Proof.
  unfold lower. destruct s as [|c s]; simpl; [done|].
  destruct (lower_ucs4_facts [] s c) as (Hne & Hall & _).
  destruct (lower_ucs4 [] s c) as [|d l]; [done|]. simpl.
  apply Forall_cons in Hall as [[_ ->] _]. done.
Qed.

Lemma last_lower (s : text) : isspace <$> last (lower s) = isspace <$> last s.
Proof.
  unfold lower. generalize (@nil N) as before.
  induction s as [|c s IH]; intros before; simpl; [done|].
  destruct (lower_ucs4_facts before s c) as (Hne & Hall & _).
  destruct s as [|c' s].
  - simpl. rewrite app_nil_r.
    destruct (lower_ucs4 before [] c) as [|d l] using rev_ind; [done|].
    rewrite last_snoc. simpl.
    apply Forall_app in Hall as [_ [_ ->]%Forall_singleton]. done.
  - specialize (IH (c :: before)).
    change (last (c :: c' :: s)) with (last (c' :: s)). rewrite <-IH.
    assert (do_lower (c :: before) (c' :: s) ≠ []) as Hrest.
    { simpl. destruct (lower_ucs4_facts (c :: before) s c') as (Hne' & _).
      by destruct (lower_ucs4 (c :: before) s c'). }
    destruct (do_lower (c :: before) (c' :: s)) as [|d l] using rev_ind;
      [done|].
    by rewrite app_assoc, !last_snoc.
Qed.

(** A text has no whitespace at either end exactly when [strip] leaves it
    as it is. *)
Lemma strip_fixed_iff (s : text) :
  strip s = s
  ↔ (∀ c, head s = Some c → isspace c = false)
    ∧ (∀ c, last s = Some c → isspace c = false).
Proof.
  split.
  - intros Hs. destruct (strip_trimmed s) as (_ & _ & _ & _ & _ & Hh & Hl).
    by rewrite Hs in Hh, Hl.
  - intros [Hh Hl]. apply trimmed_unique. exists [], [].
    rewrite app_nil_r. repeat split; try done; constructor.
Qed.

Lemma ends_of_option (o o' : option N) :
  isspace <$> o = isspace <$> o' →
  (∀ c, o' = Some c → isspace c = false) → ∀ c, o = Some c → isspace c = false.
Proof.
  destruct o as [d|], o' as [d'|]; simpl; try done.
  intros [= Heq] H c [= <-]. rewrite Heq. by apply H.
Qed.

(** Texts with the same lower-case form are trimmed together. *)
Lemma strip_fixed_lower_eq (a b : text) :
  lower a = lower b → strip a = a → strip b = b.
Proof.
  rewrite !strip_fixed_iff. intros Heq [Hh Hl]. split.
  - apply (ends_of_option _ (head a)); [|done].
    by rewrite <-(head_lower a), <-(head_lower b), Heq.
  - apply (ends_of_option _ (last a)); [|done].
    by rewrite <-(last_lower a), <-(last_lower b), Heq.
Qed.

Lemma strip_lower (s : text) : strip s = s → strip (lower s) = lower s.
Proof.
  apply strip_fixed_lower_eq. by rewrite lower_idempotent.
Qed.

Lemma strip_idempotent (s : text) : strip (strip s) = strip s.
Proof.
  destruct (strip_trimmed s) as (_ & _ & _ & _ & _ & Hh & Hl).
  by apply strip_fixed_iff.
Qed.


(** Basic Latin, Latin-1 without the micro sign and the sharp s, and
    Cyrillic are made of such code points. *)
Lemma plain_case_alphabets (c : N) :
  (c < 128 ∨ (c < 256 ∧ c ≠ 181 ∧ c ≠ 223) ∨ 1024 ≤ c < 1328)%N →
  plain_case c = true.
Proof.
  intros Hc.
  assert (Forall (λ n, (n < 128 ∨ (n < 256 ∧ n ≠ 181 ∧ n ≠ 223)
                        ∨ 1024 ≤ n < 1328)%N → plain_case n = true)
            (N.of_nat <$> seq 0 1328)) as Hall by compute_done.
  eapply Forall_forall in Hall; [by apply Hall|].
  apply list_elem_of_fmap. exists (N.to_nat c).
  split; [by rewrite N2Nat.id|]. apply elem_of_seq. lia.
Qed.



(** C8 as stated fails outside such alphabets, for a text written in
    capitals: [STRASSE] is a case-insensitive match of the German word
    with a sharp s, which a user can add, and is graded wrong, because
    [str.lower] leaves the sharp s as it is; and a Greek text that ends in
    the small sigma U+03C3 is not matched by its capitals, whose last
    letter [str.lower] turns into the final sigma U+03C2. *)
Lemma grade_counterexample :
  (GradeSpec.trimmed (of_string "STRASSE") (of_string "STRASSE")
   ∧ GradeSpec.caseless_match (of_string "STRASSE")
       [115; 116; 114; 97; 223; 101]%N
   ∧ grade [115; 116; 114; 97; 223; 101]%N (of_string "STRASSE") = false)
  ∧ (GradeSpec.trimmed [931; 927; 934; 927; 931]%N
       [931; 927; 934; 927; 931]%N
     ∧ GradeSpec.caseless_match [931; 927; 934; 927; 931]%N
         [963; 959; 966; 959; 963]%N
     ∧ grade [963; 959; 966; 959; 963]%N [931; 927; 934; 927; 931]%N
       = false).
Proof.
  assert (∀ t c d, head t = Some c → last t = Some d →
            isspace c = false → isspace d = false →
            GradeSpec.trimmed t t) as Htrim.
  { intros t c d Hh Hl Hc Hd. exists [], []. split; [by rewrite app_nil_r|].
    split; [constructor|]. split; [constructor|].
    split; intros e He; congruence. }
  split; (split; [eapply Htrim; by vm_compute|]; split; by vm_compute).
Qed.

(** ** Running [Py] computations *)

Lemma bind_ok {A B} (m : Py A) (f : A → Py B) w a w' :
  m w = (Ok a, w') → (m ≫= f) w = f a w'.
Proof. unfold mbind, Py_bind. by intros ->. Qed.

Lemma bind_raise {A B} (m : Py A) (f : A → Py B) w e w' :
  m w = (Raise e, w') → (m ≫= f) w = (Raise e, w').
Proof. unfold mbind, Py_bind. by intros ->. Qed.

Lemma try_except_ok {A} (m : Py A) h w a w' :
  m w = (Ok a, w') → try_except m h w = (Ok a, w').
Proof. unfold try_except. by intros ->. Qed.

Lemma returns_bind {A B} (m : Py A) (f : A → Py B) w P Q :
  returns m w P → (∀ a w', P a w' → returns (f a) w' Q) →
  returns (m ≫= f) w Q.
Proof.
  intros (a & w' & Hm & HP) Hf. unfold returns.
  rewrite (bind_ok _ _ _ _ _ Hm). by apply Hf.
Qed.

Lemma returns_ret {A} (a : A) w (P : A → World → Prop) :
  P a w → returns (mret a) w P.
Proof. intros. by exists a, w. Qed.

Lemma returns_weaken {A} (m : Py A) w (P Q : A → World → Prop) :
  returns m w P → (∀ a w', P a w' → Q a w') → returns m w Q.
Proof. intros (a & w' & Hm & HP) HPQ. exists a, w'. auto. Qed.

Lemma randbelow_returns n w :
  (0 < n)%nat → returns (random.randbelow n) w (λ j _, (j < n)%nat).
Proof.
  intros Hn. eexists _, _. split; [reflexivity|]. simpl.
  pose proof (N.mod_upper_bound (tape w (pos w)) (N.of_nat n)) as Hm. lia.
Qed.

Lemma choice_returns {A} (seq : list A) w :
  seq ≠ [] → returns (random.choice seq) w (λ x _, x ∈ seq).
Proof.
  intros Hne. unfold random.choice.
  destruct seq as [|a seq']; [done|]. set (seq := a :: seq') in *.
  eapply returns_bind.
  - apply randbelow_returns. simpl. lia.
  - intros j w' Hj. simpl in Hj.
    destruct (lookup_lt_is_Some_2 seq j Hj) as [x Hx]. rewrite Hx.
    apply returns_ret. by eapply list_elem_of_lookup_2.
Qed.

(** ** [random.sample] and [random.shuffle] *)

Section sample_shuffle.

Context {A : Type}.
Implicit Types pool x res : list A.

Lemma sample_step_perm pool m j a b :
  (j < m)%nat → pool !! j = Some a → pool !! (m - 1)%nat = Some b →
  take (m - 1) (<[j := b]> pool) ++ [a] ≡ₚ take m pool.
Proof.
  intros Hj Ha Hb.
  destruct m as [|m]; [lia|].
  replace (S m - 1)%nat with m in * by lia.
  rewrite (take_S_r pool m b) by done.
  destruct (decide (j = m)) as [->|Hne].
  - rewrite take_insert_ge by lia. by replace a with b by congruence.
  - rewrite take_insert_lt by lia.
    set (l := take m pool).
    assert (l !! j = Some a) as Hla.
    { unfold l. rewrite lookup_take_lt by lia. done. }
    assert (length l = m) as Hlen.
    { unfold l. rewrite length_take.
      apply lookup_lt_Some in Hb. lia. }
    rewrite <-(Permutation_insert_swap (l ++ [b]) j (length l) a b).
    + rewrite insert_app_l by (rewrite Hlen; lia).
      rewrite insert_app_r_alt by (rewrite length_insert; lia).
      by rewrite length_insert, Nat.sub_diag.
    + rewrite lookup_app_l by (rewrite Hlen; lia). done.
    + rewrite lookup_app_r by lia. by rewrite Nat.sub_diag.
Qed.

Lemma sample_loop_returns k : ∀ n i pool w,
  length pool = n → (k + i ≤ n)%nat →
  returns (random.sample_loop k n i pool) w
    (λ res _, length res = k ∧ res ⊆+ take (n - i) pool).
Proof.
  induction k as [|k IH]; intros n i pool w Hlen Hk; simpl.
  - apply returns_ret. split; [done | apply submseteq_nil_l].
  - eapply returns_bind; [apply (randbelow_returns (n - i)); lia|].
    intros j w' Hj. simpl in Hj.
    destruct (lookup_lt_is_Some_2 pool j) as [a Ha]; [lia|].
    destruct (lookup_lt_is_Some_2 pool (n - i - 1)) as [b Hb]; [lia|].
    rewrite Ha, Hb.
    eapply returns_bind.
    + apply (IH n (S i) (<[j := b]> pool)); [by rewrite length_insert | lia].
    + intros rest w'' [Hrl Hsub]. apply returns_ret. simpl.
      split; [by rewrite Hrl|].
      rewrite <-(sample_step_perm pool (n - i) j a b) by done.
      rewrite (Permutation_app_comm _ [a]). simpl.
      apply submseteq_skip.
      by replace (n - i - 1)%nat with (n - S i)%nat by lia.
Qed.

Lemma sample_returns population k w :
  (k ≤ length population)%nat →
  returns (random.sample population k) w
    (λ res _, length res = k ∧ res ⊆+ population).
Proof.
  intros Hk. unfold random.sample. rewrite decide_True by done.
  eapply returns_weaken;
    [apply (sample_loop_returns k (length population) 0); [done | lia]|].
  intros res _ [? Hsub]. split; [done|].
  by rewrite Nat.sub_0_r, firstn_all in Hsub.
Qed.

Lemma shuffle_loop_returns i : ∀ x w,
  (i < length x ∨ i = 0)%nat →
  returns (random.shuffle_loop i x) w (λ res _, res ≡ₚ x).
Proof.
  induction i as [|i IH]; intros x w Hi; simpl.
  - by apply returns_ret.
  - destruct Hi as [Hi|]; [|lia].
    eapply returns_bind; [apply (randbelow_returns (S i + 1)); lia|].
    intros j w' Hj. simpl in Hj.
    destruct (lookup_lt_is_Some_2 x (S i)) as [xi Hxi]; [lia|].
    destruct (lookup_lt_is_Some_2 x j) as [xj Hxj]; [lia|].
    rewrite Hxi, Hxj.
    eapply returns_weaken.
    + apply IH. left. rewrite !length_insert. lia.
    + intros res w'' Hres. simpl in Hres. rewrite Hres.
      by apply Permutation_insert_swap.
Qed.

Lemma shuffle_returns x w :
  returns (random.shuffle x) w (λ res _, res ≡ₚ x).
Proof.
  unfold random.shuffle. apply shuffle_loop_returns.
  destruct x; simpl; lia.
Qed.

End sample_shuffle.

(** ** Rounding to a double *)









(** ** [bisect_right] and [random.choices] *)



Lemma Zsum_app (l k : list Z) : Zsum (l ++ k) = Zsum l + Zsum k.
Proof. unfold Zsum. induction l as [|z l IH]; simpl; lia. Qed.



Lemma accumulate_from_length acc ws :
  length (random.accumulate_from acc ws) = length ws.
Proof. revert acc. induction ws as [|z ws IH]; intros acc; simpl; auto. Qed.

Lemma accumulate_length ws : length (random.accumulate ws) = length ws.
Proof. apply accumulate_from_length. Qed.





Lemma uniform_range w : (0 <= uniform w)%Q ∧ (uniform w < 1)%Q.
Proof.
  unfold uniform, Qle, Qlt. simpl.
  pose proof (N.mod_upper_bound (tape w (pos w)) 9007199254740992) as Hm.
  specialize (Hm ltac:(done)).
  set (m := (tape w (pos w) `mod` 9007199254740992)%N) in *. clearbody m.
  lia.
Qed.

Lemma random_returns w :
  random.random w = (Ok (uniform w), (draw w).2).
Proof. reflexivity. Qed.






(** ** The sampling step *)

Lemma bisect_right_in_range (a : list Z) (x : Q) (lo hi : nat) :
  (hi ≤ length a)%nat → (lo ≤ hi)%nat →
  ∃ r, bisect.bisect_right a x lo hi = Ok r ∧ (lo ≤ r ≤ hi)%nat.
Proof.
  funelim (bisect.bisect_right a x lo hi); intros Hhi Hlo.
  - exists lo. split; [done | lia].
  - match goal with H : a !! _ = None |- _ => apply lookup_ge_None in H end.
    pose proof (Nat.div_mod_eq (lo + hi) 2).
    pose proof (Nat.mod_upper_bound (lo + hi) 2). lia.
  - pose proof (Nat.div_mod_eq (lo + hi) 2) as Hdm.
    pose proof (Nat.mod_upper_bound (lo + hi) 2) as Hmb.
    match goal with
    | IH : _ → _ → ∃ r, _ |- _ => destruct IH as (r & Hr & Hrange); [lia | lia |]
    end.
    exists r. rewrite <-Hr. split; [done | lia].
  - pose proof (Nat.div_mod_eq (lo + hi) 2) as Hdm.
    pose proof (Nat.mod_upper_bound (lo + hi) 2) as Hmb.
    match goal with
    | IH : _ → _ → ∃ r, _ |- _ => destruct IH as (r & Hr & Hrange); [lia | lia |]
    end.
    exists r. rewrite <-Hr. split; [done | lia].
Qed.

(** Whatever the weights, one call of [choices] on a non-empty population
    returns an element of it or raises [ValueError]. *)
Lemma choices_one_total {A} (population : list A) (weights : list Z) w :
  population ≠ [] →
  (∃ c w', random.choices population weights 1 w = (Ok [c], w')
           ∧ c ∈ population)
  ∨ (∃ w', random.choices population weights 1 w = (Raise ValueError, w')).
Proof.
  intros Hne. unfold random.choices.
  rewrite accumulate_length.
  destruct (decide (length weights ≠ length population)) as [|Hlen];
    [right; by eexists|].
  assert (0 < length population)%nat as Hn.
  { destruct population; simpl; [done | lia]. }
  destruct (last (random.accumulate weights)) as [t|] eqn:Hlast.
  2: { apply last_None in Hlast. apply (f_equal length) in Hlast.
       rewrite accumulate_length in Hlast. simpl in Hlast. lia. }
  destruct (Qle_bool (float.of_int t) 0); [right; by eexists|].
  left. simpl. unfold random.choices_draw, mbind, Py_bind.
  rewrite random_returns.
  destruct (bisect_right_in_range (random.accumulate weights)
              (float.mul (uniform w) (float.of_int t)) 0
              (length population - 1))
    as (r & Hr & Hrange); [rewrite accumulate_length; lia | lia |].
  rewrite Hr.
  destruct (lookup_lt_is_Some_2 population r) as [c Hc]; [lia|].
  rewrite Hc. exists c. eexists. split; [done|].
  by eapply list_elem_of_lookup_2.
Qed.

Lemma select_word_total user_id (population : list WordInfo)
    (weights : list Z) w :
  population ≠ [] →
  returns (select_word user_id population weights) w
    (λ r _, ∃ selected, r = Some selected ∧ selected ∈ population).
Proof.
  intros Hne. unfold select_word.
  destruct population as [|p0 ps] eqn:Hp; [done|]. rewrite <-Hp in *.
  destruct (decide (length population ≠ length weights)).
  - apply (returns_bind _ _ _ (λ _ _, True)); [by eexists _, _|].
    intros _ w1 _.
    eapply returns_bind; [by apply choice_returns|].
    intros c w2 Hc. apply returns_ret. eauto.
  - unfold returns, mbind at 1, Py_bind, try_except.
    unfold mbind at 1, Py_bind. unfold logger at 1.
    unfold mbind at 1, Py_bind.
    match goal with
    | |- context [random.choices population weights 1 ?w1] =>
        destruct (choices_one_total population weights w1 Hne)
          as [(c & w2 & -> & Hc) | (w2 & ->)]
    end.
    + simpl. eauto 10.
    + unfold mbind, Py_bind, logger.
      match goal with
      | |- context [random.choice population ?w3] =>
          destruct (choice_returns population w3 Hne) as (c & w4 & -> & Hc)
      end.
      simpl. eauto 10.
Qed.

(** ** The candidate set *)

Section list_facts.

Context {A B : Type} `{EqDecision A} `{EqDecision B}.

Lemma remove_dups_NoDup_id (l : list A) : NoDup l → remove_dups l = l.
Proof.
  induction 1 as [|x l Hx _ IH]; simpl; [done|].
  destruct (decide_rel elem_of x l); [done | by rewrite IH].
Qed.

Lemma filter_none (P : A → Prop) `{∀ x, Decision (P x)} (l : list A) :
  (∀ y, y ∈ l → ¬ P y) → filter P l = [].
Proof.
  induction l as [|x l IH]; intros Hl; [done|].
  rewrite filter_cons_False by (apply Hl; left).
  apply IH. intros y Hy. apply Hl. by right.
Qed.

Lemma filter_all (P : A → Prop) `{∀ x, Decision (P x)} (l : list A) :
  (∀ y, y ∈ l → P y) → filter P l = l.
Proof.
  induction l as [|x l IH]; intros Hl; [done|].
  rewrite filter_cons_True by (apply Hl; left).
  f_equal. apply IH. intros y Hy. apply Hl. by right.
Qed.

Lemma filter_same_key_le_1 (f : A → B) (P : A → Prop)
    `{∀ x, Decision (P x)} (k : B) (l : list A) :
  NoDup (f <$> l) → (∀ x, P x → f x = k) → (length (filter P l) ≤ 1)%nat.
Proof.
  intros Hnd HP. induction l as [|x l IH]; simpl; [lia|].
  rewrite fmap_cons in Hnd. apply NoDup_cons in Hnd as [Hx Hnd].
  rewrite filter_cons. destruct (decide (P x)) as [HPx|]; [|by apply IH].
  assert (filter P l = []) as ->; [|simpl; lia].
  apply filter_none. intros y Hy HPy. apply Hx.
  rewrite (HP x HPx), <-(HP y HPy). by apply list_elem_of_fmap_2.
Qed.

Lemma filter_key_of_member (f : A → B) (l : list A) (x : A) :
  NoDup (f <$> l) → x ∈ l → length (filter (λ y, f y = f x) l) = 1%nat.
Proof.
  intros Hnd Hx. induction l as [|y l IH]; [by apply not_elem_of_nil in Hx|].
  rewrite fmap_cons in Hnd. apply NoDup_cons in Hnd as [Hy Hnd].
  rewrite filter_cons. destruct (decide (f y = f x)) as [Heq|Hne].
  - assert (filter (λ y0, f y0 = f x) l = []) as ->; [|done].
    apply filter_none. intros z Hz Hzx. apply Hy.
    rewrite Heq, <-Hzx. by apply list_elem_of_fmap_2.
  - apply elem_of_cons in Hx as [->|Hx]; [done | by apply IH].
Qed.

Lemma filter_ne_length (l : list A) (x : A) :
  NoDup l → x ∈ l → length (filter (λ y, y ≠ x) l) = (length l - 1)%nat.
Proof.
  intros Hnd Hx. induction l as [|y l IH]; [by apply not_elem_of_nil in Hx|].
  apply NoDup_cons in Hnd as [Hy Hnd]. rewrite filter_cons. simpl.
  destruct (decide (y ≠ x)) as [Hne|Heq].
  - apply elem_of_cons in Hx as [->|Hx]; [done|]. simpl.
    rewrite IH by done. apply list_elem_of_In, In_nth_error in Hx as [i Hi].
    assert (0 < length l)%nat by (destruct l; [by destruct i | simpl; lia]).
    lia.
  - assert (y = x) as -> by (destruct (decide (y = x)); [done | tauto]).
    rewrite Nat.sub_0_r. f_equal.
    apply filter_all. by intros z Hz ->.
Qed.

End list_facts.

Lemma NoDup_fmap_filter {A B} (f : A → B) (P : A → Prop)
    `{∀ x, Decision (P x)} (l : list A) :
  NoDup (f <$> l) → NoDup (f <$> filter P l).
Proof.
  induction l as [|x l IH]; [done|].
  rewrite fmap_cons, NoDup_cons. intros [Hx Hnd].
  rewrite filter_cons. destruct (decide (P x)); [|by apply IH].
  rewrite fmap_cons, NoDup_cons. split; [|by apply IH].
  intros (y & Hfy & Hy)%list_elem_of_fmap. apply Hx.
  apply list_elem_of_filter in Hy as [_ Hy].
  rewrite Hfy. by apply list_elem_of_fmap_2.
Qed.

Lemma word_union_identities t user_id :
  schema_ok t →
  NoDup ((λ w, (w_type w, w_ref w)) <$> sql.word_union t user_id).
Proof.
  intros Hok. unfold sql.word_union.
  match goal with |- context [remove_dups ?l] => set (l0 := l) end.
  assert (NoDup ((λ w, (w_type w, w_ref w)) <$> l0)) as Hnd.
  { unfold l0. rewrite fmap_app, <-!list_fmap_compose. apply NoDup_app.
    split; [|split].
    - rewrite (list_fmap_compose cw_id (pair common)).
      apply (NoDup_fmap_2 _), (common_pk _ Hok).
    - intros k (c & -> & _)%list_elem_of_fmap (u & Hk & _)%list_elem_of_fmap.
      simpl in Hk. congruence.
    - rewrite (list_fmap_compose uw_id (pair user)).
      apply (NoDup_fmap_2 _), NoDup_fmap_filter, (user_pk _ Hok). }
  rewrite remove_dups_NoDup_id; [done|]. by eapply NoDup_fmap_1.
Qed.

Lemma left_join_single user_id (ps : list Progress) (w : sql.WordRow) :
  NoDup ((λ p, (p_user p, p_type p, p_ref p)) <$> ps) →
  ∃ r, sql.left_join user_id ps w = [r] ∧ row_word r = w.
Proof.
  intros Hnd. unfold sql.left_join.
  pose proof (filter_same_key_le_1 (λ p, (p_user p, p_type p, p_ref p))
                (sql.joins user_id w) (user_id, w_type w, w_ref w) ps Hnd)
    as Hle.
  destruct (filter (sql.joins user_id w) ps) as [|p [|q m]].
  - eexists. split; [done|]. done.
  - eexists. split; [done|]. done.
  - simpl in Hle. exfalso.
    assert (S (S (length m)) ≤ 1)%nat; [|lia].
    apply Hle. intros x (Href & Hty & Hu). by rewrite Hu, <-Hty, <-Href.
Qed.

Lemma select_candidates_words t user_id :
  schema_ok t →
  row_word <$> sql.select_candidates t user_id = sql.word_union t user_id.
Proof.
  intros Hok. unfold sql.select_candidates.
  induction (sql.word_union t user_id) as [|w ws IH]; [done|].
  rewrite bind_cons, fmap_app, IH.
  destruct (left_join_single user_id (user_word_progress t) w
              (progress_unique _ Hok)) as (r & -> & <-).
  done.
Qed.

(** A word is in the candidate set at most once. *)
Lemma candidates_identity_NoDup t user_id :
  schema_ok t → NoDup (identity <$> sql.select_candidates t user_id).
Proof.
  intros Hok.
  change identity with ((λ w, (w_type w, w_ref w)) ∘ row_word).
  rewrite list_fmap_compose, select_candidates_words by done.
  by apply word_union_identities.
Qed.

(** ** Building the card *)

Lemma try_except_returns {A} (m : Py A) h w P :
  returns m w P → returns (try_except m h) w P.
Proof.
  intros (a & w' & Hm & HP). exists a, w'.
  split; [by apply try_except_ok | done].
Qed.

Lemma make_card_returns (rows : list Row) (sel : WordInfo) w :
  returns (make_card rows sel) w (λ card _,
    card_en_word card = en_word sel ∧ card_ru_word card = ru_word sel
    ∧ card_word_type card = word_type sel
    ∧ card_word_ref_id card = word_ref_id sel
    ∧ ∃ sampled,
        card_options card ≡ₚ sampled ++ [en_word sel]
        ∧ length sampled
          = (3 `min` length (filter (λ e, e ≠ en_word sel) (en_texts rows)))%nat
        ∧ sampled ⊆+ filter (λ e, e ≠ en_word sel) (en_texts rows)).
Proof.
  unfold make_card. fold (en_texts rows).
  eapply returns_bind; [apply sample_returns; lia|].
  intros sampled w1 [Hlen Hsub].
  eapply returns_bind; [apply shuffle_returns|].
  intros options w2 Hperm. apply returns_ret. simpl.
  repeat split; try done. by exists sampled.
Qed.

(** A card comes out whenever the population is not empty, with the
    fields of a member of the population. *)
Lemma draw_card_returns user_id rows population weights w :
  population ≠ [] →
  returns (draw_card user_id rows population weights) w (λ r _,
    ∃ card sel, r = Some card ∧ sel ∈ population
      ∧ card_en_word card = en_word sel ∧ card_ru_word card = ru_word sel
      ∧ card_word_type card = word_type sel
      ∧ card_word_ref_id card = word_ref_id sel
      ∧ ∃ sampled,
          card_options card ≡ₚ sampled ++ [en_word sel]
          ∧ length sampled
            = (3 `min` length (filter (λ e, e ≠ en_word sel)
                                 (en_texts rows)))%nat
          ∧ sampled ⊆+ filter (λ e, e ≠ en_word sel) (en_texts rows)).
Proof.
  intros Hne. unfold draw_card.
  eapply returns_bind; [by apply select_word_total|].
  intros r w1 (sel & -> & Hsel).
  eapply returns_bind; [apply make_card_returns|].
  intros card w2 Hcard. apply returns_ret. exists card, sel.
  split; [done|]. split; [done|]. exact Hcard.
Qed.

Lemma get_random_card_live user_id w c :
  conn (self w) = Some c → broken c = None →
  sql.select_candidates (tables c) user_id ≠ [] →
  returns (get_random_card user_id) w (λ r _,
    ∃ card row, r = Some card
      ∧ row ∈ sql.select_candidates (tables c) user_id
      ∧ card_en_word card = w_en (row_word row)
      ∧ card_ru_word card = w_ru (row_word row)
      ∧ card_word_type card = w_type (row_word row)
      ∧ card_word_ref_id card = w_ref (row_word row)
      ∧ ∃ sampled,
          card_options card ≡ₚ sampled ++ [w_en (row_word row)]
          ∧ length sampled
            = (3 `min` length
                 (filter (λ e, e ≠ w_en (row_word row))
                    (en_texts (sql.select_candidates (tables c) user_id))))%nat
          ∧ sampled ⊆+ filter (λ e, e ≠ w_en (row_word row))
                         (en_texts (sql.select_candidates (tables c) user_id))).
Proof.
  intros Hc Hb Hne.
  set (rows := sql.select_candidates (tables c) user_id) in *.
  assert (word_info <$> rows ≠ []) as Hpop.
  { intros Heq. apply fmap_nil_inv in Heq. done. }
  destruct (draw_card_returns user_id rows (word_info <$> rows)
              (row_weight <$> rows) w Hpop)
    as (r & w' & Hrun & card & sel & -> & Hsel & Hfields).
  exists (Some card), w'. split.
  - unfold get_random_card, get_self, mbind at 1, Py_bind. rewrite Hc.
    unfold try_except, check_alive. rewrite Hb.
    unfold mbind at 1, Py_bind, mret at 1, Py_ret. fold rows.
    destruct rows as [|r0 rs] eqn:Hrows; [done|]. rewrite <-Hrows in *.
    by rewrite Hrun.
  - apply list_elem_of_fmap in Hsel as (row & -> & Hrow).
    exists card, row. split; [done|]. split; [done|]. exact Hfields.
Qed.

(** ** [get_random_card]: what the caller gets *)

(** Unfold the plumbing of [Py]. *)
Ltac py_run :=
  cbv [mbind Py_bind mret Py_ret raise logger try_except connection.rollback
       connection.commit connection.check_alive connection.returning
       connection.nextval_user_words_id get_self set_self datetime_now
       add_log];
  simpl.

Lemma add_log_add_log w l1 l2 : add_log (add_log w l1) l2 = add_log w (l1 ++ l2).
Proof. unfold add_log. simpl. by rewrite <-app_assoc. Qed.

(** C7: with a live connection and an empty candidate set,
    [get_random_card] returns [None]; nothing is raised, and the only
    effect is one INFO record. *)
Theorem empty_vocabulary_returns_None user_id w c :
  conn (self w) = Some c → broken c = None →
  sql.select_candidates (tables c) user_id = [] →
  get_random_card user_id w
  = (Ok None, add_log w [(INFO, NoWordsFound user_id)]).
Proof.
  intros Hc Hb Hrows.
  unfold get_random_card, get_self, mbind at 1, Py_bind. rewrite Hc.
  unfold try_except, check_alive. rewrite Hb.
  unfold mbind at 1, Py_bind, mret at 1, Py_ret. by rewrite Hrows.
Qed.

Lemma empty_vocabulary_returns_None_witness :
  get_random_card 7 (Examples.world_of (Examples.live Examples.no_words)
                       (λ _, 0%N))
  = (Ok None,
     add_log (Examples.world_of (Examples.live Examples.no_words) (λ _, 0%N))
       [(INFO, NoWordsFound 7)]).
Proof.
  apply (empty_vocabulary_returns_None 7 _
           (Examples.connection_of Examples.no_words)); reflexivity.
Defined.

Lemma get_random_card_no_connection user_id w :
  conn (self w) = None →
  get_random_card user_id w
  = (Ok None, add_log w [(ERROR, CannotGetCardNoConnection)]).
Proof.
  intros Hc. unfold get_random_card, get_self, mbind at 1, Py_bind.
  by rewrite Hc.
Qed.

Lemma get_random_card_broken user_id w c e :
  conn (self w) = Some c → broken c = Some e →
  get_random_card user_id w
  = (Ok None, add_log w [(ERROR, DatabaseErrorGettingCard user_id e);
                         (ERROR, RollbackError (Psycopg2Error e))]).
Proof.
  intros Hc Hb. unfold get_random_card, get_self, mbind at 1, Py_bind.
  rewrite Hc. unfold try_except at 1, check_alive. rewrite Hb.
  py_run. rewrite Hc, Hb. simpl. by rewrite <-app_assoc.
Qed.

(** No exception leaves [get_random_card]. *)
Lemma get_random_card_never_raises user_id w :
  ∃ r w', get_random_card user_id w = (Ok r, w').
Proof.
  unfold get_random_card, get_self, mbind at 1, Py_bind.
  destruct (conn (self w)) as [c|] eqn:Hc; [|by eexists _, _].
  unfold try_except at 1.
  match goal with |- context [let (_, _) := ?body w in _] =>
    destruct (body w) as [[r|e] w1] end; [by eexists _, _|].
  destruct e; try by eexists _, _.
  py_run. destruct (conn (self w1)) as [c1|]; simpl; [|by eexists _, _].
  destruct (broken c1); simpl; by eexists _, _.
Qed.

(** ** The options of the card *)

Lemma submseteq_NoDup {A} (l k : list A) : l ⊆+ k → NoDup k → NoDup l.
Proof.
  intros [k' Hk]%submseteq_Permutation. rewrite Hk.
  by intros [? _]%NoDup_app.
Qed.

(** C2, amended: the card returned for a non-empty candidate set lists
    its own English text among the options; and when the English texts of
    the candidates are pairwise distinct, the card has as many options as
    there are candidates, up to 4, and the options are pairwise distinct. *)
Theorem options_of_distinct_texts user_id w c :
  conn (self w) = Some c → broken c = None →
  sql.select_candidates (tables c) user_id ≠ [] →
  ∃ card w',
    get_random_card user_id w = (Ok (Some card), w')
    ∧ card_en_word card ∈ card_options card
    ∧ (NoDup (en_texts (sql.select_candidates (tables c) user_id)) →
       ((length (sql.select_candidates (tables c) user_id) ≤ 3)%nat →
        length (card_options card)
        = length (sql.select_candidates (tables c) user_id))
       ∧ ((4 ≤ length (sql.select_candidates (tables c) user_id))%nat →
          length (card_options card) = 4%nat)
       ∧ NoDup (card_options card)).
Proof.
  intros Hc Hb Hne.
  destruct (get_random_card_live user_id w c Hc Hb Hne)
    as (r & w' & Hrun & card & row & -> & Hrow & Hen & _ & _ & _
        & sampled & Hperm & Hlen & Hsub).
  set (rows := sql.select_candidates (tables c) user_id) in *.
  set (target := w_en (row_word row)) in *.
  exists card, w'. split; [done|]. split.
  { rewrite Hen, Hperm. apply elem_of_app. right. by left. }
  intros Hnd.
  assert (target ∈ en_texts rows) as Htarget.
  { unfold en_texts. by apply (list_elem_of_fmap_2 (λ r, w_en (row_word r))). }
  rewrite (filter_ne_length _ _ Hnd Htarget) in Hlen.
  assert (length (en_texts rows) = length rows) as Hsize
    by (unfold en_texts; apply length_fmap).
  assert (0 < length rows)%nat by (destruct rows; simpl; [done | lia]).
  assert (length (card_options card) = S (length sampled)) as Hopt.
  { rewrite Hperm, length_app. simpl. lia. }
  repeat split.
  - lia.
  - lia.
  - rewrite Hperm. apply NoDup_app. split; [|split].
    + eapply submseteq_NoDup; [exact Hsub|]. by apply NoDup_filter.
    + intros e He Het. apply list_elem_of_singleton in Het as ->.
      eapply elem_of_submseteq in He; [|exact Hsub].
      apply list_elem_of_filter in He as [Hne' _]. done.
    + apply NoDup_singleton.
Qed.

Lemma options_of_distinct_texts_witness :
  ∃ card w',
    get_random_card 7 (Examples.world_of (Examples.live Examples.apple_cat)
                         (λ _, 5%N))
    = (Ok (Some card), w')
    ∧ card_en_word card ∈ card_options card
    ∧ length (card_options card) = 2%nat
    ∧ NoDup (card_options card).
Proof.
  destruct (options_of_distinct_texts 7
              (Examples.world_of (Examples.live Examples.apple_cat) (λ _, 5%N))
              (Examples.connection_of Examples.apple_cat) eq_refl eq_refl)
    as (card & w' & Hrun & Hin & Hdistinct).
  - vm_compute. discriminate.
  - destruct Hdistinct as (Hlen & _ & Hnd); [compute_done|].
    exists card, w'. split; [exact Hrun|]. split; [exact Hin|].
    split; [apply Hlen; vm_compute; lia | exact Hnd].
Defined.

(** C2 as stated fails when a user has added a word that is also a common
    word: user 7 has three candidates ([apple] twice and [cat]); a card for
    [apple] has two options, and a card for [cat] lists [apple] twice. *)
Lemma options_counterexample :
  length (sql.select_candidates Examples.apple_twice 7) = 3%nat
  ∧ (∃ card,
       (get_random_card 7
          (Examples.world_of (Examples.live Examples.apple_twice) (λ _, 0%N))).1
       = Ok (Some card)
       ∧ length (card_options card) = 2%nat)
  ∧ (∃ card,
       (get_random_card 7
          (Examples.world_of (Examples.live Examples.apple_twice)
             (λ _, 4503599627370496%N))).1
       = Ok (Some card)
       ∧ length (card_options card) = 3%nat
       ∧ ¬ NoDup (card_options card)).
Proof.
  split; [by vm_compute|]. split.
  - eexists. split; [vm_compute; reflexivity|]. reflexivity.
  - eexists. split; [vm_compute; reflexivity|]. split; [reflexivity|].
    compute_done.
Qed.

(** ** The weighted draw *)







(** C3 as stated fails by one rounding: with the weights 10 and 2 of the
    specification and [random()] returning 7505999378950826 / 2^53, the
    exact product lies in the interval [[0, 10)] of [apple], but as a
    double it is 10.0, and [cat] is returned. *)
Lemma weighted_draw_counterexample :
  let w := Examples.world_of (Examples.live Examples.apple_cat)
             (λ _, 7505999378950826%N) in
  let rows := sql.select_candidates Examples.apple_cat 7 in
  row_weight <$> rows = [10; 2]
  ∧ in_interval (row_weight <$> rows)
      (uniform w * inject_Z (Zsum (row_weight <$> rows))) 0
  ∧ (float.mul (uniform w) (float.of_int (Zsum (row_weight <$> rows)))
     == inject_Z 10)%Q
  ∧ (select_word 7 (word_info <$> rows) (row_weight <$> rows) w).1
    = Ok (Some {| en_word := Examples.cat; ru_word := Examples.kot;
                  word_type := common; word_ref_id := 2 |}).
Proof.
  split; [by vm_compute|]. split; [|split; by vm_compute].
  exists 10. split; [by vm_compute|]. split; by vm_compute.
Qed.

(** The scenario of the specification: weights 10 and 2; seven eighths
    of the way through [[0, 12)] lies in the interval of [cat]. *)
Example apple_cat_draw :
  row_weight <$> sql.select_candidates Examples.apple_cat 7 = [10; 2]
  ∧ (select_word 7 (word_info <$> sql.select_candidates Examples.apple_cat 7)
       (row_weight <$> sql.select_candidates Examples.apple_cat 7)
       (Examples.world_of (Examples.live Examples.apple_cat)
          (λ _, 7881299347898368%N))).1
    = Ok (Some {| en_word := Examples.cat; ru_word := Examples.kot;
                  word_type := common; word_ref_id := 2 |}).
Proof. split; vm_compute; reflexivity. Qed.

(** ** The card and the candidates; failures of the store *)

(** C4: under the constraints of the schema, the candidate set holds each
    [(word_type, word_ref_id)] once, and the card returned for a non-empty
    candidate set carries the identity of exactly one candidate. *)
Theorem card_matches_one_candidate user_id w c :
  conn (self w) = Some c → broken c = None → schema_ok (tables c) →
  sql.select_candidates (tables c) user_id ≠ [] →
  NoDup (identity <$> sql.select_candidates (tables c) user_id)
  ∧ ∃ card w',
      get_random_card user_id w = (Ok (Some card), w')
      ∧ length (filter (λ r, identity r
                             = (card_word_type card, card_word_ref_id card))
                  (sql.select_candidates (tables c) user_id)) = 1%nat.
Proof.
  intros Hc Hb Hok Hne.
  pose proof (candidates_identity_NoDup (tables c) user_id Hok) as Hnd.
  split; [done|].
  destruct (get_random_card_live user_id w c Hc Hb Hne)
    as (r & w' & Hrun & card & row & -> & Hrow & _ & _ & Hty & Href & _).
  exists card, w'. split; [done|].
  rewrite Hty, Href. by apply (filter_key_of_member identity).
Qed.

Lemma apple_cat_schema_ok : schema_ok Examples.apple_cat.
Proof. split; compute_done. Qed.

Lemma card_matches_one_candidate_witness :
  NoDup (identity <$> sql.select_candidates Examples.apple_cat 7)
  ∧ ∃ card w',
      get_random_card 7 (Examples.world_of (Examples.live Examples.apple_cat)
                           (λ _, 5%N))
      = (Ok (Some card), w')
      ∧ length (filter (λ r, identity r
                             = (card_word_type card, card_word_ref_id card))
                  (sql.select_candidates Examples.apple_cat 7)) = 1%nat.
Proof.
  apply (card_matches_one_candidate 7
           (Examples.world_of (Examples.live Examples.apple_cat) (λ _, 5%N))
           (Examples.connection_of Examples.apple_cat) eq_refl eq_refl
           apple_cat_schema_ok).
  vm_compute. discriminate.
Defined.

(** C5, amended: when the store is unavailable or a storage operation
    raises, [get_random_card] handles the failure itself: it writes ERROR
    records that name the failure and returns [None], the value it also
    returns for an empty vocabulary. No exception reaches the caller, in
    these cases or in any other. *)
Theorem store_failure_returns_None user_id w :
  (conn (self w) = None →
   get_random_card user_id w
   = (Ok None, add_log w [(ERROR, CannotGetCardNoConnection)]))
  ∧ (∀ c e, conn (self w) = Some c → broken c = Some e →
       get_random_card user_id w
       = (Ok None, add_log w [(ERROR, DatabaseErrorGettingCard user_id e);
                              (ERROR, RollbackError (Psycopg2Error e))]))
  ∧ ∃ r w', get_random_card user_id w = (Ok r, w').
Proof.
  split; [apply get_random_card_no_connection|].
  split; [apply get_random_card_broken | apply get_random_card_never_raises].
Qed.

Lemma store_failure_returns_None_witness :
  get_random_card 7 (Examples.world_of Examples.unavailable (λ _, 0%N))
  = (Ok None,
     add_log (Examples.world_of Examples.unavailable (λ _, 0%N))
       [(ERROR, CannotGetCardNoConnection)])
  ∧ get_random_card 7
      (Examples.world_of (Examples.gone Examples.apple_cat) (λ _, 0%N))
    = (Ok None,
       add_log (Examples.world_of (Examples.gone Examples.apple_cat) (λ _, 0%N))
         [(ERROR, DatabaseErrorGettingCard 7 OperationalError);
          (ERROR, RollbackError (Psycopg2Error OperationalError))]).
Proof.
  split.
  - apply (proj1 (store_failure_returns_None 7
                    (Examples.world_of Examples.unavailable (λ _, 0%N)))).
    reflexivity.
  - apply (proj1 (proj2 (store_failure_returns_None 7
                    (Examples.world_of (Examples.gone Examples.apple_cat)
                       (λ _, 0%N))))
             _ OperationalError eq_refl eq_refl).
Defined.

(** C5 as stated fails: with no connection, and with a connection whose
    operations raise, the call returns [None] normally; the caller sees no
    failure. *)
Lemma store_failure_counterexample :
  (get_random_card 7 (Examples.world_of Examples.unavailable (λ _, 0%N))).1
  = Ok None
  ∧ (get_random_card 7
       (Examples.world_of (Examples.gone Examples.apple_cat) (λ _, 0%N))).1
    = Ok None
  ∧ ¬ ∃ e w',
        get_random_card 7
          (Examples.world_of (Examples.gone Examples.apple_cat) (λ _, 0%N))
        = (Raise e, w').
Proof.
  split; [reflexivity|]. split; [reflexivity|].
  intros (e & w' & H). vm_compute in H. discriminate.
Qed.








Example mismatch_falls_back :
  (select_word 7 (word_info <$> sql.select_candidates Examples.apple_cat 7) []
     (Examples.world_of (Examples.live Examples.apple_cat) (λ _, 3%N))).1
  = Ok (Some {| en_word := Examples.cat; ru_word := Examples.kot;
                word_type := common; word_ref_id := 2 |})
  ∧ (select_word 7 (word_info <$> sql.select_candidates Examples.apple_cat 7)
       [1; -1]
       (Examples.world_of (Examples.live Examples.apple_cat) (λ _, 3%N))).1
    = Ok (Some {| en_word := Examples.cat; ru_word := Examples.kot;
                  word_type := common; word_ref_id := 2 |}).
Proof. split; vm_compute; reflexivity. Qed.

(** ** [record_answer] *)

Section upsert.

Variables (user_id : Z) (word_type : WordType) (word_ref_id : Z).
Variables (is_correct : bool) (now : Z).

Local Abbreviation K := (sql.same_key user_id word_type word_ref_id).
Local Abbreviation upd :=
  (λ p, if decide (K p) then sql.bump is_correct now p else p).
Implicit Types ps : list Progress.

Lemma bump_same_key u wt r p :
  sql.same_key u wt r (sql.bump is_correct now p) ↔ sql.same_key u wt r p.
Proof. done. Qed.

Lemma filter_upd_same ps :
  filter K (upd <$> ps) = sql.bump is_correct now <$> filter K ps.
Proof.
  induction ps as [|p ps IH]; [done|].
  rewrite fmap_cons, !filter_cons.
  destruct (decide (K p)) as [Hp|Hp].
  - rewrite decide_True by by apply bump_same_key.
    by rewrite fmap_cons, IH.
  - by rewrite decide_False.
Qed.

Lemma filter_upd_other u wt r ps :
  (u, wt, r) ≠ (user_id, word_type, word_ref_id) →
  filter (sql.same_key u wt r) (upd <$> ps) = filter (sql.same_key u wt r) ps.
Proof.
  intros Hne. induction ps as [|p ps IH]; [done|].
  rewrite fmap_cons, !filter_cons.
  destruct (decide (K p)) as [Hp|Hp].
  - assert (¬ sql.same_key u wt r p) as Hn.
    { intros (Hu & Ht & Hr). destruct Hp as (Hu' & Ht' & Hr').
      apply Hne. congruence. }
    rewrite !decide_False; [done | done |].
    by rewrite bump_same_key.
  - by rewrite IH.
Qed.

(** What a successful upsert leaves in the table. *)
Lemma upsert_progress_inr t t' :
  sql.upsert_progress t user_id word_type word_ref_id is_correct now = inr t' →
  common_words t' = common_words t ∧ user_words t' = user_words t
  ∧ correct_count t' user_id word_type word_ref_id
    = correct_count t user_id word_type word_ref_id
      + (if is_correct then 1 else 0)
  ∧ incorrect_count t' user_id word_type word_ref_id
    = incorrect_count t user_id word_type word_ref_id
      + (if is_correct then 0 else 1)
  ∧ last_tested t' user_id word_type word_ref_id = Some now
  ∧ (lookup_progress t user_id word_type word_ref_id = None →
     lookup_progress t' user_id word_type word_ref_id
     = Some {| p_user := user_id; p_type := word_type; p_ref := word_ref_id;
               p_correct := if is_correct then 1 else 0;
               p_incorrect := if is_correct then 0 else 1;
               p_last := Some now |})
  ∧ (∀ u wt r, (u, wt, r) ≠ (user_id, word_type, word_ref_id) →
       lookup_progress t' u wt r = lookup_progress t u wt r).
Proof.
  unfold sql.upsert_progress, correct_count, incorrect_count, last_tested,
    lookup_progress.
  destruct (negb _); [intros [=]|].
  case_bool_decide as Hex.
  - case_bool_decide as Hov; [intros [=]|].
    intros [= <-]. simpl.
    rewrite filter_upd_same.
    apply Exists_exists in Hex as (p & Hp & HK).
    assert (p ∈ filter K (user_word_progress t)) as Hin
      by by apply list_elem_of_filter.
    destruct (filter K (user_word_progress t)) as [|q qs] eqn:Hf;
      [by apply not_elem_of_nil in Hin|].
    simpl. repeat split; try done; try (destruct is_correct; lia).
    intros u wt r Hne. by rewrite filter_upd_other.
  - intros [= <-]. simpl.
    assert (filter K (user_word_progress t) = []) as Hnone.
    { apply filter_none. intros p Hp HK. apply Hex, Exists_exists. eauto. }
    rewrite filter_app, Hnone, app_nil_l, filter_cons_True by done.
    simpl. repeat split; try done; try (destruct is_correct; lia).
    intros u wt r Hne. rewrite filter_app, filter_cons_False.
    { by rewrite filter_nil, app_nil_r. }
    intros (Hu & Ht & Hr). simpl in *. apply Hne. congruence.
Qed.

End upsert.

Lemma record_answer_true_inv user_id wt ref ic w w' :
  record_answer user_id wt ref ic w = (Ok true, w') →
  ∃ c t', conn (self w) = Some c ∧ broken c = None
    ∧ sql.upsert_progress (tables c) user_id wt ref ic (clock w) = inr t'
    ∧ db_tables w' = Some t' ∧ clock w' = clock w.
Proof.
  unfold record_answer, db_tables. py_run.
  destruct (conn (self w)) as [c|] eqn:Hc; [|intros [=]].
  destruct (broken c) as [e|] eqn:Hb; simpl.
  { rewrite Hc. simpl. rewrite Hb. intros [=]. }
  destruct (sql.upsert_progress _ _ _ _ _ _) as [e|t'] eqn:Hup; simpl.
  { rewrite Hc. simpl. rewrite Hb. intros [=]. }
  rewrite Hc. simpl. rewrite Hb. simpl. intros [= <-]. simpl. eauto 10.
Qed.

(** [record_answer] succeeds on a live connection unless a value leaves
    its column's range. *)
Lemma record_answer_succeeds user_id wt ref (ic : bool) w c :
  conn (self w) = Some c → broken c = None →
  in_bigint user_id = true → in_bigint ref = true →
  (if ic then correct_count (tables c) user_id wt ref
   else incorrect_count (tables c) user_id wt ref) < INT_MAX →
  NoDup ((λ p, (p_user p, p_type p, p_ref p))
           <$> user_word_progress (tables c)) →
  ∃ w', record_answer user_id wt ref ic w = (Ok true, w').
Proof.
  intros Hc Hb Hu Hr Hlt Hnd.
  assert (∃ t', sql.upsert_progress (tables c) user_id wt ref ic (clock w)
                = inr t') as [t' Hup].
  { unfold sql.upsert_progress. rewrite Hu, Hr. simpl.
    case_bool_decide as Hex; [|by eexists].
    case_bool_decide as Hov; [|by eexists].
    exfalso. apply Exists_exists in Hov as (p & Hp & HK & Hbig).
    assert (lookup_progress (tables c) user_id wt ref = Some p) as Hlook.
    { unfold lookup_progress.
      pose proof (filter_same_key_le_1 (λ p, (p_user p, p_type p, p_ref p))
                    (sql.same_key user_id wt ref) (user_id, wt, ref)
                    (user_word_progress (tables c)) Hnd) as Hle.
      assert (p ∈ filter (sql.same_key user_id wt ref)
                    (user_word_progress (tables c))) as Hin
        by by apply list_elem_of_filter.
      destruct (filter _ _) as [|q [|q' qs]].
      - by apply not_elem_of_nil in Hin.
      - apply list_elem_of_singleton in Hin as ->. done.
      - exfalso. assert (S (S (length qs)) ≤ 1)%nat; [|lia].
        apply Hle. by intros x (-> & -> & ->). }
    unfold correct_count, incorrect_count in Hlt. rewrite Hlook in Hlt.
    simpl in Hlt. destruct ic; lia. }
  unfold record_answer. py_run. rewrite Hc, Hb. simpl. rewrite Hup. simpl.
  rewrite Hc. simpl. rewrite Hb. simpl. by eexists.
Qed.

(** C9: a call of [record_answer] that succeeds leaves a progress row for
    the key; the counter that matches [is_correct] is one more than before
    (an absent row counting as 0 and 0), the other counter is as before,
    [last_tested] is the time of the call, and no other key changes. Two
    calls in a row with [is_correct = True] add 2 to [correct_count], leave
    [incorrect_count] alone and leave the time of the second call. *)
Theorem record_answer_counts user_id wt ref w1 w1' t (is_correct : bool) :
  db_tables w1 = Some t →
  record_answer user_id wt ref is_correct w1 = (Ok true, w1') →
  ∃ t',
    db_tables w1' = Some t'
    ∧ correct_count t' user_id wt ref
      = correct_count t user_id wt ref + (if is_correct then 1 else 0)
    ∧ incorrect_count t' user_id wt ref
      = incorrect_count t user_id wt ref + (if is_correct then 0 else 1)
    ∧ last_tested t' user_id wt ref = Some (clock w1)
    ∧ (lookup_progress t user_id wt ref = None →
       lookup_progress t' user_id wt ref
       = Some {| p_user := user_id; p_type := wt; p_ref := ref;
                 p_correct := if is_correct then 1 else 0;
                 p_incorrect := if is_correct then 0 else 1;
                 p_last := Some (clock w1) |})
    ∧ (∀ u wt' r, (u, wt', r) ≠ (user_id, wt, ref) →
         lookup_progress t' u wt' r = lookup_progress t u wt' r)
    ∧ (is_correct = true →
       ∀ w2 w2', self w2 = self w1' →
         record_answer user_id wt ref true w2 = (Ok true, w2') →
         ∃ t'',
           db_tables w2' = Some t''
           ∧ correct_count t'' user_id wt ref
             = correct_count t user_id wt ref + 2
           ∧ incorrect_count t'' user_id wt ref
             = incorrect_count t user_id wt ref
           ∧ last_tested t'' user_id wt ref = Some (clock w2)).
Proof.
  intros Ht Hrun.
  destruct (record_answer_true_inv _ _ _ _ _ _ Hrun)
    as (c & t' & Hc & Hb & Hup & Ht' & Hclock).
  unfold db_tables in Ht. rewrite Hc in Ht. simpl in Ht. injection Ht as <-.
  destruct (upsert_progress_inr _ _ _ _ _ _ _ Hup)
    as (_ & _ & Hcorrect & Hincorrect & Hlast & Hnew & Hothers).
  exists t'. repeat split; try done.
  intros -> w2 w2' Hself Hrun2.
  destruct (record_answer_true_inv _ _ _ _ _ _ Hrun2)
    as (c2 & t'' & Hc2 & Hb2 & Hup2 & Ht'' & _).
  unfold db_tables in Ht'. rewrite <-Hself, Hc2 in Ht'. simpl in Ht'.
  injection Ht' as Ht'.
  rewrite Ht' in Hup2.
  destruct (upsert_progress_inr _ _ _ _ _ _ _ Hup2)
    as (_ & _ & Hcorrect2 & Hincorrect2 & Hlast2 & _).
  exists t''. repeat split; try done; lia.
Qed.

Lemma record_answer_counts_witness :
  ∃ t',
    db_tables (record_answer 7 common 2 true
                 (Examples.world_of (Examples.live Examples.apple_cat)
                    (λ _, 0%N))).2 = Some t'
    ∧ correct_count t' 7 common 2 = 4
    ∧ incorrect_count t' 7 common 2 = 0
    ∧ last_tested t' 7 common 2 = Some 1700000000.
Proof.
  destruct (record_answer_counts 7 common 2
              (Examples.world_of (Examples.live Examples.apple_cat) (λ _, 0%N))
              (record_answer 7 common 2 true
                 (Examples.world_of (Examples.live Examples.apple_cat)
                    (λ _, 0%N))).2
              Examples.apple_cat true eq_refl eq_refl)
    as (t' & Ht' & Hc & Hi & Hl & _).
  exists t'. split; [exact Ht'|]. split; [exact Hc|]. split; [exact Hi | exact Hl].
Defined.

(** ** [add_user_word] *)

Lemma user_word_values_inr user_id en ru en' ru' :
  sql.user_word_values user_id en ru = inr (en', ru') →
  en' = sql.stored en ∧ ru' = sql.stored ru
  ∧ sql.adaptable en = true ∧ sql.adaptable ru = true
  ∧ in_bigint user_id = true ∧ sql.fits en ∧ sql.fits ru.
Proof.
  unfold sql.user_word_values.
  destruct (sql.adaptable en) eqn:Hen, (sql.adaptable ru) eqn:Hru; simpl;
    try done.
  destruct (in_bigint user_id) eqn:Hid; simpl; [|done].
  case_bool_decide as Hfit; [|done]. intros [= <- <-]. tauto.
Qed.


Lemma add_user_word_false_unchanged user_id en ru w w' :
  add_user_word user_id en ru w = (Ok false, w') → db_tables w' = db_tables w.
Proof.
  unfold add_user_word, db_tables. py_run.
  destruct (conn (self w)) as [c|] eqn:Hc; [|intros [= <-]; by rewrite Hc].
  destruct (broken c) as [e|] eqn:Hb; simpl.
  { rewrite Hc. simpl. rewrite Hb. intros [=]. }
  destruct (sql.user_word_values _ _ _) as [e|[en' ru']]; simpl.
  { rewrite Hc. simpl. rewrite Hb. intros [= <-]. simpl. by rewrite Hc. }
  rewrite Hc. simpl.
  destruct (sql.insert_user_word _ _ _ _ _) as [e|[result t']] eqn:Hins; simpl.
  { rewrite Hb. intros [= <-]. done. }
  rewrite Hb. simpl.
  unfold sql.insert_user_word in Hins.
  case_bool_decide; [|case_bool_decide; [done|]]; simplify_eq/=.
  - by intros [= <-].
  - intros [=].
Qed.



(** A statement that is refused makes the method return [False]. *)
Lemma add_user_word_refused user_id en ru w c e :
  conn (self w) = Some c → broken c = None →
  sql.user_word_values user_id (lower en) (lower ru) = inl e →
  ∃ w', add_user_word user_id en ru w = (Ok false, w').
Proof.
  intros Hc Hb Hck. unfold add_user_word. py_run.
  rewrite Hc, Hb. simpl. rewrite Hck. simpl. rewrite Hc. simpl. rewrite Hb.
  simpl. eexists. f_equal.
Qed.



Example add_dog :
  let after := add_user_word 7 Examples.dog Examples.sobaka
                 (Examples.world_of (Examples.live Examples.apple_cat)
                    (λ _, 0%N)) in
  after.1 = Ok true
  ∧ user_words <$> db_tables after.2
    = Some [ {| uw_id := 1; uw_user := 7; uw_en := of_string "dog";
                uw_ru := [1089; 1086; 1073; 1072; 1082; 1072]%N |} ].
Proof. split; vm_compute; reflexivity. Qed.


(** * Further properties of the code *)

(** ** Weights: order and monotonicity *)

(** X1: a word with only correct answers weighs at most 4, less than the
    10 of a word never attempted; every correct answer keeps the weight or
    lowers it; and from the first mistake on, every further mistake keeps
    the weight or raises it. *)
Theorem weight_order (correct correct' incorrect incorrect' : Z) :
  0 ≤ correct ≤ correct' → 1 ≤ incorrect ≤ incorrect' →
  compute_weight (Some correct') (Some 0) ≤ compute_weight (Some correct) (Some 0)
  ∧ compute_weight (Some correct') (Some incorrect)
    ≤ compute_weight (Some correct) (Some incorrect)
  ∧ compute_weight (Some correct) (Some incorrect)
    ≤ compute_weight (Some correct) (Some incorrect')
  ∧ (1 ≤ correct →
     compute_weight (Some correct) (Some 0) ≤ 4
     ∧ compute_weight (Some correct) (Some 0) < compute_weight None None).
Proof.
  intros Hc Hi. unfold compute_weight.
  repeat match goal with
         | |- context [?a =? ?b] => destruct (Z.eqb_spec a b)
         | |- context [?a <? ?b] => destruct (Z.ltb_spec a b)
         end; simpl; lia.
Qed.

Lemma weight_order_witness :
  compute_weight (Some 3) (Some 0) ≤ compute_weight (Some 1) (Some 0)
  ∧ compute_weight (Some 3) (Some 2) ≤ compute_weight (Some 1) (Some 2)
  ∧ compute_weight (Some 1) (Some 2) ≤ compute_weight (Some 1) (Some 5)
  ∧ (1 ≤ 1 →
     compute_weight (Some 1) (Some 0) ≤ 4
     ∧ compute_weight (Some 1) (Some 0) < compute_weight None None).
Proof. apply (weight_order 1 3 2 5); lia. Defined.

(** ** Grading: which cards can be answered *)

Lemma isspace_true_iff (c : N) :
  isspace c = true
  ↔ ((9 ≤ c ∧ c ≤ 13) ∨ (28 ≤ c ∧ c ≤ 32) ∨ c = 133 ∨ c = 160 ∨ c = 5760
     ∨ (8192 ≤ c ∧ c ≤ 8202) ∨ c = 8232 ∨ c = 8233 ∨ c = 8239 ∨ c = 8287
     ∨ c = 12288)%N.
Proof.
  unfold isspace.
  rewrite !orb_true_iff, !andb_true_iff, !N.leb_le, !N.eqb_eq. tauto.
Qed.

Lemma trimmed_self_iff (s : text) : GradeSpec.trimmed s s ↔ strip s = s.
Proof.
  split; [apply trimmed_unique|].
  intros Hs. rewrite <-Hs at 2. apply strip_trimmed.
Qed.

Lemma trimmed_self_ends (s : text) :
  (∀ c, head s = Some c → isspace c = false) →
  (∀ c, last s = Some c → isspace c = false) →
  strip s = s.
Proof.
  intros Hh Hl. apply trimmed_unique. exists [], [].
  rewrite app_nil_r. repeat split; try done; constructor.
Qed.

(** X2: a card can be answered correctly by some text exactly when its
    English text has no whitespace at either end; the card's own text is
    then a correct answer. *)
Theorem answerable_iff_trimmed (en_text : text) :
  ((∃ submitted, grade en_text submitted = true) ↔ strip en_text = en_text)
  ∧ (strip en_text = en_text → grade en_text en_text = true).
Proof.
  assert (strip en_text = en_text → grade en_text en_text = true) as Hself.
  { intros Hs. unfold grade, Text.eqb. rewrite Hs.
    by apply bool_decide_eq_true. }
  split; [|exact Hself]. split.
  - intros [s Hs]. unfold grade, Text.eqb in Hs.
    apply bool_decide_eq_true in Hs.
    apply (strip_fixed_lower_eq (strip s)); [done | apply strip_idempotent].
  - intros Hs. exists en_text. by apply Hself.
Qed.

Lemma answerable_iff_trimmed_witness :
  grade Examples.apple Examples.apple = true.
Proof.
  apply (proj2 (answerable_iff_trimmed Examples.apple)). by vm_compute.
Defined.

(** ** The candidate set and the card *)

Lemma left_join_row_word user_id (ps : list Progress) (w : sql.WordRow) r :
  r ∈ sql.left_join user_id ps w → row_word r = w.
Proof.
  unfold sql.left_join.
  destruct (filter (sql.joins user_id w) ps) as [|p m].
  - by intros ->%list_elem_of_singleton.
  - by intros (q & -> & _)%list_elem_of_fmap.
Qed.

Lemma left_join_nonempty user_id (ps : list Progress) (w : sql.WordRow) :
  ∃ r, r ∈ sql.left_join user_id ps w.
Proof.
  unfold sql.left_join.
  destruct (filter (sql.joins user_id w) ps) as [|p m];
    eexists; by left.
Qed.

Lemma candidates_row_word t user_id (w : sql.WordRow) :
  w ∈ row_word <$> sql.select_candidates t user_id
  ↔ w ∈ sql.word_union t user_id.
Proof.
  unfold sql.select_candidates. rewrite list_elem_of_fmap. split.
  - intros (r & -> & (w' & Hr & Hw')%list_elem_of_bind).
    by rewrite (left_join_row_word _ _ _ _ Hr).
  - intros Hw.
    destruct (left_join_nonempty user_id (user_word_progress t) w) as [r Hr].
    exists r. split; [by rewrite (left_join_row_word _ _ _ _ Hr)|].
    apply list_elem_of_bind. eauto.
Qed.

(** X3: the words offered to a user are the common words and the words
    this user added, and nothing else: no word of another user is ever a
    candidate. *)
Theorem candidates_are_common_and_own t user_id (w : sql.WordRow) :
  w ∈ row_word <$> sql.select_candidates t user_id
  ↔ (∃ c, c ∈ common_words t
          ∧ w = {| w_en := cw_en c; w_ru := cw_ru c; w_type := common;
                   w_ref := cw_id c |})
    ∨ (∃ u, u ∈ user_words t ∧ uw_user u = user_id
            ∧ w = {| w_en := uw_en u; w_ru := uw_ru u; w_type := user;
                     w_ref := uw_id u |}).
Proof.
  rewrite candidates_row_word. unfold sql.word_union.
  rewrite elem_of_remove_dups, elem_of_app, !list_elem_of_fmap.
  split.
  - intros [(c & -> & Hc)|(u & -> & Hu)]; [left; eauto|].
    apply list_elem_of_filter in Hu as [Hown Hu]. right. eauto.
  - intros [(c & Hc & ->)|(u & Hu & Hown & ->)]; [left; eauto|].
    right. exists u. split; [done|]. by apply list_elem_of_filter.
Qed.

Lemma left_join_counts user_id (ps : list Progress) (w : sql.WordRow) r :
  NoDup ((λ p, (p_user p, p_type p, p_ref p)) <$> ps) →
  r ∈ sql.left_join user_id ps w →
  correct_c r
  = p_correct <$> head (filter (sql.same_key user_id (w_type w) (w_ref w)) ps)
  ∧ incorrect_c r
    = p_incorrect
        <$> head (filter (sql.same_key user_id (w_type w) (w_ref w)) ps).
Proof.
  intros Hnd Hrow. unfold sql.left_join in Hrow.
  rewrite (list_filter_iff (sql.same_key user_id (w_type w) (w_ref w))
             (sql.joins user_id w)); last first.
  { intros p. unfold sql.same_key, sql.joins.
    split; intros (? & ? & ?); repeat split; done. }
  pose proof (filter_same_key_le_1 (λ p, (p_user p, p_type p, p_ref p))
                (sql.joins user_id w) (user_id, w_type w, w_ref w) ps Hnd)
    as Hle.
  destruct (filter (sql.joins user_id w) ps) as [|p [|q m]].
  - by apply list_elem_of_singleton in Hrow as ->.
  - by apply list_elem_of_singleton in Hrow as ->.
  - exfalso. assert (S (S (length m)) ≤ 1)%nat; [|lia].
    apply Hle. intros x (Href & Hty & Hu). by rewrite Hu, <-Hty, <-Href.
Qed.

(** X4: under the constraints of the schema, the counts a candidate row
    carries are those of the user's progress row for that word, and NULL
    when there is none. *)
Theorem candidate_counts_from_progress t user_id row :
  schema_ok t → row ∈ sql.select_candidates t user_id →
  correct_c row
  = p_correct <$> lookup_progress t user_id (w_type (row_word row))
                    (w_ref (row_word row))
  ∧ incorrect_c row
    = p_incorrect <$> lookup_progress t user_id (w_type (row_word row))
                        (w_ref (row_word row)).
Proof.
  intros Hok (w & Hrow & _)%list_elem_of_bind.
  rewrite (left_join_row_word _ _ _ _ Hrow). unfold lookup_progress.
  eapply left_join_counts; [|exact Hrow]. apply (progress_unique _ Hok).
Qed.

Lemma candidate_counts_from_progress_witness :
  Some 3 = p_correct <$> lookup_progress Examples.apple_cat 7 common 2
  ∧ Some 0 = p_incorrect <$> lookup_progress Examples.apple_cat 7 common 2.
Proof.
  apply (candidate_counts_from_progress Examples.apple_cat 7
           {| row_word := {| w_en := Examples.cat; w_ru := Examples.kot;
                             w_type := common; w_ref := 2 |};
              correct_c := Some 3; incorrect_c := Some 0 |}).
  - split; compute_done.
  - apply list_elem_of_In. vm_compute. right. left. reflexivity.
Defined.

(** X5: the card returned for a non-empty candidate set is made from one
    candidate: question, answer and identity are those of the same row.
    Every option is the English text of a candidate, there are between 1
    and 4 options, and the answer is among them exactly once. *)
Theorem card_from_one_candidate user_id w c :
  conn (self w) = Some c → broken c = None →
  sql.select_candidates (tables c) user_id ≠ [] →
  ∃ card row w',
    get_random_card user_id w = (Ok (Some card), w')
    ∧ row ∈ sql.select_candidates (tables c) user_id
    ∧ card_en_word card = w_en (row_word row)
    ∧ card_ru_word card = w_ru (row_word row)
    ∧ card_word_type card = w_type (row_word row)
    ∧ card_word_ref_id card = w_ref (row_word row)
    ∧ (∀ o, o ∈ card_options card →
            o ∈ en_texts (sql.select_candidates (tables c) user_id))
    ∧ (1 ≤ length (card_options card) ≤ 4)%nat
    ∧ length (filter (λ o, o = card_en_word card) (card_options card)) = 1%nat.
Proof.
  intros Hc Hb Hne.
  destruct (get_random_card_live user_id w c Hc Hb Hne)
    as (r & w' & Hrun & card & row & -> & Hrow & Hen & Hru & Hty & Href
        & sampled & Hperm & Hlen & Hsub).
  exists card, row, w'. repeat split; try done.
  - intros o. rewrite Hperm, elem_of_app. intros [Ho | Ho].
    + eapply elem_of_submseteq in Ho; [|exact Hsub].
      by apply list_elem_of_filter in Ho as [_ Ho].
    + apply list_elem_of_singleton in Ho as ->.
      by apply (list_elem_of_fmap_2 (λ r, w_en (row_word r))).
  - rewrite Hperm, length_app. simpl. lia.
  - rewrite Hperm, length_app. simpl. lia.
  - rewrite Hen, Hperm, filter_app, length_app.
    rewrite filter_none; [by rewrite filter_cons_True|].
    intros o Ho ->. eapply elem_of_submseteq in Ho; [|exact Hsub].
    by apply list_elem_of_filter in Ho as [Hne' _].
Qed.

Lemma card_from_one_candidate_witness :
  ∃ card row w',
    get_random_card 7 (Examples.world_of (Examples.live Examples.apple_twice)
                         (λ _, 4503599627370496%N))
    = (Ok (Some card), w')
    ∧ row ∈ sql.select_candidates Examples.apple_twice 7
    ∧ card_en_word card = w_en (row_word row)
    ∧ card_ru_word card = w_ru (row_word row)
    ∧ card_word_type card = w_type (row_word row)
    ∧ card_word_ref_id card = w_ref (row_word row)
    ∧ (∀ o, o ∈ card_options card →
            o ∈ en_texts (sql.select_candidates Examples.apple_twice 7))
    ∧ (1 ≤ length (card_options card) ≤ 4)%nat
    ∧ length (filter (λ o, o = card_en_word card) (card_options card)) = 1%nat.
Proof.
  apply (card_from_one_candidate 7
           (Examples.world_of (Examples.live Examples.apple_twice)
              (λ _, 4503599627370496%N))
           (Examples.connection_of Examples.apple_twice) eq_refl eq_refl).
  vm_compute. discriminate.
Defined.

(** ** [get_random_card] writes nothing *)

Section writes_nothing.

Lemma ro_ret {A} (a : A) : writes_nothing (mret a : Py A).
Proof. intros w. by repeat split. Qed.

Lemma ro_raise {A} e : writes_nothing (raise e : Py A).
Proof. intros w. by repeat split. Qed.

Lemma ro_logger lvl msg : writes_nothing (logger lvl msg).
Proof. intros w. repeat split; try done. simpl. by apply prefix_app_r. Qed.

Lemma ro_draw : writes_nothing draw.
Proof. intros w. by repeat split. Qed.

Lemma ro_get_self : writes_nothing get_self.
Proof. intros w. by repeat split. Qed.

Lemma ro_bind {A B} (m : Py A) (f : A → Py B) :
  writes_nothing m → (∀ a, writes_nothing (f a)) → writes_nothing (m ≫= f).
Proof.
  intros Hm Hf w. specialize (Hm w). unfold mbind, Py_bind.
  destruct (m w) as [[a|e] w1]; simpl in *; [|done].
  destruct (Hf a w1) as (Hs & Hl).
  destruct Hm as (Hs1 & Hl1).
  split; [congruence | by etrans].
Qed.

Lemma ro_try_except {A} (m : Py A) (h : Exn → option (Py A)) :
  writes_nothing m → (∀ e k, h e = Some k → writes_nothing k) →
  writes_nothing (try_except m h).
Proof.
  intros Hm Hh w. specialize (Hm w). unfold try_except.
  destruct (m w) as [[a|e] w1]; simpl in *; [done|].
  destruct (h e) as [k|] eqn:He; [|done].
  destruct (Hh e k He w1) as (Hs & Hl).
  destruct Hm as (Hs1 & Hl1).
  split; [congruence | by etrans].
Qed.

Lemma ro_randbelow n : writes_nothing (random.randbelow n).
Proof. apply ro_bind; [apply ro_draw | intros; apply ro_ret]. Qed.

Lemma ro_random : writes_nothing random.random.
Proof. apply ro_bind; [apply ro_draw | intros; apply ro_ret]. Qed.

Lemma ro_choice {A} (seq : list A) : writes_nothing (random.choice seq).
Proof.
  unfold random.choice. destruct seq; [apply ro_raise|].
  apply ro_bind; [apply ro_randbelow|]. intros j.
  case_match; [apply ro_ret | apply ro_raise].
Qed.

Lemma ro_choices {A} (population : list A) weights k :
  writes_nothing (random.choices population weights k).
Proof.
  unfold random.choices. case_decide; [apply ro_raise|].
  case_match; [|apply ro_raise]. case_match; [apply ro_raise|].
  induction k as [|k IH]; simpl; [apply ro_ret|].
  apply ro_bind.
  - unfold random.choices_draw. apply ro_bind; [apply ro_random|].
    intros u. repeat case_match; apply ro_ret || apply ro_raise.
  - intros x. apply ro_bind; [exact IH | intros; apply ro_ret].
Qed.

Lemma ro_sample_loop {A} k : ∀ n i (pool : list A),
  writes_nothing (random.sample_loop k n i pool).
Proof.
  induction k as [|k IH]; intros n i pool; simpl; [apply ro_ret|].
  apply ro_bind; [apply ro_randbelow|]. intros j.
  repeat case_match; try apply ro_raise.
  apply ro_bind; [apply IH | intros; apply ro_ret].
Qed.

Lemma ro_sample {A} (population : list A) k :
  writes_nothing (random.sample population k).
Proof.
  unfold random.sample. case_decide; [apply ro_sample_loop | apply ro_raise].
Qed.

Lemma ro_shuffle_loop {A} i : ∀ x : list A,
  writes_nothing (random.shuffle_loop i x).
Proof.
  induction i as [|i IH]; intros x; simpl; [apply ro_ret|].
  apply ro_bind; [apply ro_randbelow|]. intros j.
  repeat case_match; try apply ro_raise. apply IH.
Qed.

Lemma ro_shuffle {A} (x : list A) : writes_nothing (random.shuffle x).
Proof. apply ro_shuffle_loop. Qed.

Lemma ro_select_word user_id population weights :
  writes_nothing (select_word user_id population weights).
Proof.
  unfold select_word. destruct population as [|p ps].
  { apply ro_bind; [apply ro_logger | intros; apply ro_ret]. }
  case_decide.
  - apply ro_bind; [apply ro_logger|]. intros _.
    apply ro_bind; [apply ro_choice | intros; apply ro_ret].
  - apply ro_bind; [|intros; apply ro_ret].
    apply ro_try_except.
    + apply ro_bind; [apply ro_logger|]. intros _.
      apply ro_bind; [apply ro_choices|]. intros drawn.
      case_match; [apply ro_ret | apply ro_raise].
    + intros e k Hk. destruct e; try done. injection Hk as <-.
      apply ro_bind; [apply ro_logger | intros _; exact (ro_choice (p :: ps))].
Qed.

Lemma ro_make_card rows sel : writes_nothing (make_card rows sel).
Proof.
  unfold make_card. apply ro_bind; [apply ro_sample|]. intros sampled.
  apply ro_bind; [apply ro_shuffle | intros; apply ro_ret].
Qed.

Lemma ro_rollback : writes_nothing connection.rollback.
Proof.
  unfold connection.rollback. apply ro_bind; [apply ro_get_self|].
  intros db. case_match; [|apply ro_raise].
  unfold connection.check_alive. case_match; [apply ro_raise | apply ro_ret].
Qed.

End writes_nothing.

(** X6: [get_random_card] writes nothing to the database. Whatever the
    store, the raw draws and the outcome (a card, [None], a failure that
    is handled), the stored tables and the sequence of ids are afterwards
    as before, and the log has only been appended to. *)
Theorem get_random_card_writes_nothing user_id :
  writes_nothing (get_random_card user_id).
Proof.
  unfold get_random_card. apply ro_bind; [apply ro_get_self|]. intros db.
  destruct (conn db) as [c|].
  2: { apply ro_bind; [apply ro_logger | intros; apply ro_ret]. }
  apply ro_try_except.
  - apply ro_bind.
    { unfold connection.check_alive.
      case_match; [apply ro_raise | apply ro_ret]. }
    intros _. case_match.
    { apply ro_bind; [apply ro_logger | intros; apply ro_ret]. }
    unfold draw_card. apply ro_bind; [apply ro_select_word|].
    intros [sel|]; [|apply ro_ret].
    apply ro_bind; [apply ro_make_card | intros; apply ro_ret].
  - intros e k [= <-]. destruct e.
    1-3: apply ro_bind; [apply ro_logger | intros; apply ro_ret].
    apply ro_bind; [apply ro_logger|]. intros _.
    apply ro_bind; [|intros; apply ro_ret].
    apply ro_try_except; [apply ro_rollback|].
    intros rb k [= <-]. apply ro_logger.
Qed.

(** ** Writers keep the constraints of the schema *)

Lemma upsert_progress_schema t t' user_id wt ref (ic : bool) now :
  schema_ok t →
  sql.upsert_progress t user_id wt ref ic now = inr t' →
  schema_ok t'.
Proof.
  intros Hok. unfold sql.upsert_progress.
  destruct (negb _); [intros [=]|].
  case_bool_decide as Hex.
  - case_bool_decide as Hov; [intros [=]|]. intros [= <-].
    destruct Hok. split; simpl; try done.
    + rewrite <-list_fmap_compose.
      erewrite list_fmap_ext; [exact progress_unique0|].
      intros _ p _. simpl. by case_decide.
    + apply Forall_fmap. eapply Forall_impl; [exact progress_check0|].
      intros p [Hc Hi]. simpl. case_decide; [|done].
      simpl. destruct ic; lia.
  - intros [= <-]. destruct Hok. split; simpl; try done.
    + rewrite fmap_app. apply NoDup_app. split; [done|]. split.
      * intros k (p & -> & Hp)%list_elem_of_fmap Hk.
        apply list_elem_of_singleton in Hk. simpl in Hk.
        apply Hex, Exists_exists. exists p. split; [done|].
        unfold sql.same_key. by injection Hk as -> -> ->.
      * apply NoDup_singleton.
    + apply Forall_app. split; [done|]. apply Forall_singleton. simpl.
      destruct ic; lia.
Qed.

(** What any call of [record_answer] leaves in the store. *)
Lemma record_answer_outcome user_id wt ref ic w :
  db_tables (record_answer user_id wt ref ic w).2 = db_tables w
  ∨ ∃ c t', conn (self w) = Some c
      ∧ sql.upsert_progress (tables c) user_id wt ref ic (clock w) = inr t'
      ∧ db_tables (record_answer user_id wt ref ic w).2 = Some t'.
Proof.
  unfold record_answer, db_tables. py_run.
  destruct (conn (self w)) as [c|] eqn:Hc; [|left; simpl; by rewrite Hc].
  destruct (broken c) as [e|] eqn:Hb; simpl.
  { rewrite Hc. simpl. rewrite Hb. simpl. left. by rewrite Hc. }
  destruct (sql.upsert_progress _ _ _ _ _ _) as [e|t'] eqn:Hup; simpl.
  { rewrite Hc. simpl. rewrite Hb. simpl. left. by rewrite Hc. }
  rewrite Hc. simpl. rewrite Hb. simpl. right. eauto.
Qed.

(** X7: [record_answer] keeps the store well-formed, whatever it returns:
    the constraints of the schema hold afterwards, the word tables are
    untouched, and no counter of any key has gone down. *)
Theorem record_answer_keeps_schema user_id wt ref (ic : bool) w t :
  db_tables w = Some t → schema_ok t →
  ∃ t',
    db_tables (record_answer user_id wt ref ic w).2 = Some t'
    ∧ schema_ok t'
    ∧ common_words t' = common_words t ∧ user_words t' = user_words t
    ∧ ∀ u wt' r,
        correct_count t u wt' r ≤ correct_count t' u wt' r
        ∧ incorrect_count t u wt' r ≤ incorrect_count t' u wt' r.
Proof.
  intros Ht Hok.
  destruct (record_answer_outcome user_id wt ref ic w)
    as [Hsame | (c & t' & Hc & Hup & Ht')].
  { exists t. rewrite Hsame. do 4 (split; [done|]). intros; lia. }
  unfold db_tables in Ht. rewrite Hc in Ht. simpl in Ht. injection Ht as <-.
  exists t'. split; [done|]. split; [by eapply upsert_progress_schema|].
  destruct (upsert_progress_inr _ _ _ _ _ _ _ Hup)
    as (Hcw & Huw & Hcorrect & Hincorrect & _ & _ & Hothers).
  split; [done|]. split; [done|]. intros u wt' r.
  destruct (decide ((u, wt', r) = (user_id, wt, ref))) as [[= -> -> ->]|Hne].
  - rewrite Hcorrect, Hincorrect. destruct ic; lia.
  - unfold correct_count, incorrect_count. rewrite (Hothers _ _ _ Hne). lia.
Qed.

Lemma record_answer_keeps_schema_witness :
  ∃ t',
    db_tables (record_answer 7 common 1 false
                 (Examples.world_of (Examples.live Examples.apple_cat)
                    (λ _, 0%N))).2 = Some t'
    ∧ schema_ok t'.
Proof.
  destruct (record_answer_keeps_schema 7 common 1 false
              (Examples.world_of (Examples.live Examples.apple_cat) (λ _, 0%N))
              Examples.apple_cat eq_refl)
    as (t' & Ht' & Hok & _).
  - split; compute_done.
  - exists t'. split; [exact Ht' | exact Hok].
Defined.

Lemma insert_user_word_schema t t' id user_id en ru result :
  schema_ok t →
  sql.insert_user_word t id user_id en ru = inr (result, t') →
  schema_ok t'.
Proof.
  intros Hok. unfold sql.insert_user_word.
  case_bool_decide as Hex; [by intros [= _ <-]|].
  case_bool_decide as Hpk; [intros [=]|]. intros [= _ <-].
  destruct Hok. split; simpl; try done.
  - rewrite fmap_app. apply NoDup_app. split; [done|]. split.
    + intros k (u & -> & Hu)%list_elem_of_fmap Hk.
      apply list_elem_of_singleton in Hk. simpl in Hk.
      apply Hpk, Exists_exists. eauto.
    + apply NoDup_singleton.
  - rewrite fmap_app. apply NoDup_app. split; [done|]. split.
    + intros k (u & -> & Hu)%list_elem_of_fmap Hk.
      apply list_elem_of_singleton in Hk. simpl in Hk.
      injection Hk as Hk1 Hk2.
      apply Hex, Exists_exists. eauto.
    + apply NoDup_singleton.
Qed.

(** What any call of [add_user_word] leaves in the store. *)
Lemma add_user_word_outcome user_id en ru w :
  db_tables (add_user_word user_id en ru w).2 = db_tables w
  ∨ ∃ c id t', conn (self w) = Some c
      ∧ sql.insert_user_word (tables c) id user_id (sql.stored (lower en))
          (sql.stored (lower ru))
        = inr (Some id, t')
      ∧ (add_user_word user_id en ru w).1 = Ok true
      ∧ db_tables (add_user_word user_id en ru w).2 = Some t'.
Proof.
  unfold add_user_word, db_tables. py_run.
  destruct (conn (self w)) as [c|] eqn:Hc; [|left; simpl; by rewrite Hc].
  destruct (broken c) as [e|] eqn:Hb; simpl.
  { rewrite Hc. simpl. rewrite Hb. simpl. left. by rewrite Hc. }
  destruct (sql.user_word_values _ _ _) as [e|[en' ru']] eqn:Hck; simpl.
  { rewrite Hc. simpl. rewrite Hb. simpl. left. by rewrite Hc. }
  destruct (user_word_values_inr _ _ _ _ _ Hck) as (-> & -> & _).
  rewrite Hc. simpl.
  destruct (sql.insert_user_word _ _ _ _ _) as [e|[result t']] eqn:Hins; simpl.
  { rewrite Hb. simpl. by left. }
  rewrite Hb. simpl.
  pose proof Hins as Hins'. unfold sql.insert_user_word in Hins'.
  case_bool_decide; [|case_bool_decide; [done|]]; simplify_eq/=.
  - by left.
  - right. eauto 10.
Qed.

Lemma lower_stored_lower (s : text) :
  lower (sql.stored (lower s)) = sql.stored (lower s).
Proof.
  apply lower_of_stable. unfold sql.stored. apply Forall_take, lower_stable.
Qed.

(** X8: [add_user_word] keeps the store well-formed, whatever it returns:
    the constraints of the schema hold afterwards, stored English texts
    stay lower-case, the user words are those stored before, unchanged and
    in their order, with at most one row after them, which holds the
    lower-cased texts as the column keeps them; common words and progress
    are untouched. *)
Theorem add_user_word_keeps_schema user_id en ru w t :
  db_tables w = Some t → schema_ok t →
  ∃ t',
    db_tables (add_user_word user_id en ru w).2 = Some t'
    ∧ schema_ok t'
    ∧ (lowercase_stored t → lowercase_stored t')
    ∧ (user_words t' = user_words t
       ∨ ∃ id, user_words t'
               = user_words t
                 ++ [ {| uw_id := id; uw_user := user_id;
                         uw_en := sql.stored (lower en);
                         uw_ru := sql.stored (lower ru) |} ])
    ∧ common_words t' = common_words t
    ∧ user_word_progress t' = user_word_progress t.
Proof.
  intros Ht Hok.
  destruct (add_user_word_outcome user_id en ru w)
    as [Hsame | (c & id & t' & Hc & Hins & _ & Ht')].
  { exists t. rewrite Hsame. do 2 (split; [done|]). split; [tauto|].
    split; [by left|]. done. }
  unfold db_tables in Ht. rewrite Hc in Ht. simpl in Ht. injection Ht as <-.
  exists t'. split; [done|]. split; [by eapply insert_user_word_schema|].
  unfold sql.insert_user_word in Hins.
  case_bool_decide; [done|]. case_bool_decide; [done|].
  injection Hins as <-. simpl. split; [|split; [|done]].
  - intros Hl. apply Forall_app. split; [done|].
    apply Forall_singleton. simpl. apply lower_stored_lower.
  - right. by exists id.
Qed.

Lemma add_user_word_keeps_schema_witness :
  ∃ t',
    db_tables (add_user_word 7 Examples.dog Examples.sobaka
                 (Examples.world_of (Examples.live Examples.apple_cat)
                    (λ _, 0%N))).2 = Some t'
    ∧ schema_ok t'
    ∧ length (user_words t') = 1%nat.
Proof.
  destruct (add_user_word_keeps_schema 7 Examples.dog Examples.sobaka
              (Examples.world_of (Examples.live Examples.apple_cat) (λ _, 0%N))
              Examples.apple_cat eq_refl)
    as (t' & Ht' & Hok & _).
  - split; compute_done.
  - exists t'. split; [exact Ht'|]. split; [exact Hok|].
    vm_compute in Ht'. by injection Ht' as <-.
Defined.

(** ** Adding a word twice *)

Lemma add_user_word_true_conn user_id en ru w w' :
  add_user_word user_id en ru w = (Ok true, w') →
  ∃ c', conn (self w') = Some c' ∧ broken c' = None
    ∧ has_user_word (tables c') user_id (sql.stored (lower en)).
Proof.
  unfold add_user_word. py_run.
  destruct (conn (self w)) as [c|] eqn:Hc; [|intros [=]].
  destruct (broken c) as [e|] eqn:Hb; simpl.
  { rewrite Hc. simpl. rewrite Hb. intros [=]. }
  destruct (sql.user_word_values _ _ _) as [e|[en' ru']] eqn:Hck; simpl.
  { rewrite Hc. simpl. rewrite Hb. intros [=]. }
  destruct (user_word_values_inr _ _ _ _ _ Hck) as (-> & -> & _).
  rewrite Hc. simpl.
  destruct (sql.insert_user_word _ _ _ _ _) as [e|[result t']] eqn:Hins; simpl.
  { rewrite Hb. intros [=]. }
  rewrite Hb. simpl.
  unfold sql.insert_user_word in Hins.
  case_bool_decide as Hex; [|case_bool_decide; [done|]]; simplify_eq/=.
  - intros [=].
  - intros [= <-]. simpl. eexists. split; [done|]. split; [done|].
    unfold has_user_word. simpl. apply Exists_app. right.
    by apply Exists_cons_hd.
Qed.

Lemma add_user_word_duplicate user_id en ru w c en' ru' :
  conn (self w) = Some c → broken c = None →
  sql.user_word_values user_id (lower en) (lower ru) = inr (en', ru') →
  has_user_word (tables c) user_id en' →
  ∃ w', add_user_word user_id en ru w = (Ok false, w')
        ∧ db_tables w' = db_tables w.
Proof.
  intros Hc Hb Hck Hhas. unfold add_user_word, db_tables. py_run.
  rewrite Hc, Hb. simpl. rewrite Hck. simpl. rewrite Hc. simpl.
  unfold sql.insert_user_word.
  rewrite bool_decide_eq_true_2 by done. simpl. rewrite Hb. simpl.
  eexists. split; [done|]. simpl. done.
Qed.

(** X9: once a word has been added, adding it again for the same user, in
    whatever mix of upper and lower case and with whatever translation,
    returns [False] and leaves the stored tables as they are. *)
Theorem add_user_word_again user_id en ru en2 ru2 w1 w1' w2 :
  add_user_word user_id en ru w1 = (Ok true, w1') →
  self w2 = self w1' →
  lower en2 = lower en →
  (length (lower ru2) ≤ VARCHAR_LEN)%nat →
  ∃ w2', add_user_word user_id en2 ru2 w2 = (Ok false, w2')
         ∧ db_tables w2' = db_tables w2.
Proof.
  intros Hrun Hself Hen Hru.
  destruct (add_user_word_true_conn _ _ _ _ _ Hrun)
    as (c' & Hc' & Hb' & Hhas).
  rewrite <-Hself in Hc'.
  destruct (sql.user_word_values user_id (lower en2) (lower ru2))
    as [e|[en' ru']] eqn:Hck.
  - destruct (add_user_word_refused user_id en2 ru2 w2 c' e Hc' Hb' Hck)
      as [w2' Hw2']. exists w2'. split; [done|].
    by eapply add_user_word_false_unchanged.
  - apply (add_user_word_duplicate user_id en2 ru2 w2 c' en' ru'); try done.
    destruct (user_word_values_inr _ _ _ _ _ Hck) as (-> & _).
    by rewrite Hen.
Qed.

Lemma add_user_word_again_witness :
  ∃ w2', add_user_word 7 (of_string "DOG") Examples.kot
           (add_user_word 7 Examples.dog Examples.sobaka
              (Examples.world_of (Examples.live Examples.apple_cat)
                 (λ _, 0%N))).2
         = (Ok false, w2')
         ∧ db_tables w2'
           = db_tables (add_user_word 7 Examples.dog Examples.sobaka
                          (Examples.world_of (Examples.live Examples.apple_cat)
                             (λ _, 0%N))).2.
Proof.
  apply (add_user_word_again 7 Examples.dog Examples.sobaka
           (of_string "DOG") Examples.kot
           (Examples.world_of (Examples.live Examples.apple_cat) (λ _, 0%N))
           (add_user_word 7 Examples.dog Examples.sobaka
              (Examples.world_of (Examples.live Examples.apple_cat)
                 (λ _, 0%N))).2).
  - reflexivity.
  - reflexivity.
  - reflexivity.
  - vm_compute. lia.
Defined.

(** ** An answer and the next draw *)

Lemma candidates_same_words t t' user_id row :
  schema_ok t → schema_ok t' →
  common_words t' = common_words t → user_words t' = user_words t →
  row ∈ sql.select_candidates t' user_id →
  lookup_progress t' user_id (w_type (row_word row)) (w_ref (row_word row))
  = lookup_progress t user_id (w_type (row_word row)) (w_ref (row_word row)) →
  row ∈ sql.select_candidates t user_id.
Proof.
  intros Hok Hok' Hcw Huw Hrow Hlook.
  assert (row_word row ∈ row_word <$> sql.select_candidates t user_id) as Hw.
  { apply candidates_row_word.
    assert (sql.word_union t user_id = sql.word_union t' user_id) as ->
      by (unfold sql.word_union; by rewrite Hcw, Huw).
    apply candidates_row_word. by apply list_elem_of_fmap_2. }
  apply list_elem_of_fmap in Hw as (row0 & Hw0 & Hrow0).
  pose proof Hrow0 as (w0 & Hj0 & _)%list_elem_of_bind.
  pose proof Hrow as (w1 & Hj1 & _)%list_elem_of_bind.
  destruct (left_join_counts _ _ _ _ (progress_unique _ Hok) Hj0) as [Hc0 Hi0].
  destruct (left_join_counts _ _ _ _ (progress_unique _ Hok') Hj1) as [Hc Hi].
  rewrite <-(left_join_row_word _ _ _ _ Hj0) in Hc0, Hi0.
  rewrite <-(left_join_row_word _ _ _ _ Hj1) in Hc, Hi.
  unfold lookup_progress in Hlook.
  rewrite <-Hw0, <-Hlook, <-Hc in Hc0. rewrite <-Hw0, <-Hlook, <-Hi in Hi0.
  replace row with row0; [done|].
  destruct row, row0. simpl in *. congruence.
Qed.

(** X10: after an answer has been recorded, the word answered is drawn
    with the weight of its new counts, and every other candidate row, of
    this user or of any other, is as it was before the answer. *)
Theorem answer_moves_one_weight user_id wt ref (ic : bool) w w' t :
  db_tables w = Some t → schema_ok t →
  record_answer user_id wt ref ic w = (Ok true, w') →
  ∃ t',
    db_tables w' = Some t'
    ∧ (∀ row, row ∈ sql.select_candidates t' user_id →
         identity row = (wt, ref) →
         row_weight row
         = compute_weight
             (Some (correct_count t user_id wt ref + (if ic then 1 else 0)))
             (Some (incorrect_count t user_id wt ref + (if ic then 0 else 1))))
    ∧ (∀ u row, row ∈ sql.select_candidates t' u →
         (u, identity row) ≠ (user_id, (wt, ref)) →
         row ∈ sql.select_candidates t u).
Proof.
  intros Ht Hok Hrun.
  destruct (record_answer_true_inv _ _ _ _ _ _ Hrun)
    as (c & t' & Hc & Hb & Hup & Ht' & _).
  unfold db_tables in Ht. rewrite Hc in Ht. simpl in Ht. injection Ht as <-.
  pose proof (upsert_progress_schema _ _ _ _ _ _ _ Hok Hup) as Hok'.
  destruct (upsert_progress_inr _ _ _ _ _ _ _ Hup)
    as (Hcw & Huw & Hcorrect & Hincorrect & Hlast & _ & Hothers).
  exists t'. split; [done|]. split.
  - intros row (w0 & Hj & _)%list_elem_of_bind Hid.
    destruct (left_join_counts _ _ _ _ (progress_unique _ Hok') Hj)
      as [Hcc Hic].
    rewrite <-(left_join_row_word _ _ _ _ Hj) in Hcc, Hic.
    unfold identity in Hid. injection Hid as Hty Href.
    rewrite Hty, Href in Hcc, Hic.
    unfold row_weight. rewrite Hcc, Hic, <-Hcorrect, <-Hincorrect.
    unfold correct_count, incorrect_count, last_tested, lookup_progress in *.
    destruct (head _) as [p|]; [done|]. done.
  - intros u row Hrow Hne.
    apply (candidates_same_words (tables c) t' u row); try done.
    apply Hothers. intros [= -> Hty Href]. apply Hne.
    unfold identity. by rewrite Hty, Href.
Qed.

Lemma answer_moves_one_weight_witness :
  ∃ t',
    db_tables (record_answer 7 common 2 false
                 (Examples.world_of (Examples.live Examples.apple_cat)
                    (λ _, 0%N))).2 = Some t'
    ∧ (∀ row, row ∈ sql.select_candidates t' 7 →
         identity row = (common, 2) →
         row_weight row = compute_weight (Some (3 + 0)) (Some (0 + 1))).
Proof.
  destruct (answer_moves_one_weight 7 common 2 false
              (Examples.world_of (Examples.live Examples.apple_cat) (λ _, 0%N))
              (record_answer 7 common 2 false
                 (Examples.world_of (Examples.live Examples.apple_cat)
                    (λ _, 0%N))).2
              Examples.apple_cat eq_refl)
    as (t' & Ht' & Hweight & _).
  - split; compute_done.
  - reflexivity.
  - exists t'. split; [exact Ht' | exact Hweight].
Defined.

(** ** [delete_user_word] *)

(** Unfold the plumbing of [Db]. *)
Ltac db_run :=
  cbv [mbind Db_bind Py_bind mret Db_ret Py_ret lift db_logger db_try
       commit_preferences get_preferences set_preferences raise
       connection.rollback connection.commit connection.check_alive
       connection.returning get_self set_self];
  simpl.

Section list_keys.

Context {A B : Type} `{EqDecision A}.

Lemma NoDup_fmap_inj_in (f : A → B) (l : list A) x y :
  NoDup (f <$> l) → x ∈ l → y ∈ l → f x = f y → x = y.
Proof.
  induction l as [|z l IH]; [by intros _ ?%not_elem_of_nil|].
  rewrite fmap_cons, NoDup_cons. intros [Hz Hnd] Hx Hy Hxy.
  apply elem_of_cons in Hx as [->|Hx]; apply elem_of_cons in Hy as [->|Hy].
  - done.
  - exfalso. apply Hz. rewrite Hxy. by apply list_elem_of_fmap_2.
  - exfalso. apply Hz. rewrite <-Hxy. by apply list_elem_of_fmap_2.
  - by apply IH.
Qed.

Lemma filter_ext_in (P Q : A → Prop) `{∀ x, Decision (P x)}
    `{∀ x, Decision (Q x)} (l : list A) :
  (∀ x, x ∈ l → P x ↔ Q x) → filter P l = filter Q l.
Proof.
  induction l as [|z l IH]; intros Hl; [done|].
  rewrite !filter_cons.
  assert (filter P l = filter Q l) as ->.
  { apply IH. intros x Hx. apply Hl. by right. }
  pose proof (Hl z (list_elem_of_here _ _)) as Hz.
  destruct (decide (P z)), (decide (Q z)); try done; tauto.
Qed.

End list_keys.

Lemma select_user_word_id_Some t user_id en :
  has_user_word t user_id en →
  ∃ u, u ∈ user_words t ∧ uw_user u = user_id ∧ uw_en u = en
       ∧ sql2.select_user_word_id t user_id en = Some (uw_id u).
Proof.
  unfold has_user_word, sql2.select_user_word_id.
  intros (u & Hu & HP)%Exists_exists.
  assert (u ∈ filter (λ u, uw_user u = user_id ∧ uw_en u = en) (user_words t))
    as Hin by by apply list_elem_of_filter.
  destruct (filter _ _) as [|v vs] eqn:Hf; [by apply not_elem_of_nil in Hin|].
  assert (v ∈ filter (λ u, uw_user u = user_id ∧ uw_en u = en) (user_words t))
    as Hv by (rewrite Hf; left).
  apply list_elem_of_filter in Hv as [[Hvu Hve] Hv]. exists v. done.
Qed.

Lemma select_user_word_id_None t user_id en :
  ¬ has_user_word t user_id en →
  sql2.select_user_word_id t user_id en = None.
Proof.
  unfold has_user_word, sql2.select_user_word_id. intros Hno.
  rewrite filter_none; [done|].
  intros u Hu HP. apply Hno, Exists_exists. eauto.
Qed.

(** Deleting a word that is stored. *)
Lemma delete_user_word_found user_id en s c :
  conn (self (world s)) = Some c → broken c = None → schema_ok (tables c) →
  sql.adaptable (lower en) = true →
  has_user_word (tables c) user_id (lower en) →
  ∃ s' t' id,
    delete_user_word user_id en s = (Ok true, s')
    ∧ db_tables (world s') = Some t'
    ∧ sql2.select_user_word_id (tables c) user_id (lower en) = Some id
    ∧ user_words t'
      = filter (λ u, ¬ (uw_user u = user_id ∧ uw_en u = lower en))
          (user_words (tables c))
    ∧ common_words t' = common_words (tables c)
    ∧ user_word_progress t'
      = filter (λ p, ¬ sql.same_key user_id user id p)
          (user_word_progress (tables c)).
Proof.
  intros Hc Hb Hok Had Hhas.
  destruct (select_user_word_id_Some _ _ _ Hhas) as (u & Hu & Huu & Hue & Hsel).
  unfold delete_user_word, db_tables. db_run. rewrite Hc, Hb. simpl.
  rewrite Had. simpl. rewrite Hsel. simpl. rewrite Hc. simpl. rewrite Hb. simpl.
  rewrite bool_decide_eq_true_2; last first.
  { assert (u ∈ filter (λ v, uw_id v = uw_id u) (user_words (tables c)))
      as Hin by by apply list_elem_of_filter.
    destruct (filter _ _); [by apply not_elem_of_nil in Hin | simpl; lia]. }
  eexists _, _, (uw_id u). split; [done|]. simpl.
  split; [done|]. split; [done|]. split; [|done].
  apply filter_ext_in. intros v Hv. split.
  - intros Hid [Hvu Hve]. apply Hid. f_equal.
    apply (NoDup_fmap_inj_in (λ u, (uw_user u, uw_en u)) (user_words (tables c)));
      [apply (uq_user_word _ Hok) | done | done | by rewrite Hvu, Hve, Huu, Hue].
  - intros Hne Hid. apply Hne.
    assert (v = u) as ->; [|done].
    by apply (NoDup_fmap_inj_in uw_id (user_words (tables c)));
      [apply (user_pk _ Hok) | | |].
Qed.

(** X11: with a live connection and a well-formed store,
    [delete_user_word] looks the word up by its lower-cased text. When the
    user has no such word it returns [False] and changes nothing. When the
    user has it, under a text that can be sent to the server, it returns
    [True]; that word of that user is gone, every other user word and all
    common words stay, and the progress rows that go are those of this
    user for this word. *)
Theorem delete_user_word_result user_id en s c :
  conn (self (world s)) = Some c → broken c = None → schema_ok (tables c) →
  (¬ has_user_word (tables c) user_id (lower en) →
   ∃ s', delete_user_word user_id en s = (Ok false, s')
         ∧ world s' = world s
         ∧ user_preferences s' = user_preferences s)
  ∧ (has_user_word (tables c) user_id (lower en) →
     sql.adaptable (lower en) = true →
     ∃ s' t' id,
       delete_user_word user_id en s = (Ok true, s')
       ∧ db_tables (world s') = Some t'
       ∧ ¬ has_user_word t' user_id (lower en)
       ∧ (∀ u, u ∈ user_words t'
               ↔ u ∈ user_words (tables c)
                 ∧ ¬ (uw_user u = user_id ∧ uw_en u = lower en))
       ∧ common_words t' = common_words (tables c)
       ∧ (∀ p, p ∈ user_word_progress t'
               ↔ p ∈ user_word_progress (tables c)
                 ∧ ¬ (p_user p = user_id ∧ p_type p = user ∧ p_ref p = id))
       ∧ (∃ u, u ∈ user_words (tables c) ∧ uw_id u = id
               ∧ uw_user u = user_id ∧ uw_en u = lower en)).
Proof.
  intros Hc Hb Hok. split.
  - intros Hno. unfold delete_user_word. db_run. rewrite Hc, Hb. simpl.
    destruct (sql.adaptable (lower en)); simpl.
    + rewrite (select_user_word_id_None _ _ _ Hno). simpl.
      eexists. split; [done|]. split; [|done]. by destruct (world s).
    + rewrite Hc. simpl. rewrite Hb. simpl.
      eexists. split; [done|]. split; [|done]. by destruct (world s).
  - intros Hhas Had.
    destruct (delete_user_word_found user_id en s c Hc Hb Hok Had Hhas)
      as (s' & t' & id & Hrun & Ht' & Hsel & Huw & Hcw & Hpr).
    exists s', t', id. split; [done|]. split; [done|].
    split; [|split; [|split; [done|split]]].
    + unfold has_user_word. rewrite Huw, Exists_exists.
      intros (u & Hu & HP). by apply list_elem_of_filter in Hu as [Hn _].
    + intros u. rewrite Huw, list_elem_of_filter. tauto.
    + intros p. rewrite Hpr, list_elem_of_filter. unfold sql.same_key. tauto.
    + destruct (select_user_word_id_Some _ _ _ Hhas)
        as (u & Hu & Huu & Hue & Hsel').
      exists u. rewrite Hsel in Hsel'. by injection Hsel' as ->.
Qed.

Lemma with_dog_schema_ok : schema_ok MoreExamples.with_dog.
Proof. split; compute_done. Qed.

Lemma delete_user_word_result_witness :
  ∃ s' t' id,
    delete_user_word 7 (of_string "DOG")
      (MoreExamples.env MoreExamples.with_dog) = (Ok true, s')
    ∧ db_tables (world s') = Some t'
    ∧ ¬ has_user_word t' 7 (lower (of_string "DOG"))
    ∧ (∀ u, u ∈ user_words t'
            ↔ u ∈ user_words MoreExamples.with_dog
              ∧ ¬ (uw_user u = 7 ∧ uw_en u = lower (of_string "DOG")))
    ∧ common_words t' = common_words MoreExamples.with_dog
    ∧ (∀ p, p ∈ user_word_progress t'
            ↔ p ∈ user_word_progress MoreExamples.with_dog
              ∧ ¬ (p_user p = 7 ∧ p_type p = user ∧ p_ref p = id))
    ∧ (∃ u, u ∈ user_words MoreExamples.with_dog ∧ uw_id u = id
            ∧ uw_user u = 7 ∧ uw_en u = lower (of_string "DOG")).
Proof.
  apply (proj2 (delete_user_word_result 7 (of_string "DOG")
                  (MoreExamples.env MoreExamples.with_dog)
                  (Examples.connection_of MoreExamples.with_dog)
                  eq_refl eq_refl with_dog_schema_ok)); compute_done.
Defined.

(** ** Adding a word and deleting it again *)

Lemma add_user_word_true_insert user_id en ru w w' :
  add_user_word user_id en ru w = (Ok true, w') →
  ∃ c id t', conn (self w) = Some c
    ∧ sql.insert_user_word (tables c) id user_id (sql.stored (lower en))
        (sql.stored (lower ru))
      = inr (Some id, t')
    ∧ db_tables w' = Some t'
    ∧ sql.adaptable (lower en) = true
    ∧ sql.fits (lower en) ∧ sql.fits (lower ru).
Proof.
  unfold add_user_word, db_tables. py_run.
  destruct (conn (self w)) as [c|] eqn:Hc; [|intros [=]].
  destruct (broken c) as [e|] eqn:Hb; simpl.
  { rewrite Hc. simpl. rewrite Hb. intros [=]. }
  destruct (sql.user_word_values _ _ _) as [e|[en' ru']] eqn:Hck; simpl.
  { rewrite Hc. simpl. rewrite Hb. intros [=]. }
  destruct (user_word_values_inr _ _ _ _ _ Hck)
    as (-> & -> & Had & _ & _ & Hfen & Hfru).
  rewrite Hc. simpl.
  destruct (sql.insert_user_word _ _ _ _ _) as [e|[result t']] eqn:Hins; simpl.
  { rewrite Hb. intros [=]. }
  rewrite Hb. simpl.
  pose proof Hins as Hins'. unfold sql.insert_user_word in Hins'.
  case_bool_decide as Hex; [|case_bool_decide; [done|]]; simplify_eq/=.
  - intros [=].
  - intros [= <-]. simpl. eauto 10.
Qed.




(** ** [get_user_stats] *)

Section stats.

Variables (user_id : Z) (word_type : WordType) (word_ref_id : Z).
Variables (is_correct : bool) (now : Z).

Local Abbreviation K := (sql.same_key user_id word_type word_ref_id).
Local Abbreviation upd :=
  (λ p, if decide (K p) then sql.bump is_correct now p else p).
Local Abbreviation dc := (if is_correct then 1 else 0).
Local Abbreviation di := (if is_correct then 0 else 1).
Implicit Types ps : list Progress.

Lemma upd_id_without_key ps : ¬ Exists K ps → upd <$> ps = ps.
Proof.
  intros Hno. induction ps as [|p ps IH]; [done|].
  rewrite fmap_cons, decide_False, IH; [done| |].
  - intros Hex. apply Hno. by apply Exists_cons_tl.
  - intros HK. apply Hno. by apply Exists_cons_hd.
Qed.

Lemma stats_of_upd ps :
  NoDup ((λ p, (p_user p, p_type p, p_ref p)) <$> ps) → Exists K ps →
  Zsum (p_correct <$> filter (λ p, p_user p = user_id) (upd <$> ps))
  = Zsum (p_correct <$> filter (λ p, p_user p = user_id) ps) + dc
  ∧ Zsum (p_incorrect <$> filter (λ p, p_user p = user_id) (upd <$> ps))
    = Zsum (p_incorrect <$> filter (λ p, p_user p = user_id) ps) + di
  ∧ length (filter (λ p, p_user p = user_id) (upd <$> ps))
    = length (filter (λ p, p_user p = user_id) ps).
Proof.
  induction ps as [|p ps IH]; [by intros _ ?%Exists_nil|].
  rewrite fmap_cons, NoDup_cons. intros [Hp Hnd] Hex.
  rewrite (fmap_cons upd). destruct (decide (K p)) as [HK|HK].
  - assert (¬ Exists K ps) as Hno.
    { intros (q & Hq & HKq)%Exists_exists. apply Hp.
      destruct HK as (Hu1 & Ht1 & Hr1), HKq as (Hu & Ht & Hr).
      apply list_elem_of_fmap. exists q. split; [|done]. congruence. }
    rewrite (upd_id_without_key ps Hno).
    assert (p_user p = user_id) as Hu by apply HK.
    rewrite !filter_cons_True by done. rewrite !fmap_cons. unfold Zsum.
    simpl. repeat split; destruct is_correct; lia.
  - apply Exists_cons in Hex as [?|Hex]; [done|].
    destruct (IH Hnd Hex) as (Hc & Hi & Hl).
    rewrite !filter_cons. destruct (decide (p_user p = user_id)).
    + rewrite !fmap_cons. unfold Zsum in *. simpl. rewrite Hc, Hi, Hl.
      repeat split; lia.
    + done.
Qed.

Lemma stats_of_upd_other u ps :
  u ≠ user_id →
  filter (λ p, p_user p = u) (upd <$> ps) = filter (λ p, p_user p = u) ps.
Proof.
  intros Hne. induction ps as [|p ps IH]; [done|].
  rewrite fmap_cons, !filter_cons, IH.
  destruct (decide (K p)) as [HK|HK]; [|done].
  simpl. destruct HK as (Hu & _ & _).
  rewrite !decide_False by congruence. done.
Qed.

(** The statistics query before and after a successful upsert. *)
Lemma select_stats_upsert t t' :
  schema_ok t →
  sql.upsert_progress t user_id word_type word_ref_id is_correct now = inr t' →
  sql2.select_stats t' user_id
  = ((sql2.select_stats t user_id).1.1 + dc,
     (sql2.select_stats t user_id).1.2 + di,
     (sql2.select_stats t user_id).2
     + (if lookup_progress t user_id word_type word_ref_id is Some _
        then 0 else 1))
  ∧ ∀ u, u ≠ user_id → sql2.select_stats t' u = sql2.select_stats t u.
Proof.
  intros Hok. unfold sql.upsert_progress, sql2.select_stats, lookup_progress.
  destruct (negb _); [intros [=]|].
  case_bool_decide as Hex.
  - case_bool_decide as Hov; [intros [=]|]. intros [= <-]. simpl.
    destruct (stats_of_upd _ (progress_unique _ Hok) Hex) as (Hc & Hi & Hl).
    split.
    + rewrite Hc, Hi, Hl.
      apply Exists_exists in Hex as (p & Hp & HK).
      assert (p ∈ filter K (user_word_progress t)) as Hin
        by by apply list_elem_of_filter.
      destruct (filter K (user_word_progress t));
        [by apply not_elem_of_nil in Hin|].
      simpl. f_equal. lia.
    + intros u Hne. by rewrite (stats_of_upd_other u _ Hne).
  - intros [= <-]. simpl. split.
    + rewrite filter_app, filter_cons_True, filter_nil by done.
      rewrite !fmap_app, !Zsum_app, length_app. unfold Zsum at 2 4. simpl.
      rewrite (filter_none K); last first.
      { intros p Hp HK. apply Hex, Exists_exists. eauto. }
      simpl. f_equal; [f_equal|]; destruct is_correct; lia.
    + intros u Hne. rewrite filter_app, filter_cons_False, filter_nil.
      * by rewrite app_nil_r.
      * simpl. congruence.
Qed.

End stats.

Lemma record_answer_true_conn user_id wt ref ic w w' :
  record_answer user_id wt ref ic w = (Ok true, w') →
  ∃ c', conn (self w') = Some c' ∧ broken c' = None.
Proof.
  unfold record_answer. py_run.
  destruct (conn (self w)) as [c|] eqn:Hc; [|intros [=]].
  destruct (broken c) as [e|] eqn:Hb; simpl.
  { rewrite Hc. simpl. rewrite Hb. intros [=]. }
  destruct (sql.upsert_progress _ _ _ _ _ _) as [e|t'] eqn:Hup; simpl.
  { rewrite Hc. simpl. rewrite Hb. intros [=]. }
  rewrite Hc. simpl. rewrite Hb. simpl. intros [= <-]. simpl. eauto.
Qed.

Lemma get_user_stats_live user_id s c :
  conn (self (world s)) = Some c → broken c = None →
  (get_user_stats user_id s).1
  = Ok {| total_correct := (sql2.select_stats (tables c) user_id).1.1;
          total_incorrect := (sql2.select_stats (tables c) user_id).1.2;
          words_practiced := (sql2.select_stats (tables c) user_id).2 |}.
Proof.
  intros Hc Hb. unfold get_user_stats. db_run. rewrite Hc, Hb. simpl.
  by destruct (sql2.select_stats (tables c) user_id) as [[? ?] ?].
Qed.

(** X13: after an answer has been recorded, the statistics of the user
    show one more answer: the total that matches the answer is 1 higher,
    the other total is as before, and the number of words practised is 1
    higher exactly when the word had no progress row yet. The statistics
    of every other user are as before. *)
Theorem stats_after_answer user_id wt ref (ic : bool) s s' t :
  db_tables (world s) = Some t → schema_ok t →
  record_answer user_id wt ref ic (world s) = (Ok true, world s') →
  ∃ st st',
    (get_user_stats user_id s).1 = Ok st
    ∧ (get_user_stats user_id s').1 = Ok st'
    ∧ total_correct st' = total_correct st + (if ic then 1 else 0)
    ∧ total_incorrect st' = total_incorrect st + (if ic then 0 else 1)
    ∧ words_practiced st'
      = words_practiced st
        + (if lookup_progress t user_id wt ref is Some _ then 0 else 1)
    ∧ ∀ u, u ≠ user_id → (get_user_stats u s').1 = (get_user_stats u s).1.
Proof.
  intros Ht Hok Hrun.
  destruct (record_answer_true_inv _ _ _ _ _ _ Hrun)
    as (c & t' & Hc & Hb & Hup & Ht' & _).
  destruct (record_answer_true_conn _ _ _ _ _ _ Hrun) as (c' & Hc' & Hb').
  unfold db_tables in Ht, Ht'. rewrite Hc in Ht. rewrite Hc' in Ht'.
  simpl in Ht, Ht'. injection Ht as <-. injection Ht' as <-.
  destruct (select_stats_upsert _ _ _ _ _ _ _ Hok Hup) as [Hnew Hother].
  eexists _, _. split; [by apply get_user_stats_live|].
  split; [by apply get_user_stats_live|].
  cbn [total_correct total_incorrect words_practiced]. rewrite Hnew.
  cbn [fst snd]. do 3 (split; [done|]). intros u Hne.
  rewrite (get_user_stats_live u s' c' Hc' Hb'),
    (get_user_stats_live u s c Hc Hb), (Hother u Hne). done.
Qed.

Lemma stats_after_answer_witness :
  ∃ st st',
    (get_user_stats 7 (MoreExamples.env Examples.apple_cat)).1 = Ok st
    ∧ (get_user_stats 7
         (env_of (record_answer 7 common 1 false
                    (Examples.world_of (Examples.live Examples.apple_cat)
                       (λ _, 0%N))).2)).1 = Ok st'
    ∧ total_correct st' = total_correct st + 0
    ∧ total_incorrect st' = total_incorrect st + 1.
Proof.
  destruct (stats_after_answer 7 common 1 false
              (MoreExamples.env Examples.apple_cat)
              (env_of (record_answer 7 common 1 false
                         (Examples.world_of (Examples.live Examples.apple_cat)
                            (λ _, 0%N))).2)
              Examples.apple_cat eq_refl)
    as (st & st' & H1 & H2 & H3 & H4 & _).
  - split; compute_done.
  - reflexivity.
  - exists st, st'. split; [exact H1|]. split; [exact H2|].
    split; [exact H3 | exact H4].
Defined.

(** ** [count_total_words] *)

Section remove_dups_facts.

Context {A : Type} `{EqDecision A}.

Lemma remove_dups_length_le (l : list A) :
  (length (remove_dups l) ≤ length l)%nat.
Proof.
  induction l as [|x l IH]; simpl; [lia|].
  destruct (decide_rel elem_of x l); simpl; lia.
Qed.

Lemma remove_dups_same_elements (l k : list A) :
  (∀ x, x ∈ l ↔ x ∈ k) → length (remove_dups l) = length (remove_dups k).
Proof.
  intros Hlk. apply Permutation_length, NoDup_Permutation;
    [apply NoDup_remove_dups | apply NoDup_remove_dups |].
  intros x. by rewrite !elem_of_remove_dups.
Qed.

Lemma remove_dups_nil_inv (l : list A) : remove_dups l = [] → l = [].
Proof.
  intros Hl. destruct l as [|x l]; [done|].
  assert (x ∈ remove_dups (x :: l)) as Hx by (apply elem_of_remove_dups; left).
  rewrite Hl in Hx. by apply not_elem_of_nil in Hx.
Qed.

End remove_dups_facts.

Lemma en_texts_elements t user_id (e : text) :
  e ∈ en_texts (sql.select_candidates t user_id)
  ↔ e ∈ (cw_en <$> common_words t)
        ++ (uw_en <$> filter (λ u, uw_user u = user_id) (user_words t)).
Proof.
  unfold en_texts.
  rewrite (list_fmap_compose row_word w_en), list_elem_of_fmap.
  setoid_rewrite candidates_row_word. unfold sql.word_union.
  setoid_rewrite elem_of_remove_dups. setoid_rewrite elem_of_app.
  rewrite !list_elem_of_fmap. setoid_rewrite list_elem_of_fmap. split.
  - intros (w & -> & [(c & -> & Hc)|(u & -> & Hu)]); [left|right]; eauto.
  - intros [(c & -> & Hc)|(u & -> & Hu)]; eexists; (split; [|eauto]); done.
Qed.

(** X14: with a live connection [count_total_words] counts the distinct
    English texts among the user's candidates: it is 0 exactly when
    [get_random_card] has no candidate, and never more than the number of
    candidates. When there is no connection, or the connection fails, it
    returns 0 as well. *)
Theorem count_total_words_result user_id s :
  (conn (self (world s)) = None → (count_total_words user_id s).1 = Ok 0)
  ∧ (∀ c e, conn (self (world s)) = Some c → broken c = Some e →
       (count_total_words user_id s).1 = Ok 0)
  ∧ (∀ c, conn (self (world s)) = Some c → broken c = None →
       (count_total_words user_id s).1
       = Ok (Z.of_nat
               (length (remove_dups
                          (en_texts (sql.select_candidates (tables c) user_id)))))
       ∧ ((count_total_words user_id s).1 = Ok 0
          ↔ sql.select_candidates (tables c) user_id = [])
       ∧ ∀ n, (count_total_words user_id s).1 = Ok n →
              n ≤ Z.of_nat (length (sql.select_candidates (tables c) user_id))).
Proof.
  split; [|split].
  - intros Hc. unfold count_total_words. db_run. by rewrite Hc.
  - intros c e Hc Hb. unfold count_total_words. db_run. by rewrite Hc, Hb.
  - intros c Hc Hb.
    assert ((count_total_words user_id s).1
            = Ok (Z.of_nat
                    (length (remove_dups
                               (en_texts (sql.select_candidates (tables c)
                                            user_id)))))) as Hrun.
    { unfold count_total_words. db_run. rewrite Hc, Hb. simpl.
      unfold sql2.count_distinct_words. do 2 f_equal.
      rewrite (remove_dups_NoDup_id (remove_dups _))
        by apply NoDup_remove_dups.
      apply remove_dups_same_elements. intros e.
      by rewrite en_texts_elements. }
    rewrite Hrun. split; [done|]. split.
    + split.
      * intros [= Hz].
        assert (remove_dups (en_texts (sql.select_candidates (tables c)
                                         user_id)) = []) as Hnil
          by (apply nil_length_inv; lia).
        apply remove_dups_nil_inv in Hnil. unfold en_texts in Hnil.
        by apply fmap_nil_inv in Hnil.
      * by intros ->.
    + intros n [= <-].
      pose proof (remove_dups_length_le
                    (en_texts (sql.select_candidates (tables c) user_id)))
        as Hle.
      unfold en_texts in Hle at 2. rewrite length_fmap in Hle. lia.
Qed.

Lemma count_total_words_result_witness :
  (count_total_words 7 (MoreExamples.env Examples.apple_twice)).1 = Ok 2
  ∧ length (sql.select_candidates Examples.apple_twice 7) = 3%nat.
Proof.
  split; [|reflexivity].
  destruct (proj2 (proj2 (count_total_words_result 7
                            (MoreExamples.env Examples.apple_twice)))
              (Examples.connection_of Examples.apple_twice) eq_refl eq_refl)
    as (Hrun & _).
  rewrite Hrun. reflexivity.
Defined.

(** ** [get_user_input_mode] and [set_user_input_mode] *)

Section input_mode.

Variables (user_id : Z) (mode : text).

Local Abbreviation setm :=
  (λ r, if decide (pref_user r = user_id)
        then {| pref_user := pref_user r; input_mode := mode |} else r).
Implicit Types prefs : list Preference.

Lemma filter_setm_same prefs :
  filter (λ r, pref_user r = user_id) (setm <$> prefs)
  = setm <$> filter (λ r, pref_user r = user_id) prefs.
Proof.
  induction prefs as [|r prefs IH]; [done|].
  rewrite fmap_cons, !filter_cons.
  destruct (decide (pref_user r = user_id)) as [Hr|Hr].
  - rewrite decide_True by done.
    rewrite fmap_cons, IH, decide_True by done. done.
  - rewrite decide_False by done. done.
Qed.

Lemma filter_setm_other u prefs :
  u ≠ user_id →
  filter (λ r, pref_user r = u) (setm <$> prefs)
  = filter (λ r, pref_user r = u) prefs.
Proof.
  intros Hne. induction prefs as [|r prefs IH]; [done|].
  rewrite fmap_cons, !filter_cons, IH.
  destruct (decide (pref_user r = user_id)) as [Hr|Hr]; [|done].
  simpl. rewrite !decide_False by congruence. done.
Qed.

(** What the upsert leaves for the user and for the others. *)
Lemma upsert_input_mode_select prefs prefs' :
  sql2.upsert_input_mode prefs user_id mode = inr prefs' →
  sql2.select_input_mode prefs' user_id = Some mode
  ∧ ∀ u, u ≠ user_id →
         sql2.select_input_mode prefs' u = sql2.select_input_mode prefs u.
Proof.
  unfold sql2.upsert_input_mode, sql2.select_input_mode.
  destruct (negb _); [intros [=]|].
  case_bool_decide as Hex; intros [= <-].
  - split.
    + rewrite filter_setm_same.
      apply Exists_exists in Hex as (r & Hr & HU).
      assert (r ∈ filter (λ r, pref_user r = user_id) prefs) as Hin
        by by apply list_elem_of_filter.
      destruct (filter _ prefs) as [|q qs] eqn:Hf;
        [by apply not_elem_of_nil in Hin|].
      assert (q ∈ filter (λ r, pref_user r = user_id) prefs) as Hq
        by (rewrite Hf; left).
      apply list_elem_of_filter in Hq as [Hq _].
      simpl. by rewrite decide_True.
    + intros u Hne. by rewrite filter_setm_other.
  - split.
    + rewrite filter_app, filter_cons_True, filter_nil by done.
      rewrite filter_none; [done|].
      intros r Hr HU. apply Hex, Exists_exists. eauto.
    + intros u Hne. rewrite filter_app, filter_cons_False, filter_nil.
      * by rewrite app_nil_r.
      * simpl. congruence.
Qed.

End input_mode.

Lemma get_user_input_mode_live user_id s c :
  conn (self (world s)) = Some c → broken c = None →
  (get_user_input_mode user_id s).1
  = Ok (default buttons (sql2.select_input_mode (user_preferences s) user_id)).
Proof.
  intros Hc Hb. unfold get_user_input_mode. db_run. rewrite Hc, Hb. simpl.
  by destruct (sql2.select_input_mode _ _).
Qed.

(** X15: setting the input mode to [buttons] or [keyboard] on a live
    connection returns [True]; the mode read back for that user is the one
    set, the mode of every other user is as before, and the tables of
    words and progress are not touched. *)
Theorem input_mode_round_trip user_id mode s c :
  conn (self (world s)) = Some c → broken c = None →
  in_bigint user_id = true →
  mode = buttons ∨ mode = keyboard →
  ∃ s',
    set_user_input_mode user_id mode s = (Ok true, s')
    ∧ (get_user_input_mode user_id s').1 = Ok mode
    ∧ (∀ u, u ≠ user_id →
            (get_user_input_mode u s').1 = (get_user_input_mode u s).1)
    ∧ world s' = world s.
Proof.
  intros Hc Hb Hu Hmode.
  destruct (sql2.upsert_input_mode (user_preferences s) user_id mode)
    as [e|prefs'] eqn:Hup.
  { unfold sql2.upsert_input_mode in Hup. rewrite Hu in Hup. simpl in Hup.
    by case_bool_decide. }
  destruct (upsert_input_mode_select _ _ _ _ Hup) as [Hsel Hother].
  assert (set_user_input_mode user_id mode s
          = (Ok true,
             {| world := world s; user_preferences := prefs';
                db_log := db_log s ++ [(INFO, SetInputMode mode user_id)] |}))
    as Hrun.
  { unfold set_user_input_mode. db_run. rewrite Hc.
    rewrite bool_decide_eq_false_2 by (destruct Hmode; tauto).
    db_run. rewrite Hb. simpl. rewrite Hup. simpl. rewrite Hc. simpl.
    rewrite Hb. simpl. by destruct (world s). }
  set (s' := {| world := world s; user_preferences := prefs';
                db_log := db_log s ++ [(INFO, SetInputMode mode user_id)] |})
    in *.
  exists s'. split; [exact Hrun|]. split; [|split; [|done]].
  - rewrite (get_user_input_mode_live user_id s' c Hc Hb). simpl.
    by rewrite Hsel.
  - intros u Hne.
    rewrite (get_user_input_mode_live u s' c Hc Hb),
      (get_user_input_mode_live u s c Hc Hb). simpl.
    by rewrite (Hother u Hne).
Qed.

Lemma input_mode_round_trip_witness :
  ∃ s',
    set_user_input_mode 7 keyboard (MoreExamples.env Examples.apple_cat)
    = (Ok true, s')
    ∧ (get_user_input_mode 7 s').1 = Ok keyboard.
Proof.
  destruct (input_mode_round_trip 7 keyboard
              (MoreExamples.env Examples.apple_cat)
              (Examples.connection_of Examples.apple_cat)
              eq_refl eq_refl eq_refl (or_intror eq_refl))
    as (s' & Hset & Hget & _).
  exists s'. split; [exact Hset | exact Hget].
Defined.

(** X16: [get_user_input_mode] never raises and falls back to [buttons]:
    that is its answer when the user has no stored preference, when there
    is no connection and when the connection fails. A mode other than
    [buttons] and [keyboard] is refused by [set_user_input_mode]: it
    returns [False] and nothing changes. *)
Theorem input_mode_defaults user_id s :
  (∃ m, (get_user_input_mode user_id s).1 = Ok m)
  ∧ (sql2.select_input_mode (user_preferences s) user_id = None →
     (get_user_input_mode user_id s).1 = Ok buttons)
  ∧ (conn (self (world s)) = None →
     (get_user_input_mode user_id s).1 = Ok buttons)
  ∧ (∀ c e, conn (self (world s)) = Some c → broken c = Some e →
       (get_user_input_mode user_id s).1 = Ok buttons)
  ∧ (∀ mode, mode ≠ buttons → mode ≠ keyboard →
       set_user_input_mode user_id mode s = (Ok false, s)).
Proof.
  assert (∀ c e, conn (self (world s)) = Some c → broken c = Some e →
            (get_user_input_mode user_id s).1 = Ok buttons) as Hbroken.
  { intros c e Hc Hb. unfold get_user_input_mode. db_run. by rewrite Hc, Hb. }
  assert (conn (self (world s)) = None →
          (get_user_input_mode user_id s).1 = Ok buttons) as Hnone.
  { intros Hc. unfold get_user_input_mode. db_run. by rewrite Hc. }
  split; [|split; [|split; [done|split; [done|]]]].
  - destruct (conn (self (world s))) as [c|] eqn:Hc; [|eauto].
    destruct (broken c) as [e|] eqn:Hb; [eauto|].
    eexists. by apply (get_user_input_mode_live user_id s c).
  - intros Hsel.
    destruct (conn (self (world s))) as [c|] eqn:Hc; [|eauto].
    destruct (broken c) as [e|] eqn:Hb; [eauto|].
    rewrite (get_user_input_mode_live user_id s c Hc Hb). by rewrite Hsel.
  - intros mode Hb Hk. unfold set_user_input_mode. db_run.
    destruct (conn (self (world s))) as [c|] eqn:Hc.
    + rewrite bool_decide_eq_true_2 by done. db_run.
      by destruct s as [[] ? ?].
    + by destruct s as [[] ? ?].
Qed.

Lemma input_mode_defaults_witness :
  (get_user_input_mode 7 (MoreExamples.env Examples.apple_cat)).1 = Ok buttons
  ∧ set_user_input_mode 7 (of_string "voice")
      (MoreExamples.env Examples.apple_cat)
    = (Ok false, MoreExamples.env Examples.apple_cat).
Proof.
  destruct (input_mode_defaults 7 (MoreExamples.env Examples.apple_cat))
    as (_ & Hnone & _ & _ & Hmode).
  split; [apply Hnone; reflexivity | apply Hmode; compute_done].
Defined.

(** ** The add dialog *)

Lemma strip_subset (s : text) c : c ∈ strip s → c ∈ s.
Proof.
  destruct (strip_trimmed s) as (pre & post & Heq & _).
  intros Hc. rewrite Heq, !elem_of_app. tauto.
Qed.

Lemma split_hyphen_Some (s before after : text) :
  split_hyphen s = Some (before, after) →
  s = before ++ 45%N :: after ∧ 45%N ∉ before.
Proof.
  revert before. induction s as [|c s IH]; intros before; simpl; [done|].
  destruct (N.eqb_spec c 45) as [->|Hc].
  - intros [= <- <-]. split; [done | apply not_elem_of_nil].
  - destruct (split_hyphen s) as [[b a]|]; [|done].
    intros [= <- <-]. destruct (IH b eq_refl) as [-> Hb].
    split; [done|]. apply not_elem_of_cons. done.
Qed.

Lemma split_hyphen_app (before after : text) :
  45%N ∉ before → split_hyphen (before ++ 45%N :: after) = Some (before, after).
Proof.
  induction before as [|c b IH]; intros Hno; simpl; [done|].
  apply not_elem_of_cons in Hno as [Hc Hb].
  destruct (N.eqb_spec c 45) as [->|_]; [done|]. by rewrite IH.
Qed.

Lemma all_space_no_hyphen (ws : text) : all_space ws → 45%N ∉ ws.
Proof.
  intros Hws Hin. eapply Forall_forall in Hws; [|exact Hin]. done.
Qed.

Lemma strip_surrounded (pre s post : text) :
  all_space pre → all_space post → s ≠ [] → strip s = s →
  strip (pre ++ s ++ post) = s.
Proof.
  intros Hpre Hpost Hne Hs. apply trimmed_unique. exists pre, post.
  destruct (strip_trimmed s) as (_ & _ & _ & _ & _ & Hh & Hl).
  rewrite Hs in Hh, Hl. done.
Qed.

Lemma parse_word_addition_words message en ru :
  parse_word_addition message = inr (en, ru) →
  en ≠ [] ∧ ru ≠ [] ∧ strip en = en ∧ strip ru = ru ∧ 45%N ∉ en.
Proof.
  unfold parse_word_addition.
  destruct (split_hyphen (strip message)) as [[part0 part1]|] eqn:Hsplit;
    [|done].
  case_bool_decide as Hempty; [done|]. intros [= <- <-].
  apply split_hyphen_Some in Hsplit as [_ Hno].
  repeat split.
  - tauto.
  - tauto.
  - apply strip_idempotent.
  - apply strip_idempotent.
  - intros Hin. by apply Hno, strip_subset.
Qed.

(** X17: the words [process_word_addition] takes from a message are never
    empty, have no whitespace at either end, and the English one holds no
    hyphen. A message made of an English word without hyphen, a hyphen and
    a translation, with any whitespace around the three, is read back as
    exactly that word and that translation. *)
Theorem parse_word_addition_round_trip :
  (∀ message en ru,
     parse_word_addition message = inr (en, ru) →
     en ≠ [] ∧ ru ≠ [] ∧ strip en = en ∧ strip ru = ru ∧ 45%N ∉ en)
  ∧ (∀ en ru ws1 ws2 ws3 ws4 : text,
       en ≠ [] → ru ≠ [] → strip en = en → strip ru = ru → 45%N ∉ en →
       all_space ws1 → all_space ws2 → all_space ws3 → all_space ws4 →
       parse_word_addition (ws1 ++ en ++ ws2 ++ [45%N] ++ ws3 ++ ru ++ ws4)
       = inr (en, ru)).
Proof.
  split; [exact parse_word_addition_words|].
  - intros en ru ws1 ws2 ws3 ws4 Hen Hru Hsen Hsru Hno H1 H2 H3 H4.
    unfold parse_word_addition.
    assert (strip (ws1 ++ en ++ ws2 ++ [45%N] ++ ws3 ++ ru ++ ws4)
            = (en ++ ws2) ++ 45%N :: (ws3 ++ ru)) as ->.
    { apply trimmed_unique. exists ws1, ws4.
      destruct (strip_trimmed en) as (_ & _ & _ & _ & _ & Hh & _).
      destruct (strip_trimmed ru) as (_ & _ & _ & _ & _ & _ & Hl).
      rewrite Hsen in Hh. rewrite Hsru in Hl.
      split; [by rewrite <-!app_assoc; simpl; rewrite <-!app_assoc|].
      split; [done|]. split; [done|]. split.
      - intros c Hc. apply Hh. by destruct en.
      - intros c. change (45%N :: (ws3 ++ ru)) with ([45%N] ++ ws3 ++ ru).
        rewrite !app_assoc, last_app.
        destruct (last ru) eqn:Hlast; [by intros [= <-]; apply Hl|].
        apply last_None in Hlast. done. }
    rewrite split_hyphen_app; last first.
    { rewrite not_elem_of_app. split; [done | by apply all_space_no_hyphen]. }
    assert (strip (en ++ ws2) = en) as ->.
    { apply (strip_surrounded [] en ws2); done || constructor. }
    assert (strip (ws3 ++ ru) = ru) as ->.
    { assert (all_space []) as Hnil by constructor.
      pose proof (strip_surrounded ws3 ru [] H3 Hnil Hru Hsru) as Hs.
      by rewrite app_nil_r in Hs. }
    rewrite bool_decide_eq_false_2 by tauto. done.
Qed.

Example parse_dog :
  parse_word_addition (of_string "  Dog -  bow-wow ")
  = inr (of_string "Dog", of_string "bow-wow")
  ∧ parse_word_addition (of_string "well-known - famous")
    = inr (of_string "well", of_string "known - famous")
  ∧ parse_word_addition (of_string "dog") = inl MissingSeparator
  ∧ parse_word_addition (of_string " - dog") = inl EmptyWord.
Proof. repeat split; vm_compute; reflexivity. Qed.


Lemma parse_word_addition_round_trip_witness :
  parse_word_addition
    (of_string " " ++ of_string "Dog" ++ of_string " " ++ [45%N]
     ++ of_string "  " ++ of_string "bow-wow" ++ of_string " ")
  = inr (of_string "Dog", of_string "bow-wow").
Proof.
  apply (proj2 parse_word_addition_round_trip
           (of_string "Dog") (of_string "bow-wow") (of_string " ")
           (of_string " ") (of_string "  ") (of_string " ")).
  - done.
  - done.
  - vm_compute. reflexivity.
  - vm_compute. reflexivity.
  - compute_done.
  - vm_compute. repeat constructor.
  - vm_compute. repeat constructor.
  - vm_compute. repeat constructor.
  - vm_compute. repeat constructor.
Defined.

Lemma last_drop_nonempty {A} (n : nat) (l : list A) :
  drop n l ≠ [] → last (drop n l) = last l.
Proof.
  intros Hne. rewrite <-(take_drop n l) at 2. rewrite last_app.
  destruct (last (drop n l)) eqn:Hl; [done|]. by apply last_None in Hl.
Qed.

(** A text without whitespace at its end is stored as it is, or not at
    all. *)
Lemma stored_stripped (s : text) : strip s = s → sql.fits s → sql.stored s = s.
Proof.
  intros [_ Hl]%strip_fixed_iff Hfit. unfold sql.stored, sql.fits in *.
  destruct (drop VARCHAR_LEN s) as [|c r] eqn:Hd.
  - apply take_ge. apply (f_equal length) in Hd.
    rewrite length_drop in Hd. simpl in Hd. lia.
  - assert (last s = last (c :: r)) as Hlast.
    { rewrite <-Hd. symmetry. apply last_drop_nonempty. by rewrite Hd. }
    destruct (last (c :: r)) as [d|] eqn:Hcr; [|by apply last_None in Hcr].
    assert (d ∈ c :: r) as Hin.
    { apply last_Some in Hcr as [l' ->]. apply elem_of_app. right. by left. }
    eapply Forall_forall in Hfit; [|exact Hin]. subst d.
    by specialize (Hl _ Hlast).
Qed.

(** X18: when the add dialog reports a new word, the word is among this
    user's candidates for the next card with both texts in lower case,
    and the English word typed as it stood in the message (in any case) is
    graded as the correct answer to its card. *)
Theorem added_word_is_offered user_id message w w' :
  process_word_addition_store user_id message w = (Ok (inr true), w') →
  ∃ en ru id t',
    parse_word_addition message = inr (en, ru)
    ∧ db_tables w' = Some t'
    ∧ {| w_en := lower en; w_ru := lower ru; w_type := user; w_ref := id |}
      ∈ row_word <$> sql.select_candidates t' user_id
    ∧ grade (lower en) en = true
    ∧ grade (lower en) (lower en) = true.
Proof.
  unfold process_word_addition_store.
  destruct (parse_word_addition message) as [e|[en ru]] eqn:Hparse;
    [by intros [=]|].
  py_run.
  destruct (add_user_word user_id en ru w) as [[added|e] w1] eqn:Hadd;
    simpl; [|by intros [=]].
  intros [= -> ->].
  destruct (add_user_word_true_insert _ _ _ _ _ Hadd)
    as (c & id & t' & Hc & Hins & Ht' & _ & Hfen & Hfru).
  destruct (parse_word_addition_words _ _ _ Hparse)
    as (_ & _ & Hen & Hru & _).
  rewrite (stored_stripped (lower en)), (stored_stripped (lower ru)) in Hins
    by (done || by apply strip_lower).
  exists en, ru, id, t'. split; [done|]. split; [done|]. split; [|split].
  - unfold sql.insert_user_word in Hins.
    case_bool_decide; [done|]. case_bool_decide; [done|].
    injection Hins as <-.
    apply candidates_row_word. unfold sql.word_union. simpl.
    rewrite elem_of_remove_dups, elem_of_app. right.
    apply list_elem_of_fmap.
    exists {| uw_id := id; uw_user := user_id; uw_en := lower en;
              uw_ru := lower ru |}.
    split; [done|]. apply list_elem_of_filter. split; [done|].
    apply elem_of_app. right. by left.
  - unfold grade, Text.eqb. rewrite Hen, lower_idempotent.
    by apply bool_decide_eq_true.
  - unfold grade, Text.eqb. rewrite (strip_lower _ Hen).
    by apply bool_decide_eq_true.
Qed.

Lemma added_word_is_offered_witness :
  ∃ en ru id t',
    parse_word_addition (of_string " Dog - Hund ") = inr (en, ru)
    ∧ db_tables
        (process_word_addition_store 7 (of_string " Dog - Hund ")
           (Examples.world_of (Examples.live Examples.apple_cat) (λ _, 0%N))).2
      = Some t'
    ∧ {| w_en := lower en; w_ru := lower ru; w_type := user; w_ref := id |}
      ∈ row_word <$> sql.select_candidates t' 7
    ∧ grade (lower en) en = true
    ∧ grade (lower en) (lower en) = true.
Proof.
  apply (added_word_is_offered 7 (of_string " Dog - Hund ")
           (Examples.world_of (Examples.live Examples.apple_cat) (λ _, 0%N))).
  vm_compute. reflexivity.
Defined.

(** ** The option keyboard *)

Lemma pair_ind {A} (P : list A → Prop) :
  P [] → (∀ x, P [x]) → (∀ x y l, P l → P (x :: y :: l)) → ∀ l, P l.
Proof.
  intros Hnil Hone Hstep l.
  assert (P l ∧ ∀ x, P (x :: l)) as [? _]; [|done].
  induction l as [|y l [IH1 IH2]]; [done|].
  split; [apply IH2|]. intros x. by apply Hstep.
Qed.

Lemma half_step (n : nat) : ((S (S n) + 1) / 2 = S ((n + 1) / 2))%nat.
Proof.
  replace (S (S n) + 1)%nat with ((n + 1) + 1 * 2)%nat by lia.
  rewrite Nat.div_add by lia. lia.
Qed.

Lemma keyboard_rows_step {A} (x y : A) l :
  keyboard_rows (x :: y :: l) = [x; y] :: keyboard_rows l.
Proof.
  unfold keyboard_rows. cbn [length]. rewrite half_step.
  rewrite <-cons_seq, !fmap_cons. f_equal.
  rewrite <-fmap_S_seq, <-!list_fmap_compose. apply list_fmap_ext.
  intros _ k _. simpl.
  replace (k + S (k + 0))%nat with (S (k + (k + 0))) by lia. done.
Qed.

(** X19: the option buttons are laid out in rows in their order, none
    lost and none repeated; there are half as many rows as buttons,
    rounded up; every row holds two buttons, except the last one when the
    number of buttons is odd, which holds one. *)
Theorem keyboard_rows_layout {A} (option_buttons : list A) :
  concat (keyboard_rows option_buttons) = option_buttons
  ∧ length (keyboard_rows option_buttons)
    = ((length option_buttons + 1) / 2)%nat
  ∧ (∀ i row, keyboard_rows option_buttons !! i = Some row →
       (length row = 2%nat
        ∨ (length row = 1%nat
           ∧ S i = length (keyboard_rows option_buttons)
           ∧ Nat.Odd (length option_buttons)))).
Proof.
  induction option_buttons as [|x|x y l (IHc & IHl & IHr)] using pair_ind.
  - by repeat split.
  - repeat split; try done. intros [|i] row; [|done].
    intros [= <-]. right. split; [done|]. split; [done|]. by exists 0%nat.
  - rewrite keyboard_rows_step. split; [|split].
    + simpl. by rewrite IHc.
    + cbn [length]. by rewrite IHl, half_step.
    + intros [|i] row; simpl; [intros [= <-]; by left|].
      intros Hi. destruct (IHr i row Hi) as [?|(? & ? & [k Hk])]; [by left|].
      right. repeat split; [done | lia |]. exists (S k). lia.
Qed.

Lemma keyboard_rows_layout_witness :
  length [Examples.dog] = 2%nat
  ∨ (length [Examples.dog] = 1%nat
     ∧ 2%nat = length (keyboard_rows [Examples.apple; Examples.cat;
                                      Examples.dog])
     ∧ Nat.Odd (length [Examples.apple; Examples.cat; Examples.dog])).
Proof.
  apply (proj2 (proj2 (keyboard_rows_layout
                         [Examples.apple; Examples.cat; Examples.dog]))
           1%nat [Examples.dog]).
  reflexivity.
Defined.


(** X20: with buttons, exactly one option of a card is graded correct
    when pressed, the card's own English text, as long as the English
    texts of the candidates have no whitespace at either end and differ
    from one another by more than the case of letters. *)
Theorem one_option_is_correct user_id w c :
  conn (self w) = Some c → broken c = None →
  sql.select_candidates (tables c) user_id ≠ [] →
  Forall (λ e, strip e = e)
    (en_texts (sql.select_candidates (tables c) user_id)) →
  NoDup (lower <$> en_texts (sql.select_candidates (tables c) user_id)) →
  ∃ card w',
    get_random_card user_id w = (Ok (Some card), w')
    ∧ (∀ o, o ∈ card_options card →
         grade (card_en_word card) o = true ↔ o = card_en_word card)
    ∧ length (filter (λ o, grade (card_en_word card) o = true)
                (card_options card)) = 1%nat.
Proof.
  intros Hc Hb Hne Htrim Hnd.
  destruct (get_random_card_live user_id w c Hc Hb Hne)
    as (r & w' & Hrun & card & row & -> & Hrow & Hen & _ & _ & _
        & sampled & Hperm & Hlen & Hsub).
  set (rows := sql.select_candidates (tables c) user_id) in *.
  assert (card_en_word card ∈ en_texts rows) as Htarget.
  { rewrite Hen. by apply (list_elem_of_fmap_2 (λ r, w_en (row_word r))). }
  assert (∀ o, o ∈ card_options card → o ∈ en_texts rows) as Hopts.
  { intros o. rewrite Hperm, elem_of_app. intros [Ho | Ho].
    - eapply elem_of_submseteq in Ho; [|exact Hsub].
      by apply list_elem_of_filter in Ho as [_ Ho].
    - apply list_elem_of_singleton in Ho as ->. by rewrite <-Hen. }
  assert (∀ o, o ∈ card_options card →
            grade (card_en_word card) o = true ↔ o = card_en_word card)
    as Hgrade.
  { intros o Ho. apply Hopts in Ho.
    unfold grade, Text.eqb. rewrite bool_decide_eq_true.
    rewrite Forall_forall in Htrim. rewrite (Htrim o Ho). split.
    - by apply (NoDup_fmap_inj_in lower (en_texts rows)).
    - by intros ->. }
  exists card, w'. split; [done|]. split; [done|].
  rewrite (filter_ext_in _ (λ o, o = card_en_word card) _ Hgrade).
  rewrite Hen, Hperm, filter_app, length_app.
  rewrite filter_none; [by rewrite filter_cons_True|].
  intros o Ho ->. eapply elem_of_submseteq in Ho; [|exact Hsub].
  by apply list_elem_of_filter in Ho as [Hne' _].
Qed.

Lemma one_option_is_correct_witness :
  ∃ card w',
    get_random_card 7 (Examples.world_of (Examples.live Examples.apple_cat)
                         (λ _, 4503599627370496%N))
    = (Ok (Some card), w')
    ∧ (∀ o, o ∈ card_options card →
         grade (card_en_word card) o = true ↔ o = card_en_word card)
    ∧ length (filter (λ o, grade (card_en_word card) o = true)
                (card_options card)) = 1%nat.
Proof.
  apply (one_option_is_correct 7
           (Examples.world_of (Examples.live Examples.apple_cat)
              (λ _, 4503599627370496%N))
           (Examples.connection_of Examples.apple_cat) eq_refl eq_refl).
  - vm_compute. discriminate.
  - compute_done.
  - compute_done.
Defined.
